(** * Yappr transcript pipeline and preset system: a shallow embedding

    The development follows the JavaScript sources of the extension
    (content script, settings page):

    - [JsChar], [JsString]: the string primitives the code relies on
      ([trim], [toLowerCase], [startsWith], [includes], [slice], ...);
    - [Regex]: a backtracking matcher for the fragment of ECMAScript regular
      expressions that occurs in the sources, with global [replace],
      [split], [match] and [test];
    - [Cleanup]: [cleanTranscription];
    - [Format]: [formatTextIntoParagraphs], [countWords],
      [extractCleanContent];
    - [JsNumber]: the numbers of the language, IEEE 754 binary64, with
      division, multiplication, comparison and [Math.round];
    - [Metrics]: [computeSessionMetrics] and its helpers;
    - [JsMap], [Presets]: the [PresetManager] class over its key-value store;
    - [Template]: the [TemplateEngine] class;
    - [Enhance]: [EnhancementService.enhanceTranscript];
    - [Settings]: [YapprSettings.savePresetChanges];
    - [TemplateSyntax], [Trimming]: [validateTemplate], [truncateText],
      [trimToLimit];
    - [SettingsActions]: the other writers of the preset store on the
      settings page ([togglePresetEnabled], [deletePreset],
      [createDefaultPresets]);
    - [Folders], [History], [Storage], [FoldersPage]: the folders and the
      transcription history in the local store;
    - [Pipeline]: what is inserted and what is saved after a transcription.

    [Notions], [Shape], [Tally] and [Scenarios] introduce what the statements
    need besides the code, and the modules named [...Facts] hold the lemmas;
    the properties of the specification are the theorems stated between
    them, each under its number (C1 to C10), followed by further properties
    of the code (X1 to X30).

    A JavaScript string is modelled as a [string]: a sequence of code units
    restricted to the range 0..255 (Latin-1).  Character classes and case
    mappings are the ECMAScript ones on that range. *)

From Stdlib Require Import String Ascii List Bool Arith Lia ZArith QArith Qround.
From Stdlib Require Import DecimalString SpecFloat.

Set Warnings "-abstract-large-number".
Import ListNotations.
Open Scope string_scope.
Open Scope nat_scope.

(* ================================================================== *)
(** * Characters *)
(* ================================================================== *)

Module JsChar.

Definition code (c : ascii) : nat := nat_of_ascii c.

Definition in_range (lo hi : nat) (c : ascii) : bool :=
  (lo <=? code c) && (code c <=? hi).

(** [\s]: WhiteSpace and LineTerminator code points below 256:
    TAB, LF, VT, FF, CR, SPACE and NBSP. *)
Definition is_space (c : ascii) : bool :=
  in_range 9 13 c || (code c =? 32) || (code c =? 160).

Definition is_upper_az (c : ascii) : bool := in_range 65 90 c.
Definition is_lower_az (c : ascii) : bool := in_range 97 122 c.
Definition is_digit (c : ascii) : bool := in_range 48 57 c.

(** [\w] (no unicode flag): [A-Za-z0-9_]. *)
Definition is_word (c : ascii) : bool :=
  is_upper_az c || is_lower_az c || is_digit c || (code c =? 95).

(** [toLowerCase] on one code unit: A-Z, and the Latin-1 capitals
    U+00C0..U+00DE except the multiplication sign U+00D7. *)
Definition to_lower (c : ascii) : ascii :=
  if is_upper_az c || (in_range 192 222 c && negb (code c =? 215))
  then ascii_of_nat (code c + 32) else c.

(** [toUpperCase] as used by the replacer callbacks, which only ever
    receive a letter matched by [[a-z]]. *)
Definition to_upper_az (c : ascii) : ascii :=
  if is_lower_az c then ascii_of_nat (code c - 32) else c.

(** Canonicalize of a case-insensitive, non-unicode regular expression:
    the upper-case mapping when it is a single code unit that does not
    turn a non-ASCII unit into an ASCII one.  Within Latin-1: a-z and
    U+00E0..U+00FE except the division sign U+00F7 (the capitals of
    U+00B5 and U+00FF lie outside the range and are matched by no other
    unit of the range; U+00DF has a two-unit capital). *)
Definition canonicalize (c : ascii) : ascii :=
  if is_lower_az c || (in_range 224 254 c && negb (code c =? 247))
  then ascii_of_nat (code c - 32) else c.

Definition eqb_ci (a b : ascii) : bool :=
  Ascii.eqb (canonicalize a) (canonicalize b).

(** Membership of a character in the characters of a string: a class
    such as [[.,;:]]. *)
Fixpoint one_of (set : string) (c : ascii) : bool :=
  match set with
  | EmptyString => false
  | String x rest => Ascii.eqb x c || one_of rest c
  end.

Definition none_of (set : string) (c : ascii) : bool := negb (one_of set c).

(** The em dash U+2014 is a code unit above 255: no character of the
    modelled range is one. *)
Definition is_emdash (c : ascii) : bool := N.eqb (N_of_ascii c) 8212%N.

End JsChar.

(* ================================================================== *)
(** * String primitives *)
(* ================================================================== *)

Module JsString.
Import JsChar.

Definition nl : string := String (ascii_of_nat 10) EmptyString.

Fixpoint map (f : ascii -> ascii) (s : string) : string :=
  match s with
  | EmptyString => EmptyString
  | String c rest => String (f c) (map f rest)
  end.

Definition toLowerCase (s : string) : string := map to_lower s.

(** Truthiness of a string: the empty string is the only falsy one. *)
Definition truthy (s : string) : bool :=
  match s with EmptyString => false | _ => true end.

(** Drops the leading units that satisfy [p]. *)
Fixpoint drop_while (p : ascii -> bool) (s : string) : string :=
  match s with
  | String c rest => if p c then drop_while p rest else s
  | EmptyString => EmptyString
  end.

Definition trimStart (s : string) : string := drop_while is_space s.

(** Drops trailing white space: a character is kept when it is not white
    space or when something is kept after it. *)
Fixpoint trimEnd (s : string) : string :=
  match s with
  | EmptyString => EmptyString
  | String c rest =>
      match trimEnd rest with
      | EmptyString => if is_space c then EmptyString else String c EmptyString
      | kept => String c kept
      end
  end.

Definition trim (s : string) : string := trimEnd (trimStart s).

Fixpoint startsWith (s prefix : string) : bool :=
  match prefix, s with
  | EmptyString, _ => true
  | String p prefix', String c s' => Ascii.eqb p c && startsWith s' prefix'
  | String _ _, EmptyString => false
  end.

Fixpoint includes (s needle : string) : bool :=
  startsWith s needle ||
  match s with
  | EmptyString => false
  | String _ s' => includes s' needle
  end.

(** [s.slice(n)] for [0 <= n]: the suffix from index [n]. *)
Fixpoint slice_from (n : nat) (s : string) : string :=
  match n, s with
  | O, _ => s
  | S n', String _ s' => slice_from n' s'
  | S _, EmptyString => EmptyString
  end.

(** [s.substring(0, n)]. *)
Fixpoint take (n : nat) (s : string) : string :=
  match n, s with
  | S n', String c s' => String c (take n' s')
  | _, _ => EmptyString
  end.

Fixpoint last_char (s : string) : option ascii :=
  match s with
  | EmptyString => None
  | String c EmptyString => Some c
  | String _ rest => last_char rest
  end.

(** [parts.join(sep)]. *)
Fixpoint join (sep : string) (parts : list string) : string :=
  match parts with
  | [] => EmptyString
  | [p] => p
  | p :: rest => p ++ sep ++ join sep rest
  end.

(** [[...new Set(xs)]]: the first occurrences, in order. *)
Fixpoint dedupe (xs : list string) : list string :=
  match xs with
  | [] => []
  | x :: rest => x :: List.filter (fun y => negb (String.eqb x y)) (dedupe rest)
  end.

(** Decimal rendering of a number inside a template literal. *)
Definition of_nat (n : nat) : string := NilEmpty.string_of_uint (Nat.to_uint n).

End JsString.

(* ================================================================== *)
(** * Regular expressions *)
(* ================================================================== *)

(** The fragment of ECMAScript regular expressions used by the sources,
    matched by backtracking with the priorities of the language: the first
    alternative first, greedy quantifiers longest first, lazy ones shortest
    first.  Flags are compiled into the syntax: under [i] a literal becomes
    [Char (eqb_ci c)] and a backreference compares canonicalized units; the
    flag [g] selects the global versions of [replace] and [match]. *)

Module Regex.
Import JsChar JsString.

Inductive regex : Type :=
| Eps                                  (* empty pattern *)
| Char (p : ascii -> bool)             (* a literal, a class or an escape *)
| Seq (r1 r2 : regex)
| Alt (r1 r2 : regex)
| Star (greedy : bool) (r : regex)     (* r* and r*? *)
| Group (n : nat) (r : regex)          (* the n-th capturing group *)
| Backref (ci : bool) (n : nat)        (* \n *)
| Bol                                  (* ^ without the m flag *)
| Eol                                  (* $ without the m flag *)
| WordB.                               (* \b *)

(** Captures: group number to captured text; an absent group is
    [undefined]. *)
Definition captures := list (nat * string).

Fixpoint cap_get (n : nat) (c : captures) : option string :=
  match c with
  | [] => None
  | (m, s) :: rest => if m =? n then Some s else cap_get n rest
  end.

Definition cap_set (n : nat) (s : string) (c : captures) : captures :=
  (n, s) :: c.

(** A position in the subject: the unit before it, when there is one, and
    what remains. *)
Definition is_word_opt (o : option ascii) : bool :=
  match o with Some c => is_word c | None => false end.

Definition head (s : string) : option ascii :=
  match s with String c _ => Some c | EmptyString => None end.

(** Consumes [lit] from [s], comparing units with [eq]; returns the unit
    before the new position and the rest. *)
Fixpoint eat (eq : ascii -> ascii -> bool) (lit : string)
         (prev : option ascii) (s : string) : option (option ascii * string) :=
  match lit with
  | EmptyString => Some (prev, s)
  | String l lit' =>
      match s with
      | String c s' => if eq l c then eat eq lit' (Some c) s' else None
      | EmptyString => None
      end
  end.

Definition result := option (string * captures).

(** A continuation: what is still to be matched from a position. *)
Definition cont := option ascii -> string -> captures -> result.

(** The iterations of a star whose body is matched by [body].  An
    iteration that consumes nothing is rejected, as in the language, so
    each iteration shortens the rest: [fuel] starts above the length of the
    rest and is never exhausted before the iterations are. *)
Fixpoint star_loop (body : option ascii -> string -> captures -> cont -> result)
         (greedy : bool) (k : cont) (fuel : nat)
         (prev : option ascii) (s : string) (caps : captures) : result :=
  match fuel with
  | O => k prev s caps
  | S fuel' =>
      let again prev' s' caps' :=
        if String.length s' <? String.length s
        then star_loop body greedy k fuel' prev' s' caps' else None in
      if greedy then
        match body prev s caps again with
        | Some res => Some res
        | None => k prev s caps
        end
      else
        match k prev s caps with
        | Some res => Some res
        | None => body prev s caps again
        end
  end.

(** [rmatch r prev s caps k]: match [r] at the position [(prev, s)] and
    hand the position reached to the continuation [k]; [None] makes the
    matcher backtrack. *)
Fixpoint rmatch (r : regex) (prev : option ascii) (s : string) (caps : captures)
         (k : cont) {struct r} : result :=
  match r with
  | Eps => k prev s caps
  | Char p =>
      match s with
      | String c s' => if p c then k (Some c) s' caps else None
      | EmptyString => None
      end
  | Seq r1 r2 =>
      rmatch r1 prev s caps (fun prev' s' caps' => rmatch r2 prev' s' caps' k)
  | Alt r1 r2 =>
      match rmatch r1 prev s caps k with
      | Some res => Some res
      | None => rmatch r2 prev s caps k
      end
  | Star greedy r' =>
      star_loop (rmatch r') greedy k (S (String.length s)) prev s caps
  | Group n r' =>
      rmatch r' prev s caps
        (fun prev' s' caps' =>
           k prev' s' (cap_set n (take (String.length s - String.length s') s) caps'))
  | Backref ci n =>
      match cap_get n caps with
      | None => k prev s caps
      | Some text =>
          match eat (if ci then eqb_ci else Ascii.eqb) text prev s with
          | Some (prev', s') => k prev' s' caps
          | None => None
          end
      end
  | Bol => match prev with None => k prev s caps | Some _ => None end
  | Eol => match s with EmptyString => k prev s caps | String _ _ => None end
  | WordB =>
      if xorb (is_word_opt prev) (is_word_opt (head s))
      then k prev s caps else None
  end.

Definition accept : cont :=
  fun _ s caps => Some (s, caps).

(** One attempt at a position: the number of units matched and the
    captures. *)
Definition match_at (r : regex) (prev : option ascii) (s : string)
  : option (nat * captures) :=
  match rmatch r prev s [] accept with
  | Some (s', caps) => Some (String.length s - String.length s', caps)
  | None => None
  end.

(** ** Pattern combinators *)

Definition plus (greedy : bool) (r : regex) : regex := Seq r (Star greedy r).

(** r{n,} *)
Fixpoint at_least (n : nat) (r : regex) : regex :=
  match n with
  | O => Star true r
  | S n' => Seq r (at_least n' r)
  end.

Fixpoint seqs (rs : list regex) : regex :=
  match rs with
  | [] => Eps
  | [r] => r
  | r :: rest => Seq r (seqs rest)
  end.

Fixpoint alts (rs : list regex) : regex :=
  match rs with
  | [] => Char (fun _ => false)
  | [r] => r
  | r :: rest => Alt r (alts rest)
  end.

(** A literal string, case-sensitive or under the i flag. *)
Fixpoint lit (ci : bool) (s : string) : regex :=
  match s with
  | EmptyString => Eps
  | String c EmptyString => Char (if ci then eqb_ci c else Ascii.eqb c)
  | String c rest => Seq (Char (if ci then eqb_ci c else Ascii.eqb c)) (lit ci rest)
  end.

(** (w1|w2|...) as a non-capturing alternation of literals. *)
Definition words (ci : bool) (ws : list string) : regex :=
  alts (List.map (lit ci) ws).

Definition ws : regex := Char is_space.
Definition wordc : regex := Char is_word.
Definition cls (set : string) : regex := Char (one_of set).
Definition ncls (set : string) : regex := Char (none_of set).

(** The number of capturing groups of a pattern (groups are numbered
    from 1). *)
Fixpoint group_count (r : regex) : nat :=
  match r with
  | Seq r1 r2 | Alt r1 r2 => Nat.max (group_count r1) (group_count r2)
  | Star _ r' => group_count r'
  | Group n r' => Nat.max n (group_count r')
  | _ => 0
  end.

(** ** Replacement *)

(** What a replacement sees of a match: the matched text, the captures,
    and the subject before and after the match. *)
Record minfo : Type := MInfo {
  m_text : string;
  m_caps : captures;
  m_before : string;
  m_after : string
}.

Definition replacer := minfo -> string.

Definition cap_text (n : nat) (mi : minfo) : string :=
  match cap_get n (m_caps mi) with Some t => t | None => EmptyString end.

Definition digit_val (c : ascii) : nat := code c - 48.

(** GetSubstitution for a replacement string against a pattern with
    [m] groups and no named group: [$$], [$&], [$`], [$'], [$n], [$nn];
    any other [$] is literal. *)
Fixpoint expand (m : nat) (mi : minfo) (t : string) : string :=
  match t with
  | EmptyString => EmptyString
  | String c t1 =>
      if negb (Ascii.eqb c "$") then String c (expand m mi t1)
      else
        match t1 with
        | EmptyString => String c EmptyString
        | String d1 t2 =>
            if Ascii.eqb d1 "$" then String "$" (expand m mi t2)
            else if Ascii.eqb d1 "&" then m_text mi ++ expand m mi t2
            else if Ascii.eqb d1 "`" then m_before mi ++ expand m mi t2
            else if Ascii.eqb d1 "'" then m_after mi ++ expand m mi t2
            else if is_digit d1 then
              let one :=
                if (1 <=? digit_val d1) && (digit_val d1 <=? m)
                then cap_text (digit_val d1) mi ++ expand m mi t2
                else String c (String d1 (expand m mi t2)) in
              match t2 with
              | String d2 t3 =>
                  let idx := 10 * digit_val d1 + digit_val d2 in
                  if is_digit d2 && (1 <=? idx) && (idx <=? m)
                  then cap_text idx mi ++ expand m mi t3
                  else one
              | EmptyString => one
              end
            else String c (expand m mi t1)
        end
  end.

(** [subject.replace(/r/g, rep)].  The scan walks the subject once:
    [skip] counts the units of the current match still to be dropped;
    [before] is the subject up to the position, reversed into order when
    a match needs it. *)
Fixpoint replace_go (r : regex) (rep : replacer) (skip : nat)
         (prev : option ascii) (before : list ascii) (s : string) : string :=
  let str_of l := string_of_list_ascii (List.rev l) in
  match skip with
  | S skip' =>
      match s with
      | EmptyString => EmptyString
      | String c s' => replace_go r rep skip' (Some c) (c :: before) s'
      end
  | O =>
      match match_at r prev s with
      | Some (n, caps) =>
          let mi := MInfo (take n s) caps (str_of before) (slice_from n s) in
          rep mi ++
          match s with
          | EmptyString => EmptyString
          | String c s' =>
              match n with
              | O => String c (replace_go r rep 0 (Some c) (c :: before) s')
              | S n' => replace_go r rep n' (Some c) (c :: before) s'
              end
          end
      | None =>
          match s with
          | EmptyString => EmptyString
          | String c s' => String c (replace_go r rep 0 (Some c) (c :: before) s')
          end
      end
  end.

Definition replace_with (r : regex) (rep : replacer) (s : string) : string :=
  replace_go r rep 0 None [] s.

(** [subject.replace(/r/g, 'template')]. *)
Definition replace (r : regex) (template : string) (s : string) : string :=
  replace_with r (fun mi => expand (group_count r) mi template) s.

(** ** Search *)

(** [/r/.test(subject)]: a match at some position, leftmost first. *)
Fixpoint test_go (r : regex) (prev : option ascii) (s : string) : bool :=
  match match_at r prev s with
  | Some _ => true
  | None =>
      match s with
      | EmptyString => false
      | String c s' => test_go r (Some c) s'
      end
  end.

Definition test (r : regex) (s : string) : bool := test_go r None s.

(** Every match of a global pattern, left to right, with its captures:
    what a loop over [r.exec(subject)] visits.  After an empty match the
    scan moves on by one unit. *)
Fixpoint exec_go (r : regex) (skip : nat) (prev : option ascii) (s : string)
  : list (string * captures) :=
  match skip with
  | S skip' =>
      match s with
      | EmptyString => []
      | String c s' => exec_go r skip' (Some c) s'
      end
  | O =>
      match match_at r prev s with
      | Some (n, caps) =>
          (take n s, caps) ::
          match s with
          | EmptyString => []
          | String c s' => exec_go r (Nat.pred n) (Some c) s'
          end
      | None =>
          match s with
          | EmptyString => []
          | String c s' => exec_go r 0 (Some c) s'
          end
      end
  end.

Definition exec_all (r : regex) (s : string) : list (string * captures) :=
  exec_go r 0 None s.

(** [subject.match(/r/g)]: the matched texts, [[]] standing for [null]. *)
Definition match_all (r : regex) (s : string) : list string :=
  List.map fst (exec_all r s).

(** ** Split *)

(** The texts of groups 1..m, pushed between the pieces (an unset group,
    which the patterns of the sources never produce, reads as empty). *)
Fixpoint group_texts (m : nat) (caps : captures) : list string :=
  match m with
  | O => []
  | S m' =>
      group_texts m' caps ++
      [match cap_get m caps with Some t => t | None => EmptyString end]
  end.

(** [subject.split(/r/)] for a non-empty subject.  [cur] holds, reversed,
    the units since the end of the last separator; a match is tried at
    every position short of the end, and a match that is empty where the
    current piece is empty is passed over. *)
Fixpoint split_go (r : regex) (skip : nat) (prev : option ascii)
         (cur : list ascii) (s : string) : list string :=
  let piece := string_of_list_ascii (List.rev cur) in
  match s with
  | EmptyString => [piece]
  | String c s' =>
      match skip with
      | S skip' => split_go r skip' (Some c) [] s'
      | O =>
          match match_at r prev s with
          | Some (S n', caps) =>
              piece :: group_texts (group_count r) caps ++
              split_go r n' (Some c) [] s'
          | Some (O, caps) =>
              match cur with
              | [] => split_go r 0 (Some c) [c] s'
              | _ :: _ =>
                  piece :: group_texts (group_count r) caps ++
                  split_go r 0 (Some c) [c] s'
              end
          | None => split_go r 0 (Some c) (c :: cur) s'
          end
      end
  end.

Definition split (r : regex) (s : string) : list string :=
  match s with
  | EmptyString =>
      match match_at r None EmptyString with
      | Some _ => []
      | None => [EmptyString]
      end
  | _ => split_go r 0 None [] s
  end.

End Regex.

(* ================================================================== *)
(** * Transcript cleanup *)
(* ================================================================== *)

Module Cleanup.
Import JsChar JsString Regex.

Definition basic_fillers : list string :=
  ["um"; "uh"; "ah"; "er"; "hmm"; "umm"; "uhh"; "ehh"; "mm"; "mhm";
   "laugh"; "laughs"; "cough"; "coughs"; "pause"].

Definition common_fillers : list string :=
  ["like"; "well"; "so"; "anyway"; "basically"; "literally"; "actually"].

Definition phrase_fillers : list string :=
  ["i mean"; "you know"; "kind of"; "sort of"].

(** The patterns of [cleanTranscription], in the order of the source. *)

(* /\s*[\(\[]([^\)\]]*?)[\)\]]\s*/g *)
Definition re_bracketed : regex :=
  seqs [Star true ws; cls "(["; Group 1 (Star false (ncls ")]")); cls ")]";
        Star true ws].
(* /\.{3,}/g *)
Definition re_ellipsis : regex := at_least 3 (cls ".").
(* /—\s*$/g *)
Definition re_dash_end : regex := seqs [Char is_emdash; Star true ws; Eol].
(* /—/g *)
Definition re_dash : regex := Char is_emdash.
(* /\b(\w+)-\s+\1\b/gi *)
Definition re_false_start : regex :=
  seqs [WordB; Group 1 (plus true wordc); cls "-"; plus true ws;
        Backref true 1; WordB].
(* /\b\w+-\s+/g *)
Definition re_fragment : regex :=
  seqs [WordB; plus true wordc; cls "-"; plus true ws].
(* /\b(um|uh|...|pause)[.,;:]*\s*/gi *)
Definition re_basic : regex :=
  seqs [WordB; Group 1 (words true basic_fillers); Star true (cls ".,;:");
        Star true ws].
(* /\b(like|well|so|anyway|basically|literally|actually)[.,;:]*\s+/gi *)
Definition re_common : regex :=
  seqs [WordB; Group 1 (words true common_fillers); Star true (cls ".,;:");
        plus true ws].
(* /\b(i mean|you know|kind of|sort of)[.,;:]*\s*/gi *)
Definition re_phrase : regex :=
  seqs [WordB; Group 1 (words true phrase_fillers); Star true (cls ".,;:");
        Star true ws].
(* /^\s*(um|...|pause|like|...|actually)[.,;:]*\s+/gi *)
Definition re_leading : regex :=
  seqs [Bol; Star true ws;
        Group 1 (words true (basic_fillers ++ common_fillers));
        Star true (cls ".,;:"); plus true ws].
(* /\s+,\s+/g *)
Definition re_spaced_comma : regex := seqs [plus true ws; cls ","; plus true ws].
(* /,\s*,+/g *)
Definition re_commas : regex := seqs [cls ","; Star true ws; plus true (cls ",")].
(* /\.\s*\.+/g *)
Definition re_periods : regex := seqs [cls "."; Star true ws; plus true (cls ".")].
(* /\b(\w+)\s+\1\b/gi *)
Definition re_repeated : regex :=
  seqs [WordB; Group 1 (plus true wordc); plus true ws; Backref true 1; WordB].
(* /\s{2,}/g *)
Definition re_spaces : regex := at_least 2 ws.
(* /^\s+|\s+$/g *)
Definition re_trim : regex :=
  Alt (Seq Bol (plus true ws)) (Seq (plus true ws) Eol).
(* /\s+([.,!?;:])/g *)
Definition re_space_before : regex := Seq (plus true ws) (Group 1 (cls ".,!?;:")).
(* /[.,]{2,}/g *)
Definition re_marks : regex := at_least 2 (cls ".,").
(* /,\s*\./g *)
Definition re_comma_period : regex := seqs [cls ","; Star true ws; cls "."].
(* /;\s*[.,]/g *)
Definition re_semi : regex := seqs [cls ";"; Star true ws; cls ".,"].
(* /:\s*[.,;]/g *)
Definition re_colon : regex := seqs [cls ":"; Star true ws; cls ".,;"].
(* /([.!?])\s{2,}/g *)
Definition re_after_end : regex := Seq (Group 1 (cls ".!?")) (at_least 2 ws).
(* /([,;:])\s{2,}/g *)
Definition re_after_other : regex := Seq (Group 1 (cls ",;:")) (at_least 2 ws).
(* /([.!?])\s*([a-z])/g *)
Definition re_capital : regex :=
  seqs [Group 1 (cls ".!?"); Star true ws; Group 2 (Char is_lower_az)].
(* /\?\s*([a-z])/g *)
Definition re_question : regex :=
  seqs [cls "?"; Star true ws; Group 1 (Char is_lower_az)].
(* /[.!?]$/ *)
Definition re_sentence_end : regex := Seq (cls ".!?") Eol.

(** (match, punct, letter) => punct + ' ' + letter.toUpperCase() *)
Definition capitalize_after (mi : minfo) : string :=
  cap_text 1 mi ++ " " ++ map to_upper_az (cap_text 2 mi).

(** (match, letter) => '? ' + letter.toUpperCase() *)
Definition capitalize_question (mi : minfo) : string :=
  "? " ++ map to_upper_az (cap_text 1 mi).

(** Phases 1 to 10 of the source, applied to the (possibly truncated)
    text. *)
Definition phases (text : string) : string :=
  let cleaned := text in
  (* Phase 1 *)
  let cleaned := replace re_bracketed " " cleaned in
  (* Phase 2 *)
  let cleaned := replace re_ellipsis "." cleaned in
  (* Phase 3 *)
  let cleaned := replace re_dash_end "." cleaned in
  let cleaned := replace re_dash "." cleaned in
  let cleaned := replace re_false_start "$1" cleaned in
  let cleaned := replace re_fragment " " cleaned in
  (* Phase 4 *)
  let cleaned := replace re_basic " " cleaned in
  let cleaned := replace re_common " " cleaned in
  let cleaned := replace re_phrase " " cleaned in
  let cleaned := replace re_leading "" cleaned in
  let cleaned := replace re_spaced_comma ", " cleaned in
  let cleaned := replace re_commas "," cleaned in
  let cleaned := replace re_periods "." cleaned in
  (* Phase 5 *)
  let cleaned := replace re_repeated "$1" cleaned in
  (* Phase 6 *)
  let cleaned := replace re_spaces " " cleaned in
  let cleaned := replace re_trim "" cleaned in
  (* Phase 7 *)
  let cleaned := replace re_space_before "$1" cleaned in
  (* Phase 8 *)
  let cleaned := replace re_marks "." cleaned in
  let cleaned := replace re_comma_period "." cleaned in
  let cleaned := replace re_semi ";" cleaned in
  let cleaned := replace re_colon ":" cleaned in
  let cleaned := replace re_after_end "$1 " cleaned in
  let cleaned := replace re_after_other "$1 " cleaned in
  (* Phase 9 *)
  let cleaned := replace_with re_capital capitalize_after cleaned in
  (* Phase 10 *)
  let cleaned := replace_with re_question capitalize_question cleaned in
  cleaned.

(** The safety truncation at the head of the function. *)
Definition truncate (text : string) : string :=
  if 10000 <? String.length text then take 10000 text ++ "..." else text.

(** Phase 11: if (cleaned && !cleaned.match(/[.!?]$/)) cleaned += '.' *)
Definition ensure_ending (cleaned : string) : string :=
  if truthy cleaned && negb (test re_sentence_end cleaned)
  then cleaned ++ "." else cleaned.

(** [cleanTranscription(text)] on a string argument.  Every operation of
    the body is total on strings, so the [catch] branch, which returns the
    original text, is never entered. *)
Definition cleanTranscription (text : string) : string :=
  if negb (truthy text) then EmptyString
  else
    let cleaned := ensure_ending (phases (truncate text)) in
    if negb (truthy cleaned) || String.eqb (trim cleaned) EmptyString
    then text
    else cleaned.

End Cleanup.

(* ================================================================== *)
(** * Paragraph formatting, word count, activation phrases *)
(* ================================================================== *)

Module Format.
Import JsChar JsString Regex.

(** CONFIG.TEXT_FORMATTING *)
Definition MAX_PARAGRAPH_SENTENCES : nat := 3.
Definition MAX_PARAGRAPH_WORDS : nat := 80.
Definition MIN_PARAGRAPH_WORDS : nat := 40.

Definition TOPIC_TRANSITIONS : list string :=
  ["however"; "but"; "although"; "meanwhile"; "furthermore"; "moreover";
   "additionally"; "on the other hand"; "in contrast"; "nevertheless";
   "therefore"; "consequently"; "as a result"; "in conclusion";
   "first"; "second"; "third"; "finally"; "lastly"; "next"; "then";
   "now"; "so"; "anyway"; "also"; "actually"; "basically"; "essentially"].

Definition TIME_INDICATORS : list string :=
  ["yesterday"; "today"; "tomorrow"; "last week"; "next week";
   "last month"; "next month"; "last year"; "next year";
   "earlier"; "later"; "recently"; "soon"; "eventually"].

(* /\s+/g *)
Definition re_ws : regex := plus true ws.
(* /([.!?])\s*([A-Z])/g *)
Definition re_sentence_gap : regex :=
  seqs [Group 1 (cls ".!?"); Star true ws; Group 2 (Char is_upper_az)].
(* /([.!?]+)/ *)
Definition re_delimiters : regex := Group 1 (plus true (cls ".!?")).
(* /^(well|so|now|anyway|look|listen|you know what)\s+/i *)
Definition re_discourse : regex :=
  seqs [Bol;
        Group 1 (words true ["well"; "so"; "now"; "anyway"; "look"; "listen";
                             "you know what"]);
        plus true ws].
(* /\s+([.!?])/g *)
Definition re_space_before_end : regex := Seq (plus true ws) (Group 1 (cls ".!?")).

Definition nonblank (s : string) : bool := 0 <? String.length (trim s).

(** The accumulator of the paragraph loop. *)
Record acc : Type := Acc {
  paragraphs : list string;
  currentParagraph : list string;
  sentenceCount : nat;
  wordCount : nat
}.

Definition shouldBreak (a : acc) (sentence : string) : bool :=
  let lowerSentence := toLowerCase sentence in
  ((2 <=? sentenceCount a) && (MIN_PARAGRAPH_WORDS <=? wordCount a))
  || (MAX_PARAGRAPH_SENTENCES <=? sentenceCount a)
  || (MAX_PARAGRAPH_WORDS <=? wordCount a)
  || existsb (fun transition =>
                startsWith lowerSentence (toLowerCase transition ++ " ")
                || includes lowerSentence (", " ++ toLowerCase transition ++ " "))
             TOPIC_TRANSITIONS
  || existsb (fun indicator => includes lowerSentence (toLowerCase indicator))
             TIME_INDICATORS
  || test re_discourse sentence.

(** One round of the [for] loop over [sentences]. *)
Definition step (a : acc) (raw : string) : acc :=
  let sentence := trim raw in
  if negb (truthy sentence) then a
  else
    let words := List.length (split re_ws sentence) in
    let a' :=
      if shouldBreak a sentence && (0 <? List.length (currentParagraph a))
      then Acc (paragraphs a ++ [trim (join " " (currentParagraph a))]) [] 0 0
      else a in
    Acc (paragraphs a') (currentParagraph a' ++ [sentence])
        (S (sentenceCount a')) (wordCount a' + words).

Definition formatTextIntoParagraphs (text : string) : string :=
  if negb (truthy text) || (String.length (trim text) =? 0) then text
  else
    let cleanText := replace re_sentence_gap "$1 $2" (replace re_ws " " (trim text)) in
    let sentences := List.filter nonblank (split re_delimiters cleanText) in
    if List.length sentences <=? 2 then cleanText
    else
      let a := List.fold_left step sentences (Acc [] [] 0 0) in
      let paragraphs :=
        if 0 <? List.length (currentParagraph a)
        then (paragraphs a ++ [trim (join " " (currentParagraph a))])%list
        else paragraphs a in
      let result :=
        if 1 <? List.length paragraphs then join (nl ++ nl) paragraphs
        else cleanText in
      replace re_space_before_end "$1" result.

Definition countWords (text : string) : nat :=
  if negb (truthy text) || (String.length (trim text) =? 0) then 0
  else List.length (split re_ws (trim text)).

(** The punctuation class of [extractCleanContent]: period, comma,
    exclamation and question marks, semicolon, colon, single and double
    quote, and the three closing brackets. *)
Definition is_trailing_punct (c : ascii) : bool :=
  one_of ".,!?;:')]}" c || (code c =? 34).

(** The number of leading units of [s] that satisfy [p]: how far a loop
    [while (i < s.length && p(s[i])) i++] advances. *)
Fixpoint run_length (p : ascii -> bool) (s : string) : nat :=
  match s with
  | String c s' => if p c then S (run_length p s') else 0
  | EmptyString => 0
  end.

Definition extractCleanContent (transcription activationPhrase : string) : string :=
  if negb (truthy transcription) || negb (truthy activationPhrase)
  then transcription
  else
    let lowerTranscription := trim (toLowerCase transcription) in
    let lowerPhrase := trim (toLowerCase activationPhrase) in
    if startsWith lowerTranscription lowerPhrase then
      let endIndex := String.length activationPhrase in
      let endIndex :=
        endIndex + run_length is_trailing_punct (slice_from endIndex transcription) in
      let endIndex :=
        endIndex + run_length is_space (slice_from endIndex transcription) in
      trim (slice_from endIndex transcription)
    else transcription.

End Format.

(* ================================================================== *)
(** * Numbers *)
(* ================================================================== *)

(** A JavaScript number is an IEEE 754 binary64 value: a signed zero, an
    infinity, NaN, or a finite [m * 2 ^ e] with its sign.  The arithmetic is
    the one the Standard Library specifies in [SpecFloat], at 53 bits of
    precision, rounding to nearest, ties to even. *)

Module JsNumber.

Definition prec : Z := 53.
Definition emax : Z := 1024.

Definition number : Type := spec_float.

(** The number for an integer literal or an integer count. *)
Definition of_Z (z : Z) : number := binary_normalize prec emax z 0 false.
Definition of_count (n : nat) : number := of_Z (Z.of_nat n).

Definition zero : number := S754_zero false.

(** [x / y], [x * y], [x <= y] *)
Definition div (x y : number) : number := SFdiv prec emax x y.
Definition mul (x y : number) : number := SFmul prec emax x y.
Definition le (x y : number) : bool := SFleb x y.

Definition signed (s : bool) (m : positive) : Z := if s then Z.neg m else Z.pos m.

(** [Math.round(x)]: the integer nearest to [x], the upper one on a tie;
    a result of zero keeps the sign of [x]; infinities and NaN are returned
    as they are. *)
Definition round (x : number) : number :=
  match x with
  | S754_finite s m e =>
      let z :=
        match e with
        | Z.neg k => ((2 * signed s m + 2 ^ Z.pos k) / (2 * 2 ^ Z.pos k))%Z
        | _ => (signed s m * 2 ^ e)%Z
        end in
      if (z =? 0)%Z then S754_zero s else of_Z z
  | _ => x
  end.

End JsNumber.

(* ================================================================== *)
(** * Session metrics *)
(* ================================================================== *)

Module Metrics.
Import JsChar JsString Regex Format JsNumber.

(** [d <= 0] *)
Definition nonpositive (d : number) : bool := le d zero.

Definition singleWordFillers : list string :=
  ["um"; "uh"; "er"; "ah"; "like";
   "basically"; "literally"; "actually"; "obviously"; "clearly";
   "anyway"; "so"; "well"; "right"; "okay"; "alright"]%string.

Definition multiWordFillers : list string :=
  ["i mean"; "you know"; "sort of"; "kind of"]%string.

(** The [breakdown] object: its keys in insertion order. *)
Definition breakdown := list (string * nat).

Fixpoint bump (key : string) (by_ : nat) (b : breakdown) : breakdown :=
  match b with
  | [] => []
  | (k, n) :: rest =>
      if String.eqb k key then (k, (n + by_)%nat) :: rest
      else (k, n) :: bump key by_ rest
  end.

Fixpoint lookup (key : string) (b : breakdown) : option nat :=
  match b with
  | [] => None
  | (k, n) :: rest => if String.eqb k key then Some n else lookup key rest
  end.

Definition mem (x : string) (l : list string) : bool :=
  existsb (String.eqb x) l.

(* /[^\w]/g *)
Definition re_nonword : regex := Char (fun c => negb (is_word c)).
(* /[^\w\s]/g *)
Definition re_punct : regex := Char (fun c => negb (is_word c || is_space c)).
(* /[.!?]+/ *)
Definition re_ends : regex := plus true (cls ".!?").

Record counted : Type := Counted { totalCount : nat; breakdownOf : breakdown }.

Definition count_word (st : counted) (word : string) : counted :=
  let cleanWord := replace re_nonword "" word in
  if mem cleanWord singleWordFillers
  then Counted (S (totalCount st)) (bump cleanWord 1 (breakdownOf st))
  else st.

Definition count_phrase (textLower : string) (st : counted) (phrase : string)
  : counted :=
  let matches := match_all (lit false phrase) textLower in
  match matches with
  | [] => st
  | _ => Counted (totalCount st + List.length matches)
                 (bump phrase (List.length matches) (breakdownOf st))
  end.

Definition getFillerWordsBreakdown (text : string) : counted :=
  if negb (truthy text) then Counted 0 []
  else
    let words := split re_ws (toLowerCase text) in
    let init :=
      Counted 0 (List.map (fun filler => (filler, 0%nat))
                          (singleWordFillers ++ multiWordFillers)) in
    let st := List.fold_left count_word words init in
    List.fold_left (count_phrase (toLowerCase text)) multiWordFillers st.

Definition countFillerWords (text : string) : nat :=
  if negb (truthy text) then 0%nat
  else totalCount (getFillerWordsBreakdown text).

Definition calculateWPM (text : string) (durationSeconds : number) : number :=
  if nonpositive durationSeconds then zero
  else round (mul (div (of_count (countWords text)) durationSeconds) (of_Z 60)).

Definition countUniqueWords (text : string) : nat :=
  if negb (truthy text) then 0%nat
  else
    let words :=
      List.filter (fun word => (0 <? String.length word)%nat)
        (split re_ws (replace re_punct "" (toLowerCase text))) in
    List.length (dedupe words).

Definition calculateAverageWordsPerSentence (text : string) : number :=
  if negb (truthy text) then zero
  else
    let sentences := List.filter nonblank (split re_ends text) in
    match sentences with
    | [] => zero
    | _ =>
        div (round (mul (div (of_count (countWords text))
                             (of_count (List.length sentences)))
                        (of_Z 10)))
            (of_Z 10)
    end.

Definition calculateSpeechRate (text : string) (durationSeconds : number) : number :=
  if nonpositive durationSeconds then zero
  else
    let sounds := String.length (replace re_ws "" text) in
    round (mul (div (of_count sounds) durationSeconds) (of_Z 60)).

(** The value of [cleanedText && cleanedText !== rawText]: the falsy
    operand itself, or the comparison. *)
Inductive cleanup_flag : Type :=
| FlagNull
| FlagEmpty
| FlagBool (b : bool).

Record SessionMetrics : Type := {
  totalWords : nat;
  sessionDuration : number;
  wordsPerMinute : number;
  fillerWords : nat;
  fillerWordsBreakdown : breakdown;
  uniqueWords : nat;
  averageWordsPerSentence : number;
  speechRate : number;
  cleanupUsed : cleanup_flag;
  wordsRemoved : Z;
  timestamp : string;
  sessionId : string
}.

(** [computeSessionMetrics(rawText, cleanedText, duration)]; [cleanedText]
    is a string or [null].  The clock reading [now] and the fresh
    identifier [uuid] come from the environment. *)
Definition computeSessionMetrics (now uuid : string)
           (rawText : string) (cleanedText : option string) (duration : number)
  : option SessionMetrics :=
  if negb (truthy rawText) || nonpositive duration then None
  else
    Some {|
      totalWords := countWords rawText;
      sessionDuration := round duration;
      wordsPerMinute := calculateWPM rawText duration;
      fillerWords := countFillerWords rawText;
      fillerWordsBreakdown := breakdownOf (getFillerWordsBreakdown rawText);
      uniqueWords := countUniqueWords rawText;
      averageWordsPerSentence := calculateAverageWordsPerSentence rawText;
      speechRate := calculateSpeechRate rawText duration;
      cleanupUsed :=
        match cleanedText with
        | None => FlagNull
        | Some c =>
            if truthy c then FlagBool (negb (String.eqb c rawText))
            else FlagEmpty
        end;
      wordsRemoved :=
        match cleanedText with
        | Some c =>
            if truthy c
            then (Z.of_nat (countWords rawText) - Z.of_nat (countWords c))%Z
            else 0%Z
        | None => 0%Z
        end;
      timestamp := now;
      sessionId := uuid
    |}.

End Metrics.

(* ================================================================== *)
(** * Insertion-ordered maps *)
(* ================================================================== *)

(** A JavaScript [Map] (and an object with string keys that are not array
    indices) keeps its entries in insertion order: [set] on a present key
    replaces the value in place, on an absent key appends. *)

Module JsMap.

Definition t (V : Type) : Type := list (string * V).

Section Ops.
Context {V : Type}.

Fixpoint get (k : string) (m : t V) : option V :=
  match m with
  | [] => None
  | (k', v) :: rest => if String.eqb k' k then Some v else get k rest
  end.

Definition has (k : string) (m : t V) : bool :=
  match get k m with Some _ => true | None => false end.

Fixpoint set (k : string) (v : V) (m : t V) : t V :=
  match m with
  | [] => [(k, v)]
  | (k', v') :: rest =>
      if String.eqb k' k then (k, v) :: rest else (k', v') :: set k v rest
  end.

Fixpoint delete (k : string) (m : t V) : t V :=
  match m with
  | [] => []
  | (k', v') :: rest =>
      if String.eqb k' k then rest else (k', v') :: delete k rest
  end.

Definition values (m : t V) : list V := List.map snd m.

Definition size (m : t V) : nat := List.length m.

(** [Array.from(m.values()).filter(P).length] *)
Definition count (P : V -> bool) (m : t V) : nat :=
  List.length (List.filter P (values m)).

(** What one value adds to a count. *)
Definition weight (P : V -> bool) (v : V) : nat := if P v then 1 else 0.
End Ops.



End JsMap.

(* ================================================================== *)
(** * Preset manager *)
(* ================================================================== *)

Module Presets.
Import JsString.

(** [createdAt]: [Date.now()] in the content script, an ISO date string on
    the settings page. *)
Inductive date : Type :=
| Millis (ms : N)
| IsoDate (text : string).

Record Preset : Type := {
  id : string;
  name : string;
  prompt : string;
  isDefault : option bool;         (* absent on presets of the settings page *)
  isSystem : bool;
  enabled : bool;
  createdAt : date;
  lastUsed : option N;
  usageCount : nat
}.

(** The legacy keys of the per-site configuration. *)
Record Legacy : Type := {
  enableUrlEnhancement : option bool;
  twitterCustomPrompt : option string;
  linkedinCustomPrompt : option string;
  gmailCustomPrompt : option string;
  twitterPresetEnabled : option bool;
  linkedinPresetEnabled : option bool;
  gmailPresetEnabled : option bool
}.

Definition no_legacy : Legacy :=
  {| enableUrlEnhancement := None; twitterCustomPrompt := None;
     linkedinCustomPrompt := None; gmailCustomPrompt := None;
     twitterPresetEnabled := None; linkedinPresetEnabled := None;
     gmailPresetEnabled := None |}.

(** The key-value store collaborator: the keys the manager reads and
    writes.  An absent [presets] key reads as the empty object, an absent
    or [null] selection as [null]. *)
Record Store : Type := {
  stored_presets : JsMap.t Preset;
  stored_selection : option string;
  legacy : Legacy
}.

Definition empty_store : Store :=
  {| stored_presets := []; stored_selection := None; legacy := no_legacy |}.

(** The manager and the store it talks to. *)
Record State : Type := {
  presets : JsMap.t Preset;
  selectedPresetId : option string;
  initialized : bool;
  store : Store
}.

(** [new PresetManager()] before [init] has run. *)
Definition fresh (st : Store) : State :=
  {| presets := []; selectedPresetId := None; initialized := false; store := st |}.

(** A call either returns or throws an [Error] with a message. *)
Inductive outcome (A : Type) : Type :=
| Returned (a : A)
| Thrown (message : string).
Arguments Returned {A} a.
Arguments Thrown {A} message.

Definition with_presets (m : JsMap.t Preset) (s : State) : State :=
  {| presets := m; selectedPresetId := selectedPresetId s;
     initialized := initialized s; store := store s |}.

Definition with_selection (sel : option string) (s : State) : State :=
  {| presets := presets s; selectedPresetId := sel;
     initialized := initialized s; store := store s |}.

Definition with_store (st : Store) (s : State) : State :=
  {| presets := presets s; selectedPresetId := selectedPresetId s;
     initialized := initialized s; store := st |}.

(** Truthiness of an id argument: [null] and the empty string are falsy. *)
Definition truthy_id (i : option string) : bool :=
  match i with Some x => truthy x | None => false end.

(** [saveStorage({ selectedPresetId })] *)
Definition save_selection (sel : option string) (s : State) : State :=
  with_store {| stored_presets := stored_presets (store s);
                stored_selection := sel;
                legacy := legacy (store s) |} s.

(** [savePresets()]: the map, entry by entry, as the [presets] object. *)
Definition savePresets (s : State) : State :=
  with_store {| stored_presets :=
                  List.fold_left (fun obj kv => JsMap.set (fst kv) (snd kv) obj)
                                 (presets s) [];
                stored_selection := stored_selection (store s);
                legacy := legacy (store s) |} s.

(** [loadPresets()] *)
Definition loadPresets (s : State) : State :=
  {| presets :=
       List.fold_left (fun m preset => JsMap.set (id preset) preset m)
                      (JsMap.values (stored_presets (store s))) [];
     selectedPresetId := stored_selection (store s);
     initialized := initialized s;
     store := store s |}.

Definition dq : string := String (ascii_of_nat 34) EmptyString.
Definition quoted (s : string) : string := dq ++ s ++ dq.
Definition lines (ls : list string) : string := join nl ls.

Definition email_prompt : string :=
  lines
    ["Reformat the user message.";
     "- Structure it for email communication, with every sentence or so in a new paragraph.";
     "- Include a greeting and a sign-off.";
     "- Check for correct grammar and punctuation.";
     "- Do not change the tone.";
     "- Do not use markdown.";
     "- Use as much of the original text as possible.";
     "- Sign off each email just " ++ quoted "Thanks," ++ " or " ++ quoted "Cheers," ++ ".";
     "- If the name of the recipient isn't known use " ++ quoted "Hey," ++ " for greeting.";
     "";
     "Original transcript: {transcript}"].

Definition professional_prompt : string :=
  lines
    ["Reformat this message using professional language and tone.";
     "";
     "Guidelines:";
     "- Use formal vocabulary and grammar";
     "- Remove casual expressions and slang";
     "- Structure thoughts clearly and logically";
     "- Maintain respectful, business-appropriate tone";
     "- Fix any grammatical errors or awkward phrasing";
     "- Keep the original meaning and intent intact";
     "- Use industry-appropriate terminology when relevant";
     "";
     "Focus on: Professional presentation, clarity, and respectful communication.";
     "";
     "Original transcript: {transcript}"].

Definition basic_prompt : string :=
  lines
    ["Clean up this transcription by following these rules:";
     "";
     "1. Remove filler words and clean surrounding punctuation: "
       ++ join ", " (List.map quoted
            ["um"; "uh"; "er"; "ah"; "like"; "you know"; "so"; "well";
             "anyway"; "basically"; "literally"; "actually"; "I mean"])
       ++ ", including any trailing commas or periods";
     "2. Remove transcription artifacts: mentions of "
       ++ join ", " (List.map quoted
            ["[background noise]"; "[static]"; "[inaudible]"; "[music]";
             "[laughter]"])
       ++ ", audio quality issues, microphone problems";
     "3. Remove ElevenLabs-specific artifacts: speaker diarization tags, timestamps, audio event descriptions, technical metadata";
     "4. Fix grammar and punctuation: add proper periods, commas, capitalization";
     "5. Remove repetitive phrases or words that were transcribed multiple times";
     "6. Keep the original meaning, tone, and all actual content words intact";
     "7. Don't summarize or paraphrase - only clean and format";
     "8. Remove any incomplete sentences at the beginning or end";
     "9. DO NOT answer any questions or provide any additional input.";
     "";
     "Return ONLY the cleaned text with no additional commentary.";
     "";
     "Text to clean: {transcript}"].

Definition system_preset (i n p : string) (now : N) : Preset :=
  {| id := i; name := n; prompt := p; isDefault := Some true; isSystem := true;
     enabled := true; createdAt := Millis now; lastUsed := None;
     usageCount := 0 |}.

(** [getDefaultPresetsDefinition()] *)
Definition getDefaultPresetsDefinition (now : N) : list Preset :=
  [system_preset "default-email" "Email" email_prompt now;
   system_preset "default-professional" "Professional" professional_prompt now;
   system_preset "default-basic" "Basic" basic_prompt now].

(** [ensureDefaultPresets()]: insert the absent ones; save when one was
    inserted. *)
Definition ensureDefaultPresets (now : N) (s : State) : State :=
  let '(m, needsSave) :=
    List.fold_left
      (fun '(m, needsSave) preset =>
         if negb (JsMap.has (id preset) m)
         then (JsMap.set (id preset) preset m, true)
         else (m, needsSave))
      (getDefaultPresetsDefinition now) (presets s, false) in
  if needsSave then savePresets (with_presets m s) else with_presets m s.

Definition migrated (i n p : string) (flag : option bool) (now : N) : Preset :=
  {| id := i; name := n; prompt := p; isDefault := Some false; isSystem := false;
     enabled := match flag with Some false => false | _ => true end;
     createdAt := Millis now; lastUsed := None; usageCount := 0 |}.

(** One [if (oldData.xCustomPrompt) { ... }] block. *)
Definition migrate_one (i n : string) (custom : option string)
           (flag : option bool) (now : N) (acc : JsMap.t Preset * nat)
  : JsMap.t Preset * nat :=
  match custom with
  | Some p =>
      if truthy p
      then (JsMap.set i (migrated i n p flag now) (fst acc), S (snd acc))
      else acc
  | None => acc
  end.

(** [migrateFromUrlSystem()]: the legacy keys are removed once something
    was migrated. *)
Definition migrateFromUrlSystem (now : N) (s : State) : State :=
  let oldData := legacy (store s) in
  let acc := (presets s, 0) in
  let acc := migrate_one "migrated-twitter-x" "Twitter/X (Migrated)"
               (twitterCustomPrompt oldData) (twitterPresetEnabled oldData) now acc in
  let acc := migrate_one "migrated-linkedin" "LinkedIn (Migrated)"
               (linkedinCustomPrompt oldData) (linkedinPresetEnabled oldData) now acc in
  let acc := migrate_one "migrated-gmail" "Gmail (Migrated)"
               (gmailCustomPrompt oldData) (gmailPresetEnabled oldData) now acc in
  if 0 <? snd acc then
    let s' := savePresets (with_presets (fst acc) s) in
    with_store {| stored_presets := stored_presets (store s');
                  stored_selection := stored_selection (store s');
                  legacy := no_legacy |} s'
  else with_presets (fst acc) s.

(** [init()] *)
Definition init (now : N) (s : State) : State :=
  let s := loadPresets s in
  let s := ensureDefaultPresets now s in
  let s := migrateFromUrlSystem now s in
  {| presets := presets s; selectedPresetId := selectedPresetId s;
     initialized := true; store := store s |}.

(** [getSelectedPreset()]: [None] is [null], the Off state. *)
Definition getSelectedPreset (now : N) (s : State) : option Preset * State :=
  let s := if negb (initialized s) then init now s else s in
  match selectedPresetId s with
  | None => (None, s)
  | Some sel =>
      if negb (truthy sel) then (None, s)
      else
        match JsMap.get sel (presets s) with
        | None => (None, s)
        | Some preset => if negb (enabled preset) then (None, s) else (Some preset, s)
        end
  end.

(** [selectPreset(presetId)]: the error is caught inside and reported as
    [false]. *)
Definition selectPreset (presetId : option string) (s : State) : bool * State :=
  if truthy_id presetId
     && negb (match presetId with Some i => JsMap.has i (presets s) | None => false end)
  then (false, s)
  else (true, save_selection presetId (with_selection presetId s)).

Definition non_system (p : Preset) : bool := negb (isSystem p).

(** [Array.from(presets.values()).filter(p => !p.isSystem).length] *)
Definition custom_count (m : JsMap.t Preset) : nat := JsMap.count non_system m.

Definition required_error : string := "Name and prompt are required".
Definition limit_error : string := "Maximum custom presets reached (2)".
Definition not_found_error : string := "Preset not found".
Definition system_error : string := "Cannot delete system preset".

Definition of_N (n : N) : string := NilEmpty.string_of_uint (N.to_uint n).

(** [createCustomPreset(name, prompt)]; [now] is the reading of
    [Date.now()].  Errors are logged and thrown again. *)
Definition createCustomPreset (now : N) (name_ prompt_ : string) (s : State)
  : outcome Preset * State :=
  if negb (truthy name_) || negb (truthy prompt_) then (Thrown required_error, s)
  else if 2 <=? custom_count (presets s) then (Thrown limit_error, s)
  else
    let preset :=
      {| id := "custom-" ++ of_N now; name := trim name_; prompt := trim prompt_;
         isDefault := Some false; isSystem := false; enabled := true;
         createdAt := Millis now; lastUsed := None; usageCount := 0 |} in
    (Returned preset,
     savePresets (with_presets (JsMap.set (id preset) preset (presets s)) s)).

(** [updateUsageStats(presetId)]: the preset object is updated in place. *)
Definition updateUsageStats (now : N) (presetId : string) (s : State) : State :=
  match JsMap.get presetId (presets s) with
  | None => s
  | Some preset =>
      let preset' :=
        {| id := id preset; name := name preset; prompt := prompt preset;
           isDefault := isDefault preset; isSystem := isSystem preset;
           enabled := enabled preset; createdAt := createdAt preset;
           lastUsed := Some now; usageCount := usageCount preset + 1 |} in
      savePresets (with_presets (JsMap.set presetId preset' (presets s)) s)
  end.

(** [deletePreset(presetId)] *)
Definition deletePreset (presetId : string) (s : State) : outcome bool * State :=
  match JsMap.get presetId (presets s) with
  | None => (Thrown not_found_error, s)
  | Some preset =>
      if isSystem preset then (Thrown system_error, s)
      else
        let s := with_presets (JsMap.delete presetId (presets s)) s in
        let s :=
          match selectedPresetId s with
          | Some sel =>
              if String.eqb sel presetId
              then save_selection None (with_selection None s) else s
          | None => s
          end in
        (Returned true, savePresets s)
  end.

End Presets.

(* ================================================================== *)
(** * Template engine *)
(* ================================================================== *)

Module Template.
Import JsChar JsString Regex.

(** The values a caller binds to a variable. *)
Inductive value : Type :=
| Undefined
| Null
| Str (s : string).

(** The [variables] argument is a plain object: its own properties, listed
    in the order [Object.entries] gives them (insertion order for the keys
    of [JsMap.plain_key]; canonical numerals come first, in ascending
    order), on top of [Object.prototype]. *)
Definition variables := JsMap.t value.

(** The property names every plain object inherits. *)
Definition object_prototype_names : list string :=
  ["constructor"; "__defineGetter__"; "__defineSetter__"; "hasOwnProperty";
   "__lookupGetter__"; "__lookupSetter__"; "isPrototypeOf";
   "propertyIsEnumerable"; "toString"; "valueOf"; "__proto__";
   "toLocaleString"].

(** What [providedVars[varName]] evaluates to. *)
Inductive slot : Type :=
| Own (v : value)
| Inherited              (* a member of Object.prototype: some object *)
| Missing.               (* undefined *)

Definition lookup (varName : string) (vars : variables) : slot :=
  match JsMap.get varName vars with
  | Some v => Own v
  | None =>
      if existsb (String.eqb varName) object_prototype_names
      then Inherited else Missing
  end.

(** [value === undefined || value === null || value === ''] *)
Definition is_missing (sl : slot) : bool :=
  match sl with
  | Missing | Own Undefined | Own Null => true
  | Own (Str s) => negb (truthy s)
  | Inherited => false
  end.

(* this.variablePattern = /\{([^}]+)\}/g *)
Definition variablePattern : regex :=
  seqs [cls "{"; Group 1 (plus true (ncls "}")); cls "}"].

Definition extractTemplateVariables (template : string) : list string :=
  dedupe (List.map (fun m => match cap_get 1 (snd m) with
                             | Some v => v
                             | None => EmptyString
                             end)
                   (exec_all variablePattern template)).

Definition findMissingVariables (templateVars : list string) (providedVars : variables)
  : list string :=
  List.filter (fun varName => is_missing (lookup varName providedVars)) templateVars.

Record RenderResult : Type := {
  success : bool;
  result : string;
  missingVars : list string;
  error : option string
}.

(** The replacement argument of [replace], converted to a string. *)
Definition to_replacement (v : value) : string :=
  match v with
  | Str s => s
  | Null => "null"
  | Undefined => "undefined"
  end.

(** One round of the substitution loop: the placeholder, with its
    metacharacters escaped, is a literal global pattern; the value is a
    replacement string. *)
Definition substitute (result : string) (entry : string * value) : string :=
  let placeholder := "{" ++ fst entry ++ "}" in
  replace (lit false placeholder) (to_replacement (snd entry)) result.

Definition render (template : string) (vars : variables) : RenderResult :=
  if negb (truthy template)
  then {| success := false; result := ""; missingVars := [];
          error := Some "No template provided" |}
  else
    let templateVars := extractTemplateVariables template in
    let missing := findMissingVariables templateVars vars in
    if 0 <? List.length missing
    then {| success := false; result := ""; missingVars := missing;
            error := Some ("Missing required variables: " ++ join ", " missing) |}
    else {| success := true; result := List.fold_left substitute vars template;
            missingVars := []; error := None |}.

End Template.

(* ================================================================== *)
(** * Enhancement service *)
(* ================================================================== *)

Module Enhance.
Import JsString Presets.

(** What the HTTP collaborator does with the request.  [Unreadable]: the
    body cannot be read ([response.text()] or [response.json()] throws, or
    the parsed answer lacks the expected members); otherwise the body is
    text and, on success, carries the contents of [data.choices]. *)
Inductive body : Type :=
| Unreadable (message : string)
| Choices (contents : list string).

Inductive fetched : Type :=
| Aborted                            (* the timeout fired: AbortError *)
| Rejected (message : string)        (* fetch itself failed *)
| Responded (status : nat) (b : body).

Definition ok (status : nat) : bool := (200 <=? status) && (status <=? 299).

(** [callOpenAI(prompt, apiKey)]: the text, or the message of the error
    thrown. *)
Definition callOpenAI (reply : string -> string -> fetched) (prompt_ apiKey : string)
  : outcome string :=
  match reply prompt_ apiKey with
  | Aborted => Thrown "Request timeout"
  | Rejected message => Thrown message
  | Responded status b =>
      if negb (ok status) then
        match b with
        | Unreadable message => Thrown message
        | Choices _ =>
            if status =? 401 then Thrown "Invalid API key"
            else if status =? 429 then Thrown "Rate limit exceeded"
            else if status =? 402 then Thrown "Insufficient credits"
            else if (status =? 500) || (status =? 502) || (status =? 503)
            then Thrown "OpenAI service unavailable"
            else Thrown ("API error: " ++ of_nat status)
        end
      else
        match b with
        | Unreadable message => Thrown message
        | Choices [] => Thrown "No response from OpenAI"
        | Choices (content :: _) =>
            let enhancedText := trim content in
            if negb (truthy enhancedText) then Thrown "Empty response from OpenAI"
            else Returned enhancedText
        end
  end.

Record EnhancementResult : Type := {
  success : bool;
  isOriginal : bool;
  result : string;
  originalText : option string;
  fallbackReason : option string;
  preset : option string;
  presetId : option string;
  charCount : nat
}.

(** [createFallbackResult(originalText, reason)] *)
Definition createFallbackResult (original reason : string) : EnhancementResult :=
  {| success := false; isOriginal := true; result := original;
     originalText := Some original; fallbackReason := Some reason;
     preset := None; presetId := None; charCount := String.length original |}.

(** The service: its busy flag and the preset manager it shares. *)
Record Service : Type := {
  isProcessing : bool;
  presetManager : Presets.State
}.

(** The collaborators of one call: the clock, the credential store (the
    empty string when no key is configured or the read fails) and the HTTP
    endpoint. *)
Record Env : Type := {
  now : N;
  apiKey : string;
  reply : string -> string -> fetched
}.

Definition idle (m : Presets.State) : Service :=
  {| isProcessing := false; presetManager := m |}.

(** [enhanceTranscript(rawTranscript, presetId)]; the [finally] clause
    clears the busy flag on every path that set it. *)
Definition enhanceTranscript (env : Env) (rawTranscript : string)
           (presetId_ : option string) (svc : Service)
  : EnhancementResult * Service :=
  if isProcessing svc
  then (createFallbackResult rawTranscript "already processing", svc)
  else
    (* Step 1 *)
    let '(chosen, m) :=
      match presetId_ with
      | Some i =>
          if truthy i then (JsMap.get i (presets (presetManager svc)), presetManager svc)
          else getSelectedPreset (now env) (presetManager svc)
      | None => getSelectedPreset (now env) (presetManager svc)
      end in
    match chosen with
    | None => (createFallbackResult rawTranscript "no preset selected", idle m)
    | Some p =>
        (* Step 2 *)
        if negb (truthy rawTranscript) || (String.length (trim rawTranscript) =? 0)
        then (createFallbackResult rawTranscript "empty transcript", idle m)
        else
          let rawTranscript :=
            if 4000 <? String.length rawTranscript
            then take 4000 rawTranscript ++ "..." else rawTranscript in
          (* Step 3 *)
          if negb (truthy (apiKey env))
          then (createFallbackResult rawTranscript "no API key", idle m)
          else
            (* Step 4 *)
            let variables :=
              [("transcript", Template.Str rawTranscript);
               ("raw_transcript", Template.Str rawTranscript)] in
            let templateResult := Template.render (prompt p) variables in
            if negb (Template.success templateResult)
            then (createFallbackResult rawTranscript "template error", idle m)
            else
              (* Step 5 *)
              match callOpenAI (reply env) (Template.result templateResult) (apiKey env) with
              | Thrown message => (createFallbackResult rawTranscript message, idle m)
              | Returned enhancedText =>
                  (* Step 6 *)
                  let m := updateUsageStats (now env) (id p) m in
                  ({| success := true; isOriginal := false; result := enhancedText;
                      originalText := Some rawTranscript; fallbackReason := None;
                      preset := Some (name p); presetId := Some (id p);
                      charCount := String.length enhancedText |},
                   idle m)
              end
    end.

End Enhance.

(* ================================================================== *)
(** * Settings page: saving a preset *)
(* ================================================================== *)

Module Settings.
Import JsString Presets.

(** [presets[presetId]] on the stored object finds, besides the presets,
    the members every plain object inherits. *)
Definition inherited (presetId : string) : bool :=
  existsb (String.eqb presetId) Template.object_prototype_names.

(** The [name] of an inherited member: a method carries its own name,
    [constructor] is the function [Object], and [__proto__] is the
    prototype object, which has no name. *)
Definition member_name (presetId : string) : option string :=
  if String.eqb presetId "__proto__" then None
  else if String.eqb presetId "constructor" then Some "Object"
  else Some presetId.

(** What the user sees of a save: an alert with a message, or success.
    [Strayed key name prompt enabled] is a success as well, of an edit
    whose id is no key of the stored object but the name of an inherited
    member: the object written back then holds, besides the stored presets,
    the entry [{ name, prompt, enabled }] under [key].  That entry has no
    id and is no preset; the [Store] returned with [Strayed] holds the
    presets, which are as they were. *)
Inductive saved : Type :=
| Alerted (message : string)
| Saved
| Strayed (key name_ prompt_ : string) (enabled_ : bool).

(** The editor form and the environment of one call. *)
Record Form : Type := {
  nameField : string;
  promptField : string;
  enabledToggle : bool;
  currentEditingPreset : option string;
  clock : string;              (* new Date().toISOString() *)
  stamp : N;                   (* Date.now() *)
  suffix : string              (* Math.random().toString(36).substring(2, 11) *)
}.

Definition name_taken (presetName : string) (skip : option string)
           (m : JsMap.t Preset) : bool :=
  existsb (fun p =>
             match skip with
             | Some self => negb (String.eqb (id p) self)
             | None => true
             end
             && String.eqb (toLowerCase (name p)) (toLowerCase presetName))
          (JsMap.values m).

Definition store_presets (m : JsMap.t Preset) (st : Store) : Store :=
  {| stored_presets := m; stored_selection := stored_selection st;
     legacy := legacy st |}.

(** [savePresetChanges()] *)
Definition savePresetChanges (f : Form) (st : Store) : saved * Store :=
  let presetName := trim (nameField f) in
  let prompt_ := trim (promptField f) in
  let isEnabled := enabledToggle f in
  if negb (truthy presetName) then (Alerted "Preset name is required.", st)
  else if negb (truthy prompt_) then (Alerted "Enhancement prompt is required.", st)
  else if 2000 <? String.length prompt_
  then (Alerted "Prompt must be 2000 characters or less.", st)
  else
    let presets := stored_presets st in
    match currentEditingPreset f with
    | None =>
        if 2 <=? custom_count presets
        then (Alerted "Maximum of 2 custom presets allowed. Delete an existing custom preset first.", st)
        else if name_taken presetName None presets
        then (Alerted "A preset with this name already exists. Please choose a different name.", st)
        else
          let presetId := "custom-" ++ of_N (stamp f) ++ "-" ++ suffix f in
          let preset :=
            {| id := presetId; name := presetName; prompt := prompt_;
               isDefault := None; isSystem := false; enabled := isEnabled;
               createdAt := IsoDate (clock f); lastUsed := None; usageCount := 0 |} in
          (Saved, store_presets (JsMap.set presetId preset presets) st)
    | Some editing =>
        match JsMap.get editing presets with
        | None =>
            if negb (inherited editing) then (Alerted "Preset not found.", st)
            else
              (* the inherited member is taken for the preset: it has no
                 [isSystem], and nothing of it is copied by the spread *)
              if negb (match member_name editing with
                       | Some n => String.eqb presetName n
                       | None => false
                       end)
                 && name_taken presetName (Some editing) presets
              then (Alerted "A preset with this name already exists. Please choose a different name.", st)
              else if String.eqb editing "__proto__"
              then (Saved, st)   (* the assignment sets the prototype: nothing is stored *)
              else (Strayed editing presetName prompt_ isEnabled, st)
        | Some existingPreset =>
            let updated name' :=
              {| id := id existingPreset; name := name'; prompt := prompt_;
                 isDefault := isDefault existingPreset;
                 isSystem := isSystem existingPreset; enabled := isEnabled;
                 createdAt := createdAt existingPreset;
                 lastUsed := lastUsed existingPreset;
                 usageCount := usageCount existingPreset |} in
            if isSystem existingPreset
            then (Saved, store_presets
                           (JsMap.set editing (updated (name existingPreset)) presets) st)
            else if negb (String.eqb presetName (name existingPreset))
                    && name_taken presetName (Some editing) presets
            then (Alerted "A preset with this name already exists. Please choose a different name.", st)
            else (Saved, store_presets (JsMap.set editing (updated presetName) presets) st)
        end
    end.

(** The save writes an entry that is no preset. *)
Definition strays (f : Form) (st : Store) : bool :=
  match fst (savePresetChanges f st) with
  | Strayed _ _ _ _ => true
  | _ => false
  end.

End Settings.



(* ================================================================== *)
(** * Notions used by the statements *)
(* ================================================================== *)

(** What the statements below talk about besides the code: how a text
    ends, the tokens of a text, the description of the extractor, the states
    the manager can reach. *)

Module Notions.
Import JsChar JsString.

(** ** Matching *)

(** A matcher for the body of a star uses its continuation only through
    the answers the continuation gives. *)
Definition respects
           (body : option ascii -> string -> Regex.captures -> Regex.cont -> Regex.result)
  : Prop :=
  forall prev s caps (k1 k2 : Regex.cont),
    (forall prev' s' caps', k1 prev' s' caps' = k2 prev' s' caps') ->
    body prev s caps k1 = body prev s caps k2.

(** ** Texts *)

(** The last unit is one of the three sentence-ending marks. *)
Definition ends_with_mark (s : string) : bool :=
  match last_char s with
  | Some c => one_of ".!?" c
  | None => false
  end.

Definition is_letter (c : ascii) : bool := is_upper_az c || is_lower_az c.

Fixpoint alphabetic (s : string) : bool :=
  match s with
  | EmptyString => true
  | String c rest => is_letter c && alphabetic rest
  end.

(** The number of white-space-separated tokens of a text: its maximal
    runs of units that are not white space.  [inside] tells that a token
    is in progress. *)
Fixpoint tokens (inside : bool) (s : string) : nat :=
  match s with
  | EmptyString => 0
  | String c rest =>
      if is_space c then tokens false rest
      else (if inside then 0 else 1) + tokens true rest
  end.

Definition token_count (s : string) : nat := tokens false s.

(** The number of maximal runs of white space; [inside] tells that a run
    is in progress. *)
Fixpoint ws_runs (inside : bool) (s : string) : nat :=
  match s with
  | EmptyString => 0
  | String c rest =>
      if is_space c then (if inside then 0 else 1) + ws_runs true rest
      else ws_runs false rest
  end.


Fixpoint replicate (n : nat) (c : ascii) : string :=
  match n with
  | O => EmptyString
  | S n' => String c (replicate n' c)
  end.

(** ** Numbers *)

(** The rational a finite number stands for: its signed mantissa times
    the power of two. *)
Definition value (x : JsNumber.number) : Q :=
  match x with
  | S754_finite s m (Z.neg k) => Qmake (JsNumber.signed s m) (2 ^ k)
  | S754_finite s m e => inject_Z (JsNumber.signed s m * 2 ^ e)
  | _ => 0%Q
  end.

(** The integer nearest to a rational, the upper one on a tie. *)
Definition nearest (q : Q) (z : Z) : Prop :=
  (inject_Z z - (1 # 2) <= q)%Q /\ (q < inject_Z z + (1 # 2))%Q.

(** The number [r] is the integer [z]: a zero of either sign for 0, and
    otherwise the binary64 value of [z]. *)
Definition integer (z : Z) (r : JsNumber.number) : Prop :=
  match z with
  | Z0 => exists s, r = S754_zero s
  | _ => r = binary_normalize 53 1024 z 0 false
  end.

(** [r] is [x] rounded to an integer: the nearest integer of a finite
    [x]; a zero, an infinity and NaN are their own roundings. *)
Definition rounded (x r : JsNumber.number) : Prop :=
  match x with
  | S754_finite _ _ _ => exists z, nearest (value x) z /\ integer z r
  | _ => r = x
  end.

(** A number that is zero or below: a zero of either sign, a negative
    finite number or the negative infinity (NaN is not). *)
Definition not_positive (d : JsNumber.number) : Prop :=
  match d with
  | S754_zero _ => True
  | S754_finite s _ _ | S754_infinity s => s = true
  | S754_nan => False
  end.

(** ** The extractor as the specification describes it *)

(** The phrase is looked for at the head of the trimmed transcript,
    case-insensitively; when found it is removed, then punctuation, then
    white space, and what remains is trimmed; when not found the transcript
    comes back as it was. *)
Definition extract_described (transcript phrase : string) : string :=
  let t := trim transcript in
  let p := trim phrase in
  if startsWith (toLowerCase t) (toLowerCase p)
  then trim (drop_while is_space
               (drop_while Format.is_trailing_punct (slice_from (String.length p) t)))
  else transcript.

(** ** The life of the preset manager *)

Import Presets.

(** The state after first run on an empty store. *)
Definition first_run : State := init 0 (fresh empty_store).

Definition migrated_ids : list string :=
  ["migrated-twitter-x"; "migrated-linkedin"; "migrated-gmail"].

Definition is_migrated (p : Preset) : bool :=
  existsb (String.eqb (id p)) migrated_ids.

(** A non-system preset that is not one of the three migrated ones. *)
Definition created (p : Preset) : bool := non_system p && negb (is_migrated p).

(** The operations, as steps. *)
Inductive step : State -> State -> Prop :=
| step_init (now : N) (s : State) :
    step s (init now s)
| step_migrate (now : N) (s : State) :
    step s (migrateFromUrlSystem now s)
| step_resolve (now : N) (s : State) :
    step s (snd (getSelectedPreset now s))
| step_select (i : option string) (s : State) :
    step s (snd (selectPreset i s))
| step_create (now : N) (name_ prompt_ : string) (s : State) :
    step s (snd (createCustomPreset now name_ prompt_ s))
| step_usage (now : N) (i : string) (s : State) :
    step s (updateUsageStats now i s)
| step_delete (i : string) (s : State) :
    step s (snd (deletePreset i s))
| step_settings (f : Settings.Form) (s : State) :
    Settings.strays f (store s) = false ->
    step s (with_store (snd (Settings.savePresetChanges f (store s))) s).

(** The states the manager can be in: it is constructed over a store in
    which no preset has been saved yet (the selection and the legacy keys
    are arbitrary), and then any operation may follow any other.  A save of
    the settings page that writes an entry which is no preset leads out of
    the stores described here, and is no step. *)
Inductive reachable : State -> Prop :=
| reach_fresh (st : Store) :
    stored_presets st = [] -> reachable (fresh st)
| reach_step (s s' : State) :
    reachable s -> step s s' -> reachable s'.

(** The limit, in memory and in the store. *)
Definition bounded (s : State) : Prop :=
  JsMap.count created (presets s) <= 2
  /\ JsMap.count created (stored_presets (store s)) <= 2.

(** A store left behind by the per-site configuration: three custom
    prompts, nothing saved by the manager yet. *)
Definition upgraded_store : Store :=
  {| stored_presets := []; stored_selection := None;
     legacy := {| enableUrlEnhancement := Some true;
                  twitterCustomPrompt := Some "Make it a tweet: {transcript}";
                  linkedinCustomPrompt := Some "Make it a post: {transcript}";
                  gmailCustomPrompt := Some "Make it a mail: {transcript}";
                  twitterPresetEnabled := None;
                  linkedinPresetEnabled := Some false;
                  gmailPresetEnabled := Some true |} |}.

(** First run, then two presets created. *)
Definition two_created : State :=
  snd (createCustomPreset 2 "Second" "B: {transcript}"
         (snd (createCustomPreset 1 "First" "A: {transcript}" first_run))).

(** ** The enhancement service in use *)


(** The service after first run with the Email preset selected. *)
Definition with_email_selected : Enhance.Service :=
  Enhance.idle (snd (selectPreset (Some "default-email") first_run)).

(** No credential configured. *)
Definition no_key : Enhance.Env :=
  {| Enhance.now := 0; Enhance.apiKey := "";
     Enhance.reply := fun _ _ => Enhance.Aborted |}.

(** A credential configured, and the endpoint answering 429. *)
Definition rate_limited : Enhance.Env :=
  {| Enhance.now := 0; Enhance.apiKey := "sk-test";
     Enhance.reply := fun _ _ => Enhance.Responded 429 (Enhance.Choices []) |}.

End Notions.

(* ================================================================== *)
(** * Template validation *)
(* ================================================================== *)

Module TemplateSyntax.
Import JsChar JsString Regex.

(** The answer of [validateTemplate]: [{ valid: true }] or
    [{ valid: false, error }]. *)
Inductive validation : Type :=
| Valid
| Invalid (error : string).

(* /\{/g *)
Definition re_open : regex := cls "{".
(* /\}/g *)
Definition re_close : regex := cls "}".

(** [validateTemplate(template)] on a string argument. *)
Definition validateTemplate (template : string) : validation :=
  if negb (truthy template) then Invalid "Template must be a non-empty string"
  else
    let openBraces := List.length (match_all re_open template) in
    let closeBraces := List.length (match_all re_close template) in
    if negb (openBraces =? closeBraces) then Invalid "Unmatched braces in template"
    else if includes template "{}" then Invalid "Empty variable placeholder found"
    else Valid.

(** A template as it is written: plain text and placeholders. *)
Inductive piece : Type :=
| Plain (text : string)
| Hole (name_ : string).

Definition piece_text (p : piece) : string :=
  match p with
  | Plain text => text
  | Hole name_ => "{" ++ name_ ++ "}"
  end.

Fixpoint assemble (ps : list piece) : string :=
  match ps with
  | [] => EmptyString
  | p :: rest => piece_text p ++ assemble rest
  end.

Fixpoint holes (ps : list piece) : list string :=
  match ps with
  | [] => []
  | Plain _ :: rest => holes rest
  | Hole name_ :: rest => name_ :: holes rest
  end.

Definition well_written (ps : list piece) : Prop :=
  forall p, In p ps ->
            match p with
            | Plain text => one_of text "{" = false
            | Hole name_ => name_ <> "" /\ one_of name_ "}" = false
            end.

End TemplateSyntax.

(* ================================================================== *)
(** * Shortening texts *)
(* ================================================================== *)

Module Trimming.
Import JsChar JsString Regex.

(** [truncateText(text, maxLength)] *)
Definition truncateText (text : string) (maxLength : nat) : string :=
  if maxLength <? String.length text then take maxLength text ++ "..." else text.

(* /[.!?]+/ *)
Definition re_marks : regex := plus true (cls ".!?").

(** [s.split(sep)] for a separator of one unit; [cur] holds, reversed, the
    units of the piece in progress. *)
Fixpoint split_on (sep : ascii) (cur : list ascii) (s : string) : list string :=
  match s with
  | EmptyString => [string_of_list_ascii (List.rev cur)]
  | String c s' =>
      if Ascii.eqb c sep
      then string_of_list_ascii (List.rev cur) :: split_on sep [] s'
      else split_on sep (c :: cur) s'
  end.

(** [EnhancementService.trimToLimit(text, limit)] for a whole number
    [limit]; [pop] is [List.removelast].  The test
    [result.length >= limit * 0.8] is the comparison of the exact values. *)
Definition trimToLimit (text : string) (limit : nat) : string :=
  if String.length text <=? limit then text
  else
    let head := take (limit - 3) text in
    let sentences := split re_marks head in
    let kept :=
      if 1 <? List.length sentences then
        let result := trim (join "." (List.removelast sentences)) ++ "." in
        if 4 * limit <=? 5 * String.length result then Some result else None
      else None in
    match kept with
    | Some result => result
    | None =>
        let words := split_on " " [] head in
        trim (join " " (List.removelast words)) ++ "..."
    end.

End Trimming.
(* ================================================================== *)
(** * Settings page: the other writers of the preset store *)
(* ================================================================== *)

Module SettingsActions.
Import JsString Presets Settings.

Definition with_enabled (flag : bool) (p : Preset) : Preset :=
  {| id := id p; name := name p; prompt := prompt p; isDefault := isDefault p;
     isSystem := isSystem p; enabled := flag; createdAt := createdAt p;
     lastUsed := lastUsed p; usageCount := usageCount p |}.

(** [togglePresetEnabled(presetId)]: on an inherited member the flag is
    set on that member and the stored presets are written back as they
    were. *)
Definition togglePresetEnabled (presetId : string) (st : Store) : Store :=
  match JsMap.get presetId (stored_presets st) with
  | Some preset =>
      store_presets
        (JsMap.set presetId (with_enabled (negb (enabled preset)) preset)
                   (stored_presets st)) st
  | None => st
  end.

(** What the user sees of a deletion. *)
Inductive removal : Type :=
| Refused (message : string)     (* an alert *)
| Declined                       (* the confirmation was not given *)
| Removed.

(** [deletePreset(presetId)]; [confirmDelete] is the answer to the
    confirmation dialog. *)
Definition deletePreset (confirmDelete : bool) (presetId : string) (st : Store)
  : removal * Store :=
  let presets := stored_presets st in
  let proceed :=
    if negb confirmDelete then (Declined, st)
    else
      let st := store_presets (JsMap.delete presetId presets) st in
      (Removed,
       match stored_selection st with
       | Some sel =>
           if String.eqb sel presetId
           then {| stored_presets := stored_presets st; stored_selection := None;
                   legacy := legacy st |}
           else st
       | None => st
       end) in
  match JsMap.get presetId presets with
  | Some preset =>
      if isSystem preset
      then (Refused "System presets cannot be deleted. You can disable them instead.", st)
      else proceed
  | None =>
      if inherited presetId then proceed else (Refused "Preset not found.", st)
  end.

Definition settings_email_prompt : string :=
  lines
    ["Reformat the user message.";
     "- Structure it for email communication.";
     "- Include a greeting and a sign-off.";
     "- Check for correct grammar and punctuation.";
     "- Do not change the tone.";
     "- Do not use markdown.";
     "- Use as much of the original text as possible.";
     "- Sign off each email just " ++ quoted "Thanks," ++ " or " ++ quoted "Cheers," ++ ".";
     "- If the name of the recipient isn't known use " ++ quoted "Hey," ++ " for greeting.";
     "";
     "Original transcript: {transcript}"].

Definition settings_professional_prompt : string :=
  lines
    ["Transform this transcript into polished, professional content suitable for business communication.";
     "";
     "Guidelines:";
     "- Use formal, professional language";
     "- Remove all filler words and casual expressions";
     "- Structure with clear paragraphs and logical flow";
     "- Add appropriate transitions between ideas";
     "- Ensure proper grammar and punctuation";
     "- Maintain authoritative yet approachable tone";
     "- Include actionable insights or conclusions";
     "";
     "Focus on: Professional credibility, clarity, and business-appropriate communication.";
     "";
     "Original transcript: {transcript}"].

Definition settings_basic_prompt : string :=
  lines
    ["Clean up this transcription by following these rules:";
     "";
     "1. Remove filler words: "
       ++ join ", " (List.map quoted
            ["um"; "uh"; "er"; "ah"; "like"; "you know"; "so"; "well";
             "anyway"; "basically"; "literally"; "actually"; "I mean"]);
     "2. Remove transcription artifacts: mentions of "
       ++ join ", " (List.map quoted
            ["[background noise]"; "[static]"; "[inaudible]"; "[music]";
             "[laughter]"])
       ++ ", audio quality issues, microphone problems";
     "3. Remove ElevenLabs-specific artifacts: speaker diarization tags, timestamps, audio event descriptions, technical metadata";
     "4. Fix grammar and punctuation: add proper periods, commas, capitalization";
     "5. Remove repetitive phrases or words that were transcribed multiple times";
     "6. Keep the original meaning, tone, and all actual content words intact";
     "7. Don't summarize or paraphrase - only clean and format";
     "8. Remove any incomplete sentences at the beginning or end";
     "9. DO NOT answer any questions or provide any additional input.";
     "";
     "Return ONLY the cleaned text with no additional commentary.";
     "";
     "Text to clean: {transcript}"].

Definition default_preset (i n p clock : string) : Preset :=
  {| id := i; name := n; prompt := p; isDefault := None; isSystem := true;
     enabled := true; createdAt := IsoDate clock; lastUsed := None;
     usageCount := 0 |}.

(** [createDefaultPresets()]: the stored presets become the three
    defaults; the clock is read once for each. *)
Definition createDefaultPresets (clock1 clock2 clock3 : string) (st : Store) : Store :=
  store_presets
    [("default-email",
      default_preset "default-email" "Email" settings_email_prompt clock1);
     ("default-professional",
      default_preset "default-professional" "Professional"
                     settings_professional_prompt clock2);
     ("default-basic",
      default_preset "default-basic" "Basic" settings_basic_prompt clock3)]
    st.

(** [loadPresetData(storage)], for what it writes: the defaults when no
    preset is stored. *)
Definition loadPresetData (clock1 clock2 clock3 : string) (st : Store) : Store :=
  if JsMap.size (stored_presets st) =? 0
  then createDefaultPresets clock1 clock2 clock3 st
  else st.

End SettingsActions.

(* ================================================================== *)
(** * The shape of a preset collection *)
(* ================================================================== *)

Module Shape.
Import JsChar JsString Presets.

(** The text starts with a unit that is not white space. *)
Definition solid_head (s : string) : bool :=
  match s with
  | String c _ => negb (is_space c)
  | EmptyString => false
  end.

(** No key occurs twice: what a [Map] and an object guarantee. *)
Definition distinct {V : Type} (m : JsMap.t V) : Prop :=
  NoDup (List.map fst m).

Definition system_ids : list string :=
  ["default-email"; "default-professional"; "default-basic"].

(** Every preset sits under its own id, and under the id of a system
    preset sits a system preset. *)
Definition proper (m : JsMap.t Preset) : Prop :=
  forall k p, In (k, p) m ->
              id p = k /\ (In k system_ids -> isSystem p = true).

(** The three system presets are there. *)
Definition complete (m : JsMap.t Preset) : Prop :=
  forall k, In k system_ids ->
            exists p, JsMap.get k m = Some p /\ isSystem p = true.

Definition well_formed (m : JsMap.t Preset) : Prop := distinct m /\ proper m.

(** The collection is well formed in memory and in the store, and an
    initialized manager holds the system presets. *)
Definition sound (s : State) : Prop :=
  well_formed (presets s) /\ well_formed (stored_presets (store s))
  /\ (initialized s = true -> complete (presets s)).

(** A preset after one more use at the time [now]. *)
Definition used (now : N) (p : Preset) : Preset :=
  {| id := id p; name := name p; prompt := prompt p; isDefault := isDefault p;
     isSystem := isSystem p; enabled := enabled p; createdAt := createdAt p;
     lastUsed := Some now; usageCount := usageCount p + 1 |}.

(** No two presets have the same name up to case. *)
Definition names_unique (m : JsMap.t Preset) : Prop :=
  NoDup (List.map (fun kv => toLowerCase (name (snd kv))) m).

(** The operations of the manager and of the settings page, as steps. *)
Inductive step : State -> State -> Prop :=
| step_manager (s s' : State) :
    Notions.step s s' -> step s s'
| step_toggle (i : string) (s : State) :
    step s (with_store (SettingsActions.togglePresetEnabled i (store s)) s)
| step_remove (confirmDelete : bool) (i : string) (s : State) :
    step s (with_store (snd (SettingsActions.deletePreset confirmDelete i (store s))) s)
| step_load (clock1 clock2 clock3 : string) (s : State) :
    step s (with_store (SettingsActions.loadPresetData clock1 clock2 clock3 (store s)) s).

(** The states of a manager constructed over a store without saved
    presets, under any sequence of these operations. *)
Inductive reachable : State -> Prop :=
| reach_fresh (st : Store) :
    stored_presets st = [] -> reachable (fresh st)
| reach_step (s s' : State) :
    reachable s -> step s s' -> reachable s'.

End Shape.
(* ================================================================== *)
(** * Folders and the transcription history *)
(* ================================================================== *)

Module Folders.

Record Folder : Type := {
  id : string;
  name : string;
  activationPhrase : string;
  createdAt : string;
  transcriptionCount : nat
}.

(** What identifies a folder to the user and to the matcher. *)
Definition key (f : Folder) : string * string * string :=
  (id f, name f, activationPhrase f).

(** The folders as the folders page keeps them: no id twice, no name and
    no activation phrase twice up to case, names and phrases non-empty and
    without white space at either end. *)
Definition orderly (fs : list Folder) : Prop :=
  NoDup (List.map id fs)
  /\ NoDup (List.map (fun f => JsString.toLowerCase (name f)) fs)
  /\ NoDup (List.map (fun f => JsString.toLowerCase (activationPhrase f)) fs)
  /\ (forall f, In f fs ->
                name f <> "" /\ JsString.trim (name f) = name f
                /\ activationPhrase f <> ""
                /\ JsString.trim (activationPhrase f) = activationPhrase f).

End Folders.

Module History.

(** An item of the history.  The empty string stands for a missing id,
    which reads as falsy in the same way. *)
Record Transcription : Type := {
  id : string;
  text : string;
  rawText : option string;
  originalText : string;
  cleanedText : option string;
  timestamp : string;
  duration : JsNumber.number;
  wordCount : nat;
  service : string;
  folderId : option string;
  folderName : option string
}.

Definition with_id (i : string) (t : Transcription) : Transcription :=
  {| id := i; text := text t; rawText := rawText t; originalText := originalText t;
     cleanedText := cleanedText t; timestamp := timestamp t; duration := duration t;
     wordCount := wordCount t; service := service t; folderId := folderId t;
     folderName := folderName t |}.

Definition with_texts (txt : string) (raw : option string) (t : Transcription)
  : Transcription :=
  {| id := id t; text := txt; rawText := raw; originalText := originalText t;
     cleanedText := cleanedText t; timestamp := timestamp t; duration := duration t;
     wordCount := wordCount t; service := service t; folderId := folderId t;
     folderName := folderName t |}.

Definition with_folder (fid fname : option string) (t : Transcription)
  : Transcription :=
  {| id := id t; text := text t; rawText := rawText t; originalText := originalText t;
     cleanedText := cleanedText t; timestamp := timestamp t; duration := duration t;
     wordCount := wordCount t; service := service t; folderId := fid;
     folderName := fname |}.

End History.

(** The two [StorageManager] classes (content script, folders page) over
    the local store.  Writes are taken to succeed.  [generateUUID()] hands
    out the identifiers [uuid 0], [uuid 1], ...; the number of identifiers
    drawn so far is threaded through the calls. *)

Module Storage.
Import JsString.

(** CONFIG.STORAGE_LIMITS *)
Definition MAX_HISTORY_ITEMS : nat := 500.
Definition MAX_SESSIONS : nat := 100.
Definition MAX_ANALYSES : nat := 50.
Definition MAX_TEXT_LENGTH : nat := 5000.

Section Local.
Context {Session Analysis : Type}.
Variable uuid : nat -> string.

(** The keys of the local store the managers read and write. *)
Record Local : Type := {
  history : list History.Transcription;
  folders : list Folders.Folder;
  yapprSessions : list Session;
  yapprAnalyses : list Analysis
}.

Definition with_history (h : list History.Transcription) (st : Local) : Local :=
  {| history := h; folders := folders st; yapprSessions := yapprSessions st;
     yapprAnalyses := yapprAnalyses st |}.

Definition with_folders (fs : list Folders.Folder) (st : Local) : Local :=
  {| history := history st; folders := fs; yapprSessions := yapprSessions st;
     yapprAnalyses := yapprAnalyses st |}.

(** The [forEach] of [getHistory]: an item without id draws one. *)
Fixpoint fill_ids (n : nat) (items : list History.Transcription)
  : list History.Transcription * nat :=
  match items with
  | [] => ([], n)
  | item :: rest =>
      if negb (truthy (History.id item))
      then let '(rest', n') := fill_ids (S n) rest in
           (History.with_id (uuid n) item :: rest', n')
      else let '(rest', n') := fill_ids n rest in
           (item :: rest', n')
  end.

(** [getHistory()]: the completed items are written back when one was
    completed. *)
Definition getHistory (st : Local) (n : nat)
  : list History.Transcription * Local * nat :=
  let '(items, n') := fill_ids n (history st) in
  (items, with_history items st, n').

Definition truncate_stored (s : string) : string :=
  if MAX_TEXT_LENGTH <? String.length s
  then take MAX_TEXT_LENGTH s ++ "... [truncated]" else s.

(** [optimizeTranscription(transcription)] *)
Definition optimizeTranscription (t : History.Transcription) : History.Transcription :=
  History.with_texts (truncate_stored (History.text t))
                     (option_map truncate_stored (History.rawText t)) t.

(** [cleanupSessions()] and [cleanupAnalyses()] *)
Definition cleanupSessions (st : Local) : Local :=
  if MAX_SESSIONS <? List.length (yapprSessions st)
  then {| history := history st; folders := folders st;
          yapprSessions := List.firstn MAX_SESSIONS (yapprSessions st);
          yapprAnalyses := yapprAnalyses st |}
  else st.

Definition cleanupAnalyses (st : Local) : Local :=
  if MAX_ANALYSES <? List.length (yapprAnalyses st)
  then {| history := history st; folders := folders st;
          yapprSessions := yapprSessions st;
          yapprAnalyses := List.firstn MAX_ANALYSES (yapprAnalyses st) |}
  else st.

(** [cleanupHistory(history)] *)
Definition cleanupHistory (h : list History.Transcription) (st : Local)
  : list History.Transcription * Local :=
  if List.length h <=? MAX_HISTORY_ITEMS then (h, st)
  else (List.firstn MAX_HISTORY_ITEMS h, cleanupAnalyses (cleanupSessions st)).

(** [addTranscription(transcription)] *)
Definition addTranscription (t : History.Transcription) (st : Local) (n : nat)
  : Local * nat :=
  let '(h, st, n) := getHistory st n in
  let '(t, n) :=
    if negb (truthy (History.id t)) then (History.with_id (uuid n) t, S n)
    else (t, n) in
  let optimized := optimizeTranscription t in
  let '(cleaned, st) := cleanupHistory (optimized :: h) st in
  (with_history cleaned st, n).

(** [createFolder(folderData)]; [now] is [new Date().toISOString()]. *)
Definition createFolder (name_ phrase now : string) (st : Local) (n : nat)
  : Folders.Folder * Local * nat :=
  let newFolder :=
    {| Folders.id := uuid n; Folders.name := name_;
       Folders.activationPhrase := phrase; Folders.createdAt := now;
       Folders.transcriptionCount := 0 |} in
  (newFolder, with_folders (folders st ++ [newFolder])%list st, S n).

(** The assignment [folders[folderIndex] = { ...folders[folderIndex],
    ...updates }] at the first folder with the id. *)
Fixpoint update_first (folderId name_ phrase : string) (fs : list Folders.Folder)
  : option (list Folders.Folder) :=
  match fs with
  | [] => None
  | f :: rest =>
      if String.eqb (Folders.id f) folderId
      then Some ({| Folders.id := Folders.id f; Folders.name := name_;
                    Folders.activationPhrase := phrase;
                    Folders.createdAt := Folders.createdAt f;
                    Folders.transcriptionCount := Folders.transcriptionCount f |}
                 :: rest)
      else option_map (cons f) (update_first folderId name_ phrase rest)
  end.

(** [updateFolder(folderId, { name, activationPhrase })]: [false] when no
    folder has the id. *)
Definition updateFolder (folderId name_ phrase : string) (st : Local)
  : bool * Local :=
  match update_first folderId name_ phrase (folders st) with
  | Some fs => (true, with_folders fs st)
  | None => (false, st)
  end.

Definition refers_to (folderId : string) (item : History.Transcription) : bool :=
  match History.folderId item with
  | Some f => String.eqb f folderId
  | None => false
  end.

(** [deleteFolder(folderId)] *)
Definition deleteFolder (folderId : string) (st : Local) (n : nat) : Local * nat :=
  let st :=
    with_folders
      (List.filter (fun f => negb (String.eqb (Folders.id f) folderId)) (folders st))
      st in
  let '(h, st, n) := getHistory st n in
  let updatedHistory :=
    List.map (fun item =>
                History.with_folder
                  (if refers_to folderId item then None else History.folderId item)
                  (if refers_to folderId item then None else History.folderName item)
                  item) h in
  (with_history updatedHistory st, n).

(** [deleteTranscription(itemId)] *)
Definition deleteTranscription (itemId : string) (st : Local) (n : nat) : Local * nat :=
  let '(h, st, n) := getHistory st n in
  (with_history
     (List.filter (fun item => negb (String.eqb (History.id item) itemId)) h) st, n).

(** [findFolderByActivationPhrase(text)] *)
Definition findFolderByActivationPhrase (text : string) (st : Local)
  : option Folders.Folder :=
  List.find (fun folder =>
               startsWith (trim (toLowerCase text))
                          (trim (toLowerCase (Folders.activationPhrase folder))))
            (folders st).

(** [getFolderStats()] *)
Definition getFolderStats (st : Local) (n : nat)
  : list Folders.Folder * Local * nat :=
  let '(h, st, n) := getHistory st n in
  (List.map (fun folder =>
               {| Folders.id := Folders.id folder; Folders.name := Folders.name folder;
                  Folders.activationPhrase := Folders.activationPhrase folder;
                  Folders.createdAt := Folders.createdAt folder;
                  Folders.transcriptionCount :=
                    List.length (List.filter (refers_to (Folders.id folder)) h) |})
            (folders st),
   st, n).

(** Every item that names a folder names a folder that exists. *)
Definition linked (st : Local) : Prop :=
  forall item f,
    In item (history st) -> History.folderId item = Some f ->
    exists folder, In folder (folders st) /\ Folders.id folder = f.

(** Every item has an id, and no stored text exceeds the limit by more
    than the truncation mark. *)
Definition tidy (st : Local) : Prop :=
  forall item,
    In item (history st) ->
    History.id item <> ""
    /\ String.length (History.text item) <= MAX_TEXT_LENGTH + 15.

End Local.

End Storage.

(* ================================================================== *)
(** * The folders page *)
(* ================================================================== *)

Module FoldersPage.
Import JsString.

Section Page.
Context {Session Analysis : Type}.
Variable uuid : nat -> string.

(** The manager of the page: the folders it shows and the folder being
    edited, over the local store. *)
Record Page : Type := {
  folders : list Folders.Folder;
  currentEditingFolderId : option string;
  storage : @Storage.Local Session Analysis;
  drawn : nat
}.

(** What the user sees of an action. *)
Inductive toast : Type :=
| Success (message : string)
| Failure (message : string)
| Silent.

(** [loadData()] for the folders. *)
Definition loadData (editing : option string) (st : Storage.Local) (n : nat) : Page :=
  let '(fs, st, n) := Storage.getFolderStats uuid st n in
  {| folders := fs; currentEditingFolderId := editing; storage := st; drawn := n |}.

Definition name_used (skip : option string) (name_ : string)
           (fs : list Folders.Folder) : bool :=
  existsb (fun f =>
             match skip with
             | Some self => negb (String.eqb (Folders.id f) self)
             | None => true
             end
             && String.eqb (toLowerCase (Folders.name f)) (toLowerCase name_)) fs.

Definition phrase_used (skip : option string) (phrase : string)
           (fs : list Folders.Folder) : bool :=
  existsb (fun f =>
             match skip with
             | Some self => negb (String.eqb (Folders.id f) self)
             | None => true
             end
             && String.eqb (toLowerCase (Folders.activationPhrase f))
                           (toLowerCase phrase)) fs.

(** [handleCreateFolder(e)] with the two fields of the form; [now] is the
    clock reading of [createFolder]. *)
Definition handleCreateFolder (nameField phraseField now : string) (pg : Page)
  : toast * Page :=
  let name_ := trim nameField in
  let activationPhrase := trim phraseField in
  if negb (truthy name_) || negb (truthy activationPhrase)
  then (Failure "Please fill in all fields", pg)
  else if name_used None name_ (folders pg)
  then (Failure "A folder with this name already exists", pg)
  else if phrase_used None activationPhrase (folders pg)
  then (Failure "A folder with this activation phrase already exists", pg)
  else
    let '(_, st, n) :=
      Storage.createFolder uuid name_ activationPhrase now (storage pg) (drawn pg) in
    (Success ("Folder " ++ Presets.quoted name_ ++ " created successfully!"),
     loadData (currentEditingFolderId pg) st n).

(** [handleEditFolder(e)]; [hideEditFolderModal] ends the edit. *)
Definition handleEditFolder (nameField phraseField : string) (pg : Page)
  : toast * Page :=
  match currentEditingFolderId pg with
  | None => (Silent, pg)
  | Some editing =>
      if negb (truthy editing) then (Silent, pg)
      else
        let name_ := trim nameField in
        let activationPhrase := trim phraseField in
        if negb (truthy name_) || negb (truthy activationPhrase)
        then (Failure "Please fill in all fields", pg)
        else
          match List.find (fun f => String.eqb (Folders.id f) editing) (folders pg) with
          | None => (Silent, pg)
          | Some _ =>
              if name_used (Some editing) name_ (folders pg)
              then (Failure "A folder with this name already exists", pg)
              else if phrase_used (Some editing) activationPhrase (folders pg)
              then (Failure "A folder with this activation phrase already exists", pg)
              else
                let '(_, st) :=
                  Storage.updateFolder editing name_ activationPhrase (storage pg) in
                let '(h, st, n) := Storage.getHistory uuid st (drawn pg) in
                let updatedHistory :=
                  List.map (fun item =>
                              if Storage.refers_to editing item
                              then History.with_folder (History.folderId item)
                                                       (Some name_) item
                              else item) h in
                (Success ("Folder " ++ Presets.quoted name_ ++ " updated successfully!"),
                 loadData None (Storage.with_history updatedHistory st) n)
          end
  end.

(** The page shows the folders of the store. *)
Definition in_sync (pg : Page) : Prop :=
  List.map Folders.key (folders pg)
  = List.map Folders.key (Storage.folders (storage pg)).

End Page.

End FoldersPage.

(* ================================================================== *)
(** * After a transcription *)
(* ================================================================== *)

Module Pipeline.
Import JsChar JsString Regex Presets.

(** The page as an insertion finds it: whether the element to write to
    (the focused one or, on X, the tweet box) is fit for insertion, whether
    the host is [x.com] or [twitter.com], and whether the clipboard can be
    written. *)
Record Page : Type := {
  suitable : bool;
  onX : bool;
  clipboard : bool
}.









(** The record [handleSuccessfulTranscription] prepares for saving, from
    the raw and the cleaned transcription; [fresh], [now] and [serviceId]
    come from the environment. *)
Definition transcriptionData {Session Analysis : Type}
           (fresh now serviceId : string)
           (rawTranscription cleanedTranscription : string)
           (duration : JsNumber.number)
           (st : @Storage.Local Session Analysis) : History.Transcription :=
  let formattedTranscription := Format.formatTextIntoParagraphs cleanedTranscription in
  let matchingFolder :=
    Storage.findFolderByActivationPhrase formattedTranscription st in
  let contentForSaving :=
    match matchingFolder with
    | Some folder =>
        Format.extractCleanContent formattedTranscription
                                   (Folders.activationPhrase folder)
    | None => formattedTranscription
    end in
  {| History.id := fresh;
     History.text := contentForSaving;
     History.rawText := Some rawTranscription;
     History.originalText := formattedTranscription;
     History.cleanedText :=
       if String.eqb cleanedTranscription rawTranscription then None
       else Some cleanedTranscription;
     History.timestamp := now;
     History.duration := duration;
     History.wordCount := Format.countWords contentForSaving;
     History.service := serviceId;
     History.folderId := option_map Folders.id matchingFolder;
     History.folderName := option_map Folders.name matchingFolder |}.

(** [saveTranscriptionData(transcriptionData)], for the history:
    [addTranscription], then the reading of the history that confirms it
    ([updateStats] in between writes the statistics, which are not among the
    keys of [Storage.Local]). *)
Definition saveTranscriptionData {Session Analysis : Type} (uuid : nat -> string)
           (transcriptionData : History.Transcription)
           (st : @Storage.Local Session Analysis) (n : nat)
  : @Storage.Local Session Analysis * nat :=
  let '(st, n) := Storage.addTranscription uuid transcriptionData st n in
  let '(_, st, n) := Storage.getHistory uuid st n in
  (st, n).

(** The saving part of [handleSuccessfulTranscription]: the record is
    prepared under a fresh identifier and handed to [saveTranscriptionData];
    [addTranscription] cuts its texts in place, so the record in the history
    is the record every later use sees. *)
Definition saveTranscription {Session Analysis : Type} (uuid : nat -> string)
           (now serviceId : string)
           (rawTranscription cleanedTranscription : string)
           (duration : JsNumber.number)
           (st : @Storage.Local Session Analysis) (n : nat)
  : @Storage.Local Session Analysis * nat :=
  saveTranscriptionData uuid
    (transcriptionData (uuid n) now serviceId rawTranscription cleanedTranscription
                       duration st)
    st (S n).

End Pipeline.
(* ================================================================== *)
(** * Sums over a breakdown *)
(* ================================================================== *)

Module Tally.

(** The sum of the counts of a breakdown. *)
Definition total (b : Metrics.breakdown) : nat :=
  List.list_sum (List.map snd b).

(** The keys of a breakdown, in order. *)
Definition keys (b : Metrics.breakdown) : list string := List.map fst b.

End Tally.

(* ================================================================== *)
(** * Situations used as instances *)
(* ================================================================== *)

Module Scenarios.
Import Presets.

(** A credential configured, and the endpoint answering with a text. *)
Definition answering : Enhance.Env :=
  {| Enhance.now := 7; Enhance.apiKey := "sk-test";
     Enhance.reply := fun _ _ =>
       Enhance.Responded 200 (Enhance.Choices ["  Dear all, hello.  "]) |}.


(** Identifiers [u0], [u1], ... *)
Definition uuids (k : nat) : string := "u" ++ JsString.of_nat k.

Definition note : History.Transcription :=
  {| History.id := ""; History.text := "finish the report.";
     History.rawText := Some "Work note, finish the report.";
     History.originalText := "Work note, finish the report.";
     History.cleanedText := None; History.timestamp := "2025-01-02T00:00:00.000Z";
     History.duration := JsNumber.of_Z 3; History.wordCount := 3;
     History.service := "elevenlabs";
     History.folderId := Some "f1"; History.folderName := Some "Work" |}.

Definition work : Folders.Folder :=
  {| Folders.id := "f1"; Folders.name := "Work";
     Folders.activationPhrase := "Work note,";
     Folders.createdAt := "2025-01-01T00:00:00.000Z";
     Folders.transcriptionCount := 0 |}.

(** A local store with one folder and one item filed in it; no session
    and no analysis is kept. *)
Definition one_note : @Storage.Local unit unit :=
  {| Storage.history := [note]; Storage.folders := [work];
     Storage.yapprSessions := []; Storage.yapprAnalyses := [] |}.

(** The folders page showing that store, with its folder being edited. *)
Definition page : @FoldersPage.Page unit unit :=
  {| FoldersPage.folders := [work];
     FoldersPage.currentEditingFolderId := Some "f1";
     FoldersPage.storage := one_note;
     FoldersPage.drawn := 0 |}.

End Scenarios.

(* ================================================================== *)
(** * The matcher does not depend on its fuel *)
(* ================================================================== *)

Module RegexFacts.
Import Regex Notions.

Lemma star_loop_ext body (greedy : bool) (fuel : nat) :
  respects body ->
  forall (k1 k2 : cont),
    (forall prev s caps, k1 prev s caps = k2 prev s caps) ->
    forall prev s caps,
      star_loop body greedy k1 fuel prev s caps
      = star_loop body greedy k2 fuel prev s caps.
Proof.
  intros Hbody k1 k2 Hk. induction fuel as [|fuel IH]; intros prev s caps.
  - apply Hk.
  - cbn [star_loop]. rewrite (Hk prev s caps).
    rewrite (Hbody prev s caps _
               (fun prev' s' caps' =>
                  if String.length s' <? String.length s
                  then star_loop body greedy k2 fuel prev' s' caps' else None)).
    + reflexivity.
    + intros prev' s' caps'. destruct (String.length s' <? String.length s);
        [apply IH|reflexivity].
Qed.

Lemma rmatch_ext (r : regex) : respects (rmatch r).
Proof.
  induction r as [|p|r1 IH1 r2 IH2|r1 IH1 r2 IH2|greedy r IH|n r IH|ci n| | |];
    intros prev s caps k1 k2 Hk; cbn [rmatch].
  - apply Hk.
  - destruct s as [|c s']; [reflexivity|]. destruct (p c); [apply Hk|reflexivity].
  - apply IH1. intros prev' s' caps'. apply IH2. exact Hk.
  - rewrite (IH1 prev s caps k1 k2 Hk), (IH2 prev s caps k1 k2 Hk). reflexivity.
  - apply star_loop_ext; assumption.
  - apply IH. intros prev' s' caps'. apply Hk.
  - destruct (cap_get n caps) as [text|]; [|apply Hk].
    destruct (eat _ text prev s) as [[prev' s']|]; [apply Hk|reflexivity].
  - destruct prev; [reflexivity|apply Hk].
  - destruct s; [apply Hk|reflexivity].
  - destruct (xorb _ _); [apply Hk|reflexivity].
Qed.

(** Any two amounts of fuel above the length of the rest give the same
    answer: the iterations end before the fuel does. *)
Lemma star_fuel body (greedy : bool) (k : cont) :
  respects body ->
  forall (n : nat) (s : string),
    String.length s <= n ->
    forall (f1 f2 : nat) prev caps,
      String.length s < f1 -> String.length s < f2 ->
      star_loop body greedy k f1 prev s caps = star_loop body greedy k f2 prev s caps.
Proof.
  intros Hbody. induction n as [|n IH]; intros s Hn f1 f2 prev caps H1 H2;
    (destruct f1 as [|f1]; [lia|]); (destruct f2 as [|f2]; [lia|]);
    cbn [star_loop];
    rewrite (Hbody prev s caps _
               (fun prev' s' caps' =>
                  if String.length s' <? String.length s
                  then star_loop body greedy k f2 prev' s' caps' else None));
    try reflexivity;
    intros prev' s' caps';
    destruct (String.length s' <? String.length s) eqn:Hlt; try reflexivity;
    apply Nat.ltb_lt in Hlt.
  - lia.
  - apply IH; lia.
Qed.

(** The star of the matcher is the loop at any sufficient fuel. *)
Lemma star_fuel_enough (r : regex) (greedy : bool) (k : cont) (fuel : nat)
      prev (s : string) caps :
  String.length s < fuel ->
  star_loop (rmatch r) greedy k fuel prev s caps
  = rmatch (Star greedy r) prev s caps k.
Proof.
  intros Hfuel. cbn [rmatch].
  apply (star_fuel _ greedy k (rmatch_ext r) (String.length s) s); lia.
Qed.

End RegexFacts.

(* ================================================================== *)
(** * Facts about strings *)
(* ================================================================== *)

Module StringFacts.
Import JsChar JsString.

Lemma truthy_false (s : string) : truthy s = false <-> s = "".
Proof. destruct s; simpl; split; congruence. Qed.

Lemma truthy_true (s : string) : truthy s = true <-> s <> "".
Proof. destruct s; simpl; split; congruence. Qed.

Lemma eqb_empty (s : string) : String.eqb s "" = true <-> s = "".
Proof. apply String.eqb_eq. Qed.

Lemma last_char_cons (c : ascii) (s : string) :
  s <> "" -> last_char (String c s) = last_char s.
Proof. destruct s; [contradiction|reflexivity]. Qed.

Lemma last_char_append (s : string) (c : ascii) :
  last_char (s ++ String c "") = Some c.
Proof.
  induction s as [|a s IH]; [reflexivity|].
  simpl append. rewrite last_char_cons; [exact IH|].
  destruct s; discriminate.
Qed.

Lemma last_char_nonempty (s : string) (c : ascii) :
  last_char s = Some c -> s <> "".
Proof. destruct s; [discriminate|discriminate]. Qed.

Lemma last_char_trimStart (s : string) (c : ascii) :
  last_char s = Some c -> is_space c = false -> last_char (trimStart s) = Some c.
Proof.
  unfold trimStart. induction s as [|a s IH]; intros Hl Hc; [discriminate|].
  simpl drop_while. destruct (is_space a) eqn:Ha; [|exact Hl].
  destruct s as [|b s'].
  - simpl in Hl. congruence.
  - apply IH; [|exact Hc]. rewrite last_char_cons in Hl; [exact Hl|discriminate].
Qed.

(** A string is kept whole by [trimEnd] up to its last non-space unit. *)
Lemma trimEnd_cons_nonspace (a : ascii) (s : string) :
  is_space a = false -> trimEnd (String a s) = String a (trimEnd s).
Proof. intros Ha. simpl. destruct (trimEnd s); [rewrite Ha|]; reflexivity. Qed.

Lemma trimEnd_cons_space (a : ascii) (s : string) :
  is_space a = true ->
  trimEnd (String a s) = match trimEnd s with
                         | EmptyString => EmptyString
                         | kept => String a kept
                         end.
Proof. intros Ha. simpl. destruct (trimEnd s); [rewrite Ha|]; reflexivity. Qed.

Lemma trimEnd_nonempty (s : string) (c : ascii) :
  last_char s = Some c -> is_space c = false -> trimEnd s <> "".
Proof.
  induction s as [|a s IH]; intros Hl Hc; [discriminate|].
  destruct s as [|b s'].
  - simpl in Hl. injection Hl as ->. simpl. rewrite Hc. discriminate.
  - rewrite last_char_cons in Hl by discriminate.
    specialize (IH Hl Hc). simpl trimEnd in *.
    destruct (match trimEnd s' with
              | EmptyString => if is_space b then EmptyString else String b EmptyString
              | String a0 s0 => String b (String a0 s0)
              end); [contradiction|discriminate].
Qed.

Lemma trim_nonempty (s : string) (c : ascii) :
  last_char s = Some c -> is_space c = false -> trim s <> "".
Proof.
  intros Hl Hc. unfold trim.
  apply (trimEnd_nonempty _ c); [apply last_char_trimStart|]; assumption.
Qed.

Lemma trimEnd_idempotent (s : string) : trimEnd (trimEnd s) = trimEnd s.
Proof.
  induction s as [|c s IH]; [reflexivity|].
  cbn [trimEnd]. destruct (trimEnd s) as [|k ks] eqn:Hk.
  - destruct (is_space c) eqn:Hc; [reflexivity|]. simpl. rewrite Hc. reflexivity.
  - cbn [trimEnd] in *. rewrite IH. reflexivity.
Qed.

Lemma trimStart_trimEnd (s : string) :
  trimStart (trimEnd s) = trimEnd (trimStart s).
Proof.
  unfold trimStart. induction s as [|c s IH]; [reflexivity|].
  cbn [drop_while]. destruct (is_space c) eqn:Hc.
  - rewrite trimEnd_cons_space by exact Hc. rewrite <- IH.
    destruct (trimEnd s); [reflexivity|]. cbn [drop_while]. rewrite Hc. reflexivity.
  - rewrite trimEnd_cons_nonspace by exact Hc. cbn [drop_while]. rewrite Hc.
    reflexivity.
Qed.

Lemma trim_trimEnd (s : string) : trim (trimEnd s) = trim s.
Proof.
  unfold trim. rewrite trimStart_trimEnd, trimEnd_idempotent. reflexivity.
Qed.

Lemma trimStart_idempotent (s : string) : trimStart (trimStart s) = trimStart s.
Proof.
  unfold trimStart. induction s as [|c s IH]; [reflexivity|].
  cbn [drop_while]. destruct (is_space c) eqn:Hc; [exact IH|].
  cbn [drop_while]. rewrite Hc. reflexivity.
Qed.

(** A trimmed string is closed under both trims. *)
Lemma trim_tight (s : string) :
  trimStart (trim s) = trim s /\ trimEnd (trim s) = trim s.
Proof.
  unfold trim. split.
  - rewrite trimStart_trimEnd, trimStart_idempotent. reflexivity.
  - apply trimEnd_idempotent.
Qed.

End StringFacts.

(* ================================================================== *)
(** * Properties of the cleanup *)
(* ================================================================== *)

Module CleanupFacts.
Import JsChar JsString Regex Cleanup StringFacts Notions.

Lemma mark_not_space (c : ascii) : one_of ".!?" c = true -> is_space c = false.
Proof.
  cbn [one_of]. intros H.
  repeat (apply orb_true_iff in H; destruct H as [H|H]);
    try discriminate; apply Ascii.eqb_eq in H; subst; reflexivity.
Qed.

(** [/[.!?]$/] finds a match exactly when the text ends with a mark. *)
Lemma match_sentence_end (prev : option ascii) (c : ascii) (s : string) :
  match_at re_sentence_end prev (String c s)
  = if one_of ".!?" c
    then match s with EmptyString => Some (1, []) | String _ _ => None end
    else None.
Proof.
  unfold match_at, re_sentence_end, cls. cbn [rmatch].
  destruct (one_of ".!?" c); [|reflexivity].
  destruct s; [|reflexivity].
  unfold accept. cbn [String.length Nat.sub]. reflexivity.
Qed.

Lemma test_sentence_end (prev : option ascii) (s : string) :
  test_go re_sentence_end prev s = ends_with_mark s.
Proof.
  revert prev. induction s as [|c s IH]; intros prev; [reflexivity|].
  cbn [test_go]. rewrite match_sentence_end. unfold ends_with_mark.
  destruct s as [|b s'].
  - cbn [last_char]. destruct (one_of ".!?" c); reflexivity.
  - rewrite last_char_cons by discriminate.
    replace (if one_of ".!?" c then @None (nat * captures) else None)
      with (@None (nat * captures)) by (destruct (one_of ".!?" c); reflexivity).
    rewrite IH. reflexivity.
Qed.

Lemma ensure_ending_ends (c : string) :
  c <> "" -> ends_with_mark (ensure_ending c) = true.
Proof.
  intros Hc. unfold ensure_ending, test. rewrite test_sentence_end.
  apply truthy_true in Hc. rewrite Hc. simpl andb.
  destruct (ends_with_mark c) eqn:He; simpl; [exact He|].
  unfold ends_with_mark. rewrite last_char_append. reflexivity.
Qed.

Lemma ends_with_mark_trim (s : string) : ends_with_mark s = true -> trim s <> "".
Proof.
  unfold ends_with_mark. destruct (last_char s) as [c|] eqn:Hl; [|discriminate].
  intros Hm. apply (trim_nonempty s c Hl). apply mark_not_space. exact Hm.
Qed.

Lemma ensure_ending_empty : ensure_ending "" = "".
Proof. reflexivity. Qed.

Example scenario :
  cleanTranscription "I went to the the store yesterday, um, to buy milk"
  = "I went to the store yesterday, to buy milk.".
Proof. vm_compute. reflexivity. Qed.

End CleanupFacts.

(** C4 fails on a filler word: [um] is non-empty and alphabetic, the phases
    reduce it to the empty string, no period is appended to an empty result,
    and the final check returns the input, which ends in no mark. *)
Lemma clean_um_has_no_ending :
  "um" <> ""
  /\ Notions.alphabetic "um" = true
  /\ Cleanup.phases (Cleanup.truncate "um") = ""
  /\ Cleanup.cleanTranscription "um" = "um"
  /\ Notions.ends_with_mark (Cleanup.cleanTranscription "um") = false.
Proof. vm_compute. repeat split. discriminate. Qed.

(** C4, amended. For every non-empty input [x], alphabetic or not: when
    the phases yield a non-empty text [c], the result is [c] itself if [c]
    ends in a period, an exclamation mark or a question mark and [c] followed
    by a period otherwise, so the result ends in one of the three marks; when
    the phases yield the empty text, the result is the input unchanged. *)
Theorem clean_ends_sentence_or_returns_input :
  forall x : string,
    x <> "" ->
    let c := Cleanup.phases (Cleanup.truncate x) in
    (c <> "" ->
     Cleanup.cleanTranscription x
     = (if Notions.ends_with_mark c then c else c ++ ".")
     /\ Notions.ends_with_mark (Cleanup.cleanTranscription x) = true)
    /\ (c = "" -> Cleanup.cleanTranscription x = x).
Proof.
  intros x Hx c. unfold Cleanup.cleanTranscription.
  change (Cleanup.phases (Cleanup.truncate x)) with c.
  clearbody c.
  apply StringFacts.truthy_true in Hx. rewrite Hx.
  change (negb true) with false. cbv iota.
  split.
  - intros Hc.
    pose proof (CleanupFacts.ensure_ending_ends c Hc) as Hend.
    assert (Hkeep : negb (JsString.truthy (Cleanup.ensure_ending c))
                    || String.eqb (JsString.trim (Cleanup.ensure_ending c)) "" = false).
    { apply orb_false_iff. split.
      - apply negb_false_iff. apply StringFacts.truthy_true.
        intros He. rewrite He in Hend. discriminate.
      - apply String.eqb_neq. apply CleanupFacts.ends_with_mark_trim. exact Hend. }
    rewrite Hkeep. split; [|exact Hend].
    unfold Cleanup.ensure_ending, Regex.test.
    rewrite CleanupFacts.test_sentence_end.
    apply StringFacts.truthy_true in Hc. rewrite Hc.
    change (true && negb (Notions.ends_with_mark c))
      with (negb (Notions.ends_with_mark c)).
    destruct (Notions.ends_with_mark c); reflexivity.
  - intros Hc. rewrite Hc. reflexivity.
Qed.

(** The amended C4 at a sentence that opens with a filler. *)
Lemma clean_ends_sentence_or_returns_input_witness :
  Cleanup.cleanTranscription "so we can go there"
  = "we can go there."
  /\ Notions.ends_with_mark (Cleanup.cleanTranscription "so we can go there") = true.
Proof.
  exact (proj1 (clean_ends_sentence_or_returns_input "so we can go there"
                  ltac:(discriminate)) ltac:(vm_compute; discriminate)).
Defined.

(* ================================================================== *)
(** * Properties of the activation-phrase extractor *)
(* ================================================================== *)

Module ExtractFacts.
Import JsChar JsString Format StringFacts.

Lemma is_space_to_lower (c : ascii) : is_space (to_lower c) = is_space c.
Proof.
  destruct c as [b0 b1 b2 b3 b4 b5 b6 b7].
  destruct b0, b1, b2, b3, b4, b5, b6, b7; reflexivity.
Qed.

Lemma punct_not_space (c : ascii) : is_trailing_punct c = true -> is_space c = false.
Proof.
  destruct c as [b0 b1 b2 b3 b4 b5 b6 b7].
  destruct b0, b1, b2, b3, b4, b5, b6, b7; vm_compute; intros H;
    first [reflexivity | discriminate H].
Qed.

Lemma lower_empty (s : string) : toLowerCase s = "" <-> s = "".
Proof.
  destruct s; cbn [toLowerCase map]; split; intros H;
    first [reflexivity | discriminate H].
Qed.

Lemma length_lower (s : string) : String.length (toLowerCase s) = String.length s.
Proof.
  unfold toLowerCase. induction s as [|c s IH]; [reflexivity|].
  cbn [map String.length]. rewrite IH. reflexivity.
Qed.

Lemma trimStart_lower (s : string) :
  trimStart (toLowerCase s) = toLowerCase (trimStart s).
Proof.
  unfold trimStart, toLowerCase. induction s as [|c s IH]; [reflexivity|].
  cbn [map drop_while]. rewrite is_space_to_lower.
  destruct (is_space c); [exact IH|reflexivity].
Qed.

Lemma trimEnd_lower (s : string) :
  trimEnd (toLowerCase s) = toLowerCase (trimEnd s).
Proof.
  unfold toLowerCase. induction s as [|c s IH]; [reflexivity|].
  cbn [map trimEnd]. rewrite IH, is_space_to_lower.
  destruct (trimEnd s); cbn [map]; [destruct (is_space c)|]; reflexivity.
Qed.

Lemma trim_lower (s : string) : trim (toLowerCase s) = toLowerCase (trim s).
Proof. unfold trim. rewrite trimStart_lower, trimEnd_lower. reflexivity. Qed.

Lemma startsWith_length (s p : string) :
  startsWith s p = true -> String.length p <= String.length s.
Proof.
  revert s. induction p as [|a p IH]; intros s H; [simpl; lia|].
  destruct s as [|c s]; [discriminate|].
  simpl in H. apply andb_true_iff in H. destruct H as [_ H].
  apply IH in H. simpl. lia.
Qed.

Lemma slice_from_add (n m : nat) (s : string) :
  slice_from (n + m) s = slice_from m (slice_from n s).
Proof.
  revert s. induction n as [|n IH]; intros s; [reflexivity|].
  destruct s as [|c s]; simpl.
  - destruct m; reflexivity.
  - apply IH.
Qed.

Lemma slice_run_length (q : ascii -> bool) (s : string) :
  slice_from (run_length q s) s = drop_while q s.
Proof.
  induction s as [|c s IH]; [reflexivity|].
  simpl. destruct (q c); [exact IH|reflexivity].
Qed.

(** The index arithmetic of the two loops drops a run of punctuation and
    then a run of white space. *)
Lemma loops_drop_runs (n : nat) (s : string) :
  let e1 := n + run_length is_trailing_punct (slice_from n s) in
  let e2 := e1 + run_length is_space (slice_from e1 s) in
  slice_from e2 s
  = drop_while is_space (drop_while is_trailing_punct (slice_from n s)).
Proof.
  intros e1 e2. unfold e2. rewrite slice_from_add, slice_run_length.
  unfold e1. rewrite slice_from_add, slice_run_length. reflexivity.
Qed.

Lemma slice_trimEnd (n : nat) (s : string) :
  n <= String.length (trimEnd s) ->
  slice_from n (trimEnd s) = trimEnd (slice_from n s).
Proof.
  revert s. induction n as [|n IH]; intros s Hn; [reflexivity|].
  destruct s as [|c s]; [reflexivity|].
  cbn [slice_from]. cbn [trimEnd] in *.
  destruct (trimEnd s) as [|k ks] eqn:Hk.
  - destruct (is_space c); simpl in Hn; [lia|].
    assert (n = 0) by lia. subst n. simpl. rewrite Hk. reflexivity.
  - cbn [slice_from]. rewrite <- Hk. apply IH. rewrite Hk.
    simpl in Hn. simpl. lia.
Qed.

Lemma drop_trimEnd (q : ascii -> bool) (s : string) :
  (forall c, q c = true -> is_space c = false) ->
  drop_while q (trimEnd s) = trimEnd (drop_while q s).
Proof.
  intros Hq. induction s as [|c s IH]; [reflexivity|].
  cbn [drop_while]. destruct (q c) eqn:Hc.
  - rewrite trimEnd_cons_nonspace by (apply Hq; exact Hc).
    cbn [drop_while]. rewrite Hc. exact IH.
  - cbn [trimEnd]. destruct (trimEnd s).
    + destruct (is_space c); [reflexivity|]. cbn [drop_while]. rewrite Hc. reflexivity.
    + cbn [drop_while]. rewrite Hc. reflexivity.
Qed.

Lemma trim_drop_space (s : string) : trim (drop_while is_space s) = trim s.
Proof.
  unfold trim, trimStart. f_equal.
  induction s as [|c s IH]; [reflexivity|].
  cbn [drop_while]. destruct (is_space c) eqn:Hc; [exact IH|].
  cbn [drop_while]. rewrite Hc. reflexivity.
Qed.

(** Trailing white space of the transcript does not show in the result. *)
Lemma remainder_trimEnd (n : nat) (s : string) :
  n <= String.length (trimEnd s) ->
  trim (drop_while is_space
          (drop_while is_trailing_punct (slice_from n (trimEnd s))))
  = trim (drop_while is_space (drop_while is_trailing_punct (slice_from n s))).
Proof.
  intros Hn. rewrite slice_trimEnd by exact Hn.
  rewrite (drop_trimEnd _ _ punct_not_space).
  rewrite !trim_drop_space. apply trim_trimEnd.
Qed.

Example work_note :
  extractCleanContent "Work note, finish the report." "Work note,"
  = "finish the report.".
Proof. reflexivity. Qed.

End ExtractFacts.

(** C6 fails in two places.  With an empty phrase the guard returns the
    transcript as it is, although every transcript starts with the empty
    phrase and the description then strips punctuation and white space.  With
    white space before the phrase, the match is made on the trimmed
    transcript but the cut is made at the length of the phrase in the
    untrimmed one, so part of the phrase survives. *)
Lemma extract_departs_from_description :
  (Format.extractCleanContent ". hi" "" = ". hi"
   /\ Notions.extract_described ". hi" "" = "hi")
  /\ (Format.extractCleanContent "  Work note, finish the report." "Work note,"
      = "e, finish the report."
      /\ Notions.extract_described "  Work note, finish the report." "Work note,"
         = "finish the report.").
Proof. repeat split. Qed.

(** C6, amended. For a non-empty phrase without white space at either end
    and a transcript without leading white space: if the transcript, trimmed
    and lower-cased, starts with the lower-cased phrase, the result is what
    follows the phrase with the punctuation run, then the white-space run,
    removed and the rest trimmed; otherwise the transcript comes back
    unchanged.  An empty transcript or phrase returns the transcript
    unchanged.  The example of the specification evaluates as stated. *)
Theorem extract_follows_description :
  (forall transcript phrase : string,
      phrase <> "" ->
      JsString.trimStart transcript = transcript ->
      JsString.trim phrase = phrase ->
      Format.extractCleanContent transcript phrase
      = Notions.extract_described transcript phrase)
  /\ (forall transcript phrase : string,
         transcript = "" \/ phrase = "" ->
         Format.extractCleanContent transcript phrase = transcript)
  /\ Format.extractCleanContent "Work note, finish the report." "Work note,"
     = "finish the report.".
Proof.
  split; [|split; [|reflexivity]].
  - intros t p Hp Ht Htp.
    unfold Format.extractCleanContent, Notions.extract_described.
    destruct t as [|c t'];
      [destruct p; [contradiction|rewrite Htp; reflexivity]|].
    set (t := String c t') in *.
    apply StringFacts.truthy_true in Hp. rewrite Hp.
    cbn [JsString.truthy negb orb]. unfold t at 1. cbv iota.
    rewrite !ExtractFacts.trim_lower, Htp.
    destruct (JsString.startsWith (JsString.toLowerCase (JsString.trim t))
                (JsString.toLowerCase p)) eqn:Hs; [|reflexivity].
    rewrite ExtractFacts.loops_drop_runs.
    apply ExtractFacts.startsWith_length in Hs.
    rewrite !ExtractFacts.length_lower in Hs.
    unfold JsString.trim in *. rewrite Ht in *.
    symmetry. apply ExtractFacts.remainder_trimEnd. exact Hs.
  - intros t p [H|H]; subst; unfold Format.extractCleanContent.
    + reflexivity.
    + destruct t; reflexivity.
Qed.

(** The amended C6 at a transcript with trailing white space and a
    phrase in another case, and at the empty transcript. *)
Lemma extract_follows_description_witness :
  Format.extractCleanContent "Memo: call Sam  " "memo"
  = Notions.extract_described "Memo: call Sam  " "memo"
  /\ Format.extractCleanContent "" "memo" = "".
Proof.
  split.
  - apply (proj1 extract_follows_description); [discriminate|reflexivity|reflexivity].
  - apply (proj1 (proj2 extract_follows_description)). left. reflexivity.
Defined.

(* ================================================================== *)
(** * Properties of the session metrics *)
(* ================================================================== *)

Module MetricsFacts.
Import JsChar JsString Regex Format Metrics StringFacts Notions.

Lemma length_drop_while (q : ascii -> bool) (s : string) :
  String.length (drop_while q s) + run_length q s = String.length s.
Proof.
  induction s as [|c s IH]; [reflexivity|].
  cbn [drop_while run_length]. destruct (q c); cbn [String.length]; lia.
Qed.

(** The greedy star over [\s] takes the whole run of white space. *)
Lemma star_ws (fuel : nat) :
  forall (prev : option ascii) (s : string) (caps : captures),
    String.length s < fuel ->
    star_loop (rmatch ws) true accept fuel prev s caps
    = Some (drop_while is_space s, caps).
Proof.
  induction fuel as [|fuel IH]; intros prev s caps Hlen; [lia|].
  cbn [star_loop]. unfold ws at 1. cbn [rmatch].
  destruct s as [|c s']; [reflexivity|].
  cbn [drop_while]. destruct (is_space c); [|reflexivity].
  assert (Hlt : (String.length s' <? String.length (String c s')) = true)
    by (apply Nat.ltb_lt; cbn [String.length]; lia).
  rewrite Hlt. rewrite IH by (cbn [String.length] in Hlen; lia). reflexivity.
Qed.

(** [/\s+/] at a position matches the run of white space there, when
    there is one. *)
Lemma match_ws (prev : option ascii) (s : string) :
  match_at re_ws prev s
  = match run_length is_space s with
    | O => None
    | S n => Some (S n, [])
    end.
Proof.
  unfold match_at, re_ws, plus. unfold ws at 1. cbn [rmatch].
  destruct s as [|c s']; [reflexivity|].
  cbn [run_length]. destruct (is_space c); [|reflexivity].
  rewrite star_ws by lia.
  pose proof (length_drop_while is_space s') as Hl.
  cbn [String.length]. f_equal. f_equal. lia.
Qed.

Lemma split_ws_length (s : string) :
  (forall prev cur, List.length (split_go re_ws 0 prev cur s) = S (ws_runs false s))
  /\ (forall prev cur,
         List.length (split_go re_ws (run_length is_space s) prev cur s)
         = S (ws_runs true s)).
Proof.
  induction s as [|c s [IH0 IH1]]; [split; reflexivity|].
  split; intros prev cur.
  - cbn [split_go]. rewrite match_ws. cbn [run_length ws_runs].
    destruct (is_space c).
    + cbn [List.length]. change (group_count re_ws) with 0.
      cbn [group_texts List.app]. rewrite IH1. reflexivity.
    + apply IH0.
  - cbn [run_length ws_runs]. destruct (is_space c) eqn:Hc.
    + cbn [split_go]. apply IH1.
    + cbn [split_go]. rewrite match_ws. cbn [run_length]. rewrite Hc. apply IH0.
Qed.

Lemma tokens_trimStart (s : string) : tokens false (trimStart s) = tokens false s.
Proof.
  unfold trimStart. induction s as [|c s IH]; [reflexivity|].
  cbn [drop_while tokens]. destruct (is_space c) eqn:Hc; [exact IH|].
  cbn [tokens]. rewrite Hc. reflexivity.
Qed.

Lemma tokens_trimEnd (s : string) :
  forall inside, tokens inside (trimEnd s) = tokens inside s.
Proof.
  induction s as [|c s IH]; intros inside; [reflexivity|].
  destruct (is_space c) eqn:Hc.
  - rewrite trimEnd_cons_space by exact Hc. cbn [tokens]. rewrite Hc.
    rewrite <- (IH false). destruct (trimEnd s); [reflexivity|].
    cbn [tokens]. rewrite Hc. reflexivity.
  - rewrite trimEnd_cons_nonspace by exact Hc. cbn [tokens]. rewrite Hc.
    rewrite IH. reflexivity.
Qed.

Lemma tokens_trim (s : string) : tokens false (trim s) = tokens false s.
Proof. unfold trim. rewrite tokens_trimEnd. apply tokens_trimStart. Qed.

(** What [trimEnd t = t] says of a non-empty [t]. *)
Lemma trimEnd_fixed_cons (c : ascii) (t : string) :
  trimEnd (String c t) = String c t ->
  (t = "" /\ is_space c = false) \/ (t <> "" /\ trimEnd t = t).
Proof.
  cbn [trimEnd]. destruct (trimEnd t) as [|k ks] eqn:Hk.
  - destruct (is_space c); [discriminate|]. intros H. injection H as H.
    left. split; [symmetry; exact H|reflexivity].
  - intros H. injection H as H. right. split; [|exact H].
    rewrite <- H. discriminate.
Qed.

Lemma tokens_and_runs (t : string) :
  trimEnd t = t -> t <> "" ->
  tokens true t = ws_runs false t /\ tokens false t = S (ws_runs true t).
Proof.
  induction t as [|c t IH]; intros Hfix Hne; [contradiction|].
  apply trimEnd_fixed_cons in Hfix. cbn [tokens ws_runs].
  destruct Hfix as [[Ht Hc] | [Ht Hfix]].
  - subst t. rewrite Hc. split; reflexivity.
  - destruct (IH Hfix Ht) as [IHt IHf].
    destruct (is_space c); rewrite ?IHt, ?IHf; split; reflexivity.
Qed.

Lemma tokens_of_tight (t : string) :
  trimStart t = t -> trimEnd t = t -> t <> "" ->
  tokens false t = S (ws_runs false t).
Proof.
  intros Hs He Hne. destruct t as [|c t]; [contradiction|].
  unfold trimStart in Hs. cbn [drop_while] in Hs.
  destruct (is_space c) eqn:Hc.
  - exfalso.
    pose proof (length_drop_while is_space t) as Hl. rewrite Hs in Hl.
    cbn [String.length] in Hl. lia.
  - cbn [tokens ws_runs]. rewrite Hc.
    apply trimEnd_fixed_cons in He. destruct He as [[Ht _] | [Ht He]].
    + subst t. reflexivity.
    + destruct (tokens_and_runs t He Ht) as [H _]. rewrite H. reflexivity.
Qed.

(** [countWords] counts the white-space-separated tokens. *)
Lemma countWords_tokens (text : string) : countWords text = token_count text.
Proof.
  unfold countWords, token_count.
  destruct text as [|c text']; [reflexivity|].
  set (text := String c text'). cbn [truthy negb orb].
  rewrite <- (tokens_trim text).
  destruct (trim_tight text) as [Hs He].
  destruct (trim text) as [|a t] eqn:Ht; [reflexivity|].
  cbn [String.length Nat.eqb]. unfold split.
  rewrite (proj1 (split_ws_length (String a t))).
  symmetry. apply tokens_of_tight; [exact Hs|exact He|discriminate].
Qed.

(** [d <= 0] holds of the zeros, the negative numbers and the negative
    infinity. *)
Lemma nonpositive_spec (d : JsNumber.number) :
  nonpositive d = true <-> not_positive d.
Proof.
  unfold nonpositive, JsNumber.le, JsNumber.zero, SFleb, SFcompare, not_positive.
  destruct d as [s|s| |s m e]; try destruct s; cbn; split; intro H;
    first [reflexivity | discriminate | exact I | contradiction].
Qed.

Lemma pow_pos_Z (k : positive) : Z.pos (2 ^ k) = (2 ^ Z.pos k)%Z.
Proof. rewrite Pos2Z.inj_pow. reflexivity. Qed.

(** Half of the denominator is added before the division: the quotient
    is the nearest integer, the upper one on a tie. *)
Lemma nearest_half (a : Z) (k : positive) :
  nearest (Qmake a (2 ^ k)) ((2 * a + 2 ^ Z.pos k) / (2 * 2 ^ Z.pos k)).
Proof.
  assert (Hp : (0 < 2 ^ Z.pos k)%Z) by (apply Z.pow_pos_nonneg; lia).
  set (d := (2 ^ Z.pos k)%Z) in *.
  pose proof (Z.div_mod (2 * a + d) (2 * d) ltac:(lia)) as Hdm.
  pose proof (Z.mod_pos_bound (2 * a + d) (2 * d) ltac:(lia)) as Hb.
  set (z := ((2 * a + d) / (2 * d))%Z) in *.
  unfold nearest, Qle, Qlt, Qminus, Qplus, Qopp, inject_Z.
  cbn [Qnum Qden]. rewrite pow_pos_Z. fold d.
  split; nia.
Qed.

Lemma nearest_whole (z : Z) : nearest (inject_Z z) z.
Proof.
  unfold nearest, Qle, Qlt, Qminus, Qplus, Qopp, inject_Z. cbn [Qnum Qden].
  split; lia.
Qed.

Lemma integer_of (s : bool) (z : Z) :
  integer z (if (z =? 0)%Z then S754_zero s else JsNumber.of_Z z).
Proof.
  destruct z; cbn [Z.eqb integer]; [exists s; reflexivity|reflexivity|reflexivity].
Qed.

(** [Math.round] gives the nearest integer. *)
Lemma round_rounded (x : JsNumber.number) : rounded x (JsNumber.round x).
Proof.
  destruct x as [s|s| |s m e]; cbn [rounded JsNumber.round]; try reflexivity.
  destruct e as [|p|k]; eexists; (split; [|apply integer_of]); cbn [value];
    first [apply nearest_whole | apply nearest_half].
Qed.

Example metrics_of_sample :
  computeSessionMetrics "2025-01-01T00:00:00.000Z" "id-1"
    "um so like I think this works" None (JsNumber.of_Z 10)
  = Some {| totalWords := 7; sessionDuration := JsNumber.of_Z 10;
            wordsPerMinute := JsNumber.of_Z 42;
            fillerWords := 3;
            fillerWordsBreakdown :=
              [("um", 1); ("uh", 0); ("er", 0); ("ah", 0); ("like", 1);
               ("basically", 0); ("literally", 0); ("actually", 0);
               ("obviously", 0); ("clearly", 0); ("anyway", 0); ("so", 1);
               ("well", 0); ("right", 0); ("okay", 0); ("alright", 0);
               ("i mean", 0); ("you know", 0); ("sort of", 0); ("kind of", 0)];
            uniqueWords := 7; averageWordsPerSentence := JsNumber.of_Z 7;
            speechRate := JsNumber.of_Z 138; cleanupUsed := FlagNull;
            wordsRemoved := 0;
            timestamp := "2025-01-01T00:00:00.000Z"; sessionId := "id-1" |}.
Proof. vm_compute. reflexivity. Qed.

(** The quotient and the product are rounded to binary64 before
    [Math.round] sees them: 41 words in 40 seconds are 61 words per minute,
    the product being the number just below 61.5. *)
Example wpm_of_41_words_in_40_seconds :
  calculateWPM (String.concat " " (List.repeat "a" 41)) (JsNumber.of_Z 40)
  = JsNumber.of_Z 61.
Proof. vm_compute. reflexivity. Qed.

End MetricsFacts.

(** C8. [computeSessionMetrics] returns [null] when the raw text is empty
    or the duration is zero or below.  Otherwise it returns metrics whose
    [totalWords] is the number of white-space-separated tokens of the whole
    raw text and whose [wordsPerMinute] is that number divided by the
    duration, times 60, rounded: the quotient and the product are those of
    the numbers of the language, and the rounding gives the nearest integer,
    the upper one on a tie.  On the sample of the specification the total is
    7, the fillers [um], [so] and [like] are counted once each, and the rate
    is 42. *)
Theorem session_metrics_contract :
  (forall (now uuid raw : string) (cleaned : option string) (d : JsNumber.number),
      raw = "" \/ Notions.not_positive d ->
      Metrics.computeSessionMetrics now uuid raw cleaned d = None)
  /\ (forall (now uuid raw : string) (cleaned : option string) (d : JsNumber.number),
         raw <> "" -> ~ Notions.not_positive d ->
         exists m,
           Metrics.computeSessionMetrics now uuid raw cleaned d = Some m
           /\ Metrics.totalWords m = Notions.token_count raw
           /\ Notions.rounded
                (SFmul 53 1024
                   (SFdiv 53 1024
                      (binary_normalize 53 1024
                         (Z.of_nat (Notions.token_count raw)) 0 false)
                      d)
                   (binary_normalize 53 1024 60 0 false))
                (Metrics.wordsPerMinute m))
  /\ (forall now uuid : string,
         exists m,
           Metrics.computeSessionMetrics now uuid "um so like I think this works" None
             (binary_normalize 53 1024 10 0 false)
           = Some m
           /\ Metrics.totalWords m = 7
           /\ Metrics.lookup "um" (Metrics.fillerWordsBreakdown m) = Some 1
           /\ Metrics.lookup "so" (Metrics.fillerWordsBreakdown m) = Some 1
           /\ Metrics.lookup "like" (Metrics.fillerWordsBreakdown m) = Some 1
           /\ Metrics.wordsPerMinute m = binary_normalize 53 1024 42 0 false).
Proof.
  split; [|split].
  - intros now uuid raw cleaned d [Hraw | Hd]; unfold Metrics.computeSessionMetrics.
    + subst raw. reflexivity.
    + apply MetricsFacts.nonpositive_spec in Hd. rewrite Hd.
      rewrite orb_true_r. reflexivity.
  - intros now uuid raw cleaned d Hraw Hd.
    assert (Hpos : Metrics.nonpositive d = false).
    { destruct (Metrics.nonpositive d) eqn:Hn; [|reflexivity].
      apply MetricsFacts.nonpositive_spec in Hn. contradiction. }
    unfold Metrics.computeSessionMetrics.
    apply StringFacts.truthy_true in Hraw. rewrite Hraw, Hpos.
    cbn [negb orb]. eexists. split; [reflexivity|].
    cbn [Metrics.totalWords Metrics.wordsPerMinute].
    unfold Metrics.calculateWPM. rewrite Hpos.
    rewrite MetricsFacts.countWords_tokens. split; [reflexivity|].
    apply MetricsFacts.round_rounded.
  - intros now uuid. eexists. split; [reflexivity|].
    vm_compute. repeat split.
Qed.

(** C8 at an empty text, at a zero duration, and at three tokens spoken
    in a second and a half. *)
Lemma session_metrics_contract_witness :
  Metrics.computeSessionMetrics "t" "u" "" None (JsNumber.of_Z 10) = None
  /\ Metrics.computeSessionMetrics "t" "u" "hello" None JsNumber.zero = None
  /\ exists m,
       Metrics.computeSessionMetrics "t" "u" "well, hello  there" None
         (JsNumber.div (JsNumber.of_Z 3) (JsNumber.of_Z 2)) = Some m
       /\ Metrics.totalWords m = Notions.token_count "well, hello  there"
       /\ Notions.rounded
            (SFmul 53 1024
               (SFdiv 53 1024
                  (binary_normalize 53 1024
                     (Z.of_nat (Notions.token_count "well, hello  there")) 0 false)
                  (JsNumber.div (JsNumber.of_Z 3) (JsNumber.of_Z 2)))
               (binary_normalize 53 1024 60 0 false))
            (Metrics.wordsPerMinute m).
Proof.
  split; [|split].
  - apply (proj1 session_metrics_contract). left. reflexivity.
  - apply (proj1 session_metrics_contract). right. exact I.
  - apply (proj1 (proj2 session_metrics_contract)); [discriminate|].
    vm_compute. discriminate.
Defined.

(* ================================================================== *)
(** * Properties of the preset manager *)
(* ================================================================== *)

Module PresetFacts.
Import JsString Presets Notions.

Lemma first_run_has_three_system_presets :
  List.map fst (presets first_run)
  = ["default-email"; "default-professional"; "default-basic"]
  /\ custom_count (presets first_run) = 0.
Proof. vm_compute. split; reflexivity. Qed.

(** A disabled preset whose id is the stored selection resolves to Off. *)
Example disabled_selection_resolves_to_off :
  let off := {| id := "custom-1"; name := "Mine"; prompt := "{transcript}";
                isDefault := Some false; isSystem := false; enabled := false;
                createdAt := Millis 1; lastUsed := None; usageCount := 0 |} in
  let s := {| presets := [("custom-1", off)]; selectedPresetId := Some "custom-1";
              initialized := true; store := empty_store |} in
  fst (getSelectedPreset 0 s) = None.
Proof. vm_compute. reflexivity. Qed.

End PresetFacts.

(** C9. Whatever the state of the manager, [getSelectedPreset] yields
    either nothing (Off) or the preset stored under the selected id, and that
    preset is enabled: a disabled preset is never returned, even when its id
    is the stored selection. *)
Theorem selected_preset_is_enabled :
  forall (now : N) (s : Presets.State),
    match Presets.getSelectedPreset now s with
    | (None, _) => True
    | (Some p, s') =>
        Presets.enabled p = true
        /\ exists sel, Presets.selectedPresetId s' = Some sel
                       /\ JsMap.get sel (Presets.presets s') = Some p
    end.
Proof.
  intros now s. unfold Presets.getSelectedPreset.
  set (s1 := if negb (Presets.initialized s) then Presets.init now s else s).
  destruct (Presets.selectedPresetId s1) as [sel|] eqn:Hsel; [|exact I].
  destruct (negb (JsString.truthy sel)); [exact I|].
  destruct (JsMap.get sel (Presets.presets s1)) as [p|] eqn:Hget; [|exact I].
  destruct (Presets.enabled p) eqn:Hen; cbn [negb]; [|exact I].
  split; [assumption|]. exists sel. split; assumption.
Qed.

(** C10 fails on the empty id: the guard of [selectPreset] tests the
    truthiness of its argument, so the empty string, like [null], is accepted
    although no preset has that id, and the selection changes. *)
Lemma select_empty_id_is_accepted :
  let s := Presets.with_selection (Some "default-email") Notions.first_run in
  JsMap.has "" (Presets.presets s) = false
  /\ fst (Presets.selectPreset (Some "") s) = true
  /\ Presets.selectedPresetId (snd (Presets.selectPreset (Some "") s))
     <> Presets.selectedPresetId s.
Proof. vm_compute. repeat split. discriminate. Qed.

(** C10, amended. [deletePreset] on the id of a system preset or on an id
    that is not in the collection throws, and [selectPreset] on a non-empty
    id that is not in the collection returns [false]; in each case the whole
    state (collection, selection, store) is left as it was. *)
Theorem failing_mutations_leave_state :
  forall (s : Presets.State) (i : string),
    ((JsMap.get i (Presets.presets s) = None
      \/ exists p, JsMap.get i (Presets.presets s) = Some p
                   /\ Presets.isSystem p = true) ->
     exists message, Presets.deletePreset i s = (Presets.Thrown message, s))
    /\ (i <> "" -> JsMap.get i (Presets.presets s) = None ->
        Presets.selectPreset (Some i) s = (false, s)).
Proof.
  intros s i. split.
  - intros [Hnone | [p [Hget Hsys]]]; unfold Presets.deletePreset.
    + rewrite Hnone. eexists. reflexivity.
    + rewrite Hget, Hsys. eexists. reflexivity.
  - intros Hne Hnone. unfold Presets.selectPreset, JsMap.has. rewrite Hnone.
    destruct i as [|c i']; [contradiction|reflexivity].
Qed.

(** The amended C10 after first run: deleting a system preset, selecting
    an unknown id. *)
Lemma failing_mutations_leave_state_witness :
  (exists message,
      Presets.deletePreset "default-email" Notions.first_run
      = (Presets.Thrown message, Notions.first_run))
  /\ Presets.selectPreset (Some "custom-404") Notions.first_run
     = (false, Notions.first_run).
Proof.
  split.
  - apply (proj1 (failing_mutations_leave_state Notions.first_run "default-email")).
    right. eexists. split; vm_compute; reflexivity.
  - apply (proj2 (failing_mutations_leave_state Notions.first_run "custom-404")).
    + discriminate.
    + vm_compute. reflexivity.
Defined.

(** C2 on [PresetManager.createCustomPreset]: the method compares no names.
    With a preset named [email] present, creating [Email] succeeds, and so
    did creating [email] next to the system preset [Email]. *)
Theorem create_ignores_name_collisions :
  let s0 := Notions.first_run in
  let r1 := Presets.createCustomPreset 1 "email" "Rewrite: {transcript}" s0 in
  let r2 := Presets.createCustomPreset 2 "Email" "Polish: {transcript}" (snd r1) in
  (exists p, fst r1 = Presets.Returned p /\ Presets.name p = "email")
  /\ (exists q, fst r2 = Presets.Returned q /\ Presets.name q = "Email")
  /\ List.map (fun kv => Presets.name (snd kv)) (Presets.presets (snd r2))
     = ["Email"; "Professional"; "Basic"; "email"; "Email"].
Proof.
  vm_compute. repeat split.
  - eexists. split; reflexivity.
  - eexists. split; reflexivity.
Qed.

(* ================================================================== *)
(** * The custom-preset limit over the life of the manager *)
(* ================================================================== *)

Module LimitFacts.
Import JsString Presets Notions.

(** ** Counting in an insertion-ordered map *)

Section Laws.
Context {V : Type}.

Lemma get_set_same (k : string) (v : V) (m : JsMap.t V) :
  JsMap.get k (JsMap.set k v m) = Some v.
Proof.
  induction m as [|[k' v'] m IH]; cbn [JsMap.set JsMap.get].
  - rewrite String.eqb_refl. reflexivity.
  - destruct (String.eqb k' k) eqn:Hk; cbn [JsMap.get].
    + rewrite String.eqb_refl. reflexivity.
    + rewrite Hk. exact IH.
Qed.

Lemma get_set_other (k k0 : string) (v : V) (m : JsMap.t V) :
  k <> k0 -> JsMap.get k0 (JsMap.set k v m) = JsMap.get k0 m.
Proof.
  intros Hne. induction m as [|[k' v'] m IH]; cbn [JsMap.set JsMap.get].
  - apply String.eqb_neq in Hne. rewrite Hne. reflexivity.
  - destruct (String.eqb k' k) eqn:Hk; cbn [JsMap.get].
    + apply String.eqb_eq in Hk. subst k'.
      apply String.eqb_neq in Hne. rewrite Hne. reflexivity.
    + destruct (String.eqb k' k0); [reflexivity|exact IH].
Qed.

Lemma has_set (k : string) (v : V) (m : JsMap.t V) :
  JsMap.has k (JsMap.set k v m) = true.
Proof. unfold JsMap.has. rewrite get_set_same. reflexivity. Qed.

End Laws.

Section Counting.
Context {V : Type} (P : V -> bool).

Lemma count_cons (k : string) (v : V) (m : JsMap.t V) :
  JsMap.count P ((k, v) :: m) = JsMap.weight P v + JsMap.count P m.
Proof. unfold JsMap.count, JsMap.weight. cbn. destruct (P v); reflexivity. Qed.

Lemma count_set_le (k : string) (v : V) (m : JsMap.t V) :
  JsMap.count P (JsMap.set k v m) <= JsMap.count P m + JsMap.weight P v.
Proof.
  induction m as [|[k' v'] m IH]; cbn [JsMap.set].
  - rewrite count_cons. unfold JsMap.count. cbn. lia.
  - destruct (String.eqb k' k); rewrite !count_cons; lia.
Qed.

Lemma count_set_same (k : string) (v v0 : V) (m : JsMap.t V) :
  JsMap.get k m = Some v0 -> P v = P v0 ->
  JsMap.count P (JsMap.set k v m) = JsMap.count P m.
Proof.
  intros Hget HP. induction m as [|[k' v'] m IH]; [discriminate|].
  cbn [JsMap.get JsMap.set] in *. destruct (String.eqb k' k).
  - injection Hget as ->. rewrite !count_cons. unfold JsMap.weight. rewrite HP.
    reflexivity.
  - rewrite !count_cons. rewrite IH by exact Hget. reflexivity.
Qed.

Lemma count_delete_le (k : string) (m : JsMap.t V) :
  JsMap.count P (JsMap.delete k m) <= JsMap.count P m.
Proof.
  induction m as [|[k' v'] m IH]; cbn [JsMap.delete]; [lia|].
  destruct (String.eqb k' k); rewrite !count_cons; lia.
Qed.

(** Writing entries one by one into a map adds at most their weights. *)
Lemma count_fold_entries (entries : list (string * V)) :
  forall m0,
    JsMap.count P (List.fold_left (fun obj kv => JsMap.set (fst kv) (snd kv) obj) entries m0)
    <= JsMap.count P m0 + JsMap.count P entries.
Proof.
  induction entries as [|[k v] entries IH]; intros m0; cbn [List.fold_left].
  - unfold JsMap.count at 3. cbn. lia.
  - rewrite count_cons. cbn [fst snd].
    pose proof (IH (JsMap.set k v m0)) as H1.
    pose proof (count_set_le k v m0) as H2. lia.
Qed.

Lemma count_fold_values (key : V -> string) (vs : list V) :
  forall m0,
    JsMap.count P (List.fold_left (fun m v => JsMap.set (key v) v m) vs m0)
    <= JsMap.count P m0 + List.length (List.filter P vs).
Proof.
  induction vs as [|v vs IH]; intros m0; cbn [List.fold_left].
  - cbn. lia.
  - pose proof (IH (JsMap.set (key v) v m0)) as H1.
    pose proof (count_set_le (key v) v m0) as H2.
    cbn [List.filter]. unfold JsMap.weight in H2.
    destruct (P v); cbn [List.length]; lia.
Qed.

Lemma count_nil : JsMap.count P [] = 0.
Proof. reflexivity. Qed.
End Counting.

(** ** The presets the limit is about *)

Lemma custom_count_count (m : JsMap.t Preset) :
  custom_count m = JsMap.count non_system m.
Proof. reflexivity. Qed.

Lemma created_le_custom (m : JsMap.t Preset) :
  JsMap.count created m <= custom_count m.
Proof.
  rewrite custom_count_count. unfold JsMap.count.
  induction (JsMap.values m) as [|p ps IH]; [reflexivity|].
  cbn [List.filter]. unfold created at 1.
  destruct (non_system p); cbn [andb]; [|exact IH].
  destruct (negb (is_migrated p)); cbn [List.length]; lia.
Qed.

Lemma created_eq_custom (m : JsMap.t Preset) :
  (forall p, In p (JsMap.values m) -> is_migrated p = false) ->
  JsMap.count created m = custom_count m.
Proof.
  intros Hno. rewrite custom_count_count. unfold JsMap.count. f_equal.
  apply List.filter_ext_in. intros p Hp. unfold created.
  rewrite (Hno p Hp). apply andb_true_r.
Qed.

(** ** Every operation keeps the limit *)

Lemma bounded_save (s : State) :
  JsMap.count created (presets s) <= 2 -> bounded (savePresets s).
Proof.
  intros H. split; [exact H|].
  cbn [savePresets with_store store stored_presets].
  pose proof (count_fold_entries created (presets s) []) as Hf.
  rewrite count_nil in Hf. lia.
Qed.

Lemma bounded_with_presets (m : JsMap.t Preset) (s : State) :
  bounded s -> JsMap.count created m <= 2 -> bounded (with_presets m s).
Proof. intros [_ Hs] Hm. split; [exact Hm|exact Hs]. Qed.

Lemma bounded_load (s : State) : bounded s -> bounded (loadPresets s).
Proof.
  intros [_ Hs]. split; [|exact Hs].
  unfold loadPresets. cbn [presets].
  pose proof (count_fold_values created id
                (JsMap.values (stored_presets (store s))) []) as Hf.
  rewrite count_nil in Hf. unfold JsMap.count in Hs. lia.
Qed.

(** Inserting a preset that does not JsMap.count keeps the bound. *)
Lemma set_uncounted (k : string) (p : Preset) (m : JsMap.t Preset) :
  created p = false -> JsMap.count created (JsMap.set k p m) <= JsMap.count created m.
Proof.
  intros Hp. pose proof (count_set_le created k p m) as H.
  unfold JsMap.weight in H. rewrite Hp in H. lia.
Qed.

Lemma bounded_defaults (now : N) (s : State) :
  bounded s -> bounded (ensureDefaultPresets now s).
Proof.
  intros Hb. unfold ensureDefaultPresets.
  assert (Hfold : forall defaults acc,
             (forall p, In p defaults -> created p = false) ->
             JsMap.count created (fst acc) <= 2 ->
             JsMap.count created
               (fst (List.fold_left
                       (fun '(m, needsSave) preset =>
                          if negb (JsMap.has (id preset) m)
                          then (JsMap.set (id preset) preset m, true)
                          else (m, needsSave)) defaults acc)) <= 2).
  { induction defaults as [|d ds IH]; intros [m b] Hd Hm; [exact Hm|].
    cbn [List.fold_left]. apply IH.
    - intros p Hp. apply Hd. right. exact Hp.
    - destruct (negb (JsMap.has (id d) m)); cbn [fst] in *; [|exact Hm].
      pose proof (set_uncounted (id d) d m (Hd d (or_introl eq_refl))). lia. }
  specialize (Hfold (getDefaultPresetsDefinition now) (presets s, false)).
  destruct (List.fold_left _ (getDefaultPresetsDefinition now) (presets s, false))
    as [m needsSave].
  assert (Hm : JsMap.count created m <= 2).
  { apply Hfold; [|exact (proj1 Hb)].
    intros p [<- | [<- | [<- | []]]]; reflexivity. }
  destruct needsSave.
  - apply bounded_save. exact Hm.
  - apply bounded_with_presets; assumption.
Qed.

Lemma migrate_one_bound (i n : string) (custom : option string)
      (flag : option bool) (now : N) (acc : JsMap.t Preset * nat) :
  existsb (String.eqb i) migrated_ids = true ->
  JsMap.count created (fst acc) <= 2 ->
  JsMap.count created (fst (migrate_one i n custom flag now acc)) <= 2.
Proof.
  intros Hi Hacc. unfold migrate_one.
  destruct custom as [p|]; [|exact Hacc].
  destruct (truthy p); [|exact Hacc]. cbn [fst].
  assert (Hc : created (migrated i n p flag now) = false).
  { unfold created, is_migrated. cbn [id migrated]. rewrite Hi.
    apply andb_false_r. }
  pose proof (set_uncounted i _ (fst acc) Hc). lia.
Qed.

Lemma bounded_migrate (now : N) (s : State) :
  bounded s -> bounded (migrateFromUrlSystem now s).
Proof.
  intros Hb. unfold migrateFromUrlSystem.
  set (a1 := migrate_one "migrated-twitter-x" _ _ _ now (presets s, 0)).
  set (a2 := migrate_one "migrated-linkedin" _ _ _ now a1).
  set (a3 := migrate_one "migrated-gmail" _ _ _ now a2).
  assert (H3 : JsMap.count created (fst a3) <= 2).
  { repeat (apply migrate_one_bound; [reflexivity|]). exact (proj1 Hb). }
  destruct (0 <? snd a3).
  - destruct (bounded_save (with_presets (fst a3) s) H3) as [Hm Hs].
    split; [exact Hm|exact Hs].
  - apply bounded_with_presets; assumption.
Qed.

Lemma bounded_init (now : N) (s : State) : bounded s -> bounded (init now s).
Proof.
  intros Hb. unfold init.
  pose proof (bounded_migrate now _ (bounded_defaults now _ (bounded_load s Hb)))
    as [Hm Hs].
  split; [exact Hm|exact Hs].
Qed.

Lemma bounded_create (now : N) (name_ prompt_ : string) (s : State) :
  bounded s -> bounded (snd (createCustomPreset now name_ prompt_ s)).
Proof.
  intros Hb. unfold createCustomPreset.
  destruct (negb (truthy name_) || negb (truthy prompt_)); [exact Hb|].
  destruct (2 <=? custom_count (presets s)) eqn:Hfull; [exact Hb|].
  apply Nat.leb_gt in Hfull. cbn [snd]. apply bounded_save. cbn [presets with_presets].
  match goal with
  | |- JsMap.count created (JsMap.set ?k ?p ?m) <= 2 =>
      pose proof (count_set_le created k p m) as Hset;
      assert (Hw : JsMap.weight created p <= 1)
        by (unfold JsMap.weight; destruct (created p); lia)
  end.
  pose proof (created_le_custom (presets s)). lia.
Qed.

Lemma bounded_usage (now : N) (i : string) (s : State) :
  bounded s -> bounded (updateUsageStats now i s).
Proof.
  intros Hb. unfold updateUsageStats.
  destruct (JsMap.get i (presets s)) as [p|] eqn:Hget; [|exact Hb].
  apply bounded_save. cbn [presets with_presets].
  rewrite (count_set_same created i _ p); [exact (proj1 Hb)|exact Hget|reflexivity].
Qed.

Lemma bounded_delete (i : string) (s : State) :
  bounded s -> bounded (snd (deletePreset i s)).
Proof.
  intros Hb. unfold deletePreset.
  destruct (JsMap.get i (presets s)) as [p|]; [|exact Hb].
  destruct (isSystem p); [exact Hb|]. cbn [snd]. apply bounded_save.
  pose proof (count_delete_le created i (presets s)) as Hd.
  pose proof (proj1 Hb).
  cbn [selectedPresetId with_presets].
  destruct (selectedPresetId s) as [sel|]; [destruct (String.eqb sel i)|];
    cbn [presets with_presets with_selection save_selection with_store]; lia.
Qed.

Lemma bounded_select (i : option string) (s : State) :
  bounded s -> bounded (snd (selectPreset i s)).
Proof.
  intros Hb. unfold selectPreset.
  destruct (truthy_id i && _); [exact Hb|exact Hb].
Qed.

Lemma bounded_resolve (now : N) (s : State) :
  bounded s -> bounded (snd (getSelectedPreset now s)).
Proof.
  intros Hb. unfold getSelectedPreset.
  assert (H1 : bounded (if negb (initialized s) then init now s else s))
    by (destruct (negb (initialized s)); [apply bounded_init|]; exact Hb).
  destruct (selectedPresetId _) as [sel|]; [|exact H1].
  destruct (negb (truthy sel)); [exact H1|].
  destruct (JsMap.get sel _) as [p|]; [|exact H1].
  destruct (negb (enabled p)); exact H1.
Qed.

(** A save under an id that is no key of the stored object leaves the
    stored presets as they are, whatever it answers. *)
Lemma save_unknown_id (f : Settings.Form) (st : Store) (editing : string) :
  Settings.currentEditingPreset f = Some editing ->
  JsMap.get editing (stored_presets st) = None ->
  snd (Settings.savePresetChanges f st) = st.
Proof.
  intros Hedit Hget. unfold Settings.savePresetChanges.
  destruct (negb (truthy _)); [reflexivity|].
  destruct (negb (truthy _)); [reflexivity|].
  destruct (2000 <? _); [reflexivity|].
  rewrite Hedit, Hget.
  destruct (negb (Settings.inherited editing)); [reflexivity|].
  destruct (negb _ && _); [reflexivity|].
  destruct (String.eqb editing "__proto__"); reflexivity.
Qed.

(** The cases of an id that is no key: in each the store is returned. *)
Ltac unknown_id H :=
  destruct (negb (Settings.inherited _)); [exact H|];
  destruct (negb _ && _); [exact H|];
  destruct (String.eqb _ "__proto__"); exact H.

Lemma bounded_settings (f : Settings.Form) (s : State) :
  bounded s ->
  bounded (with_store (snd (Settings.savePresetChanges f (store s))) s).
Proof.
  intros [Hm Hs]. split; [exact Hm|]. cbn [store with_store].
  unfold Settings.savePresetChanges.
  destruct (negb (truthy _)); [exact Hs|].
  destruct (negb (truthy _)); [exact Hs|].
  destruct (2000 <? _); [exact Hs|].
  destruct (Settings.currentEditingPreset f) as [editing|].
  - destruct (JsMap.get editing (stored_presets (store s))) as [p|] eqn:Hget;
      [|unknown_id Hs].
    destruct (isSystem p) eqn:Hsys.
    + cbn [snd Settings.store_presets stored_presets].
      rewrite (count_set_same created editing _ p); [exact Hs|exact Hget|].
      unfold created, non_system, is_migrated. cbn [isSystem id].
      rewrite Hsys. reflexivity.
    + destruct (negb _ && _); [exact Hs|].
      cbn [snd Settings.store_presets stored_presets].
      rewrite (count_set_same created editing _ p); [exact Hs|exact Hget|].
      unfold created, non_system, is_migrated. cbn [isSystem id].
      rewrite Hsys. reflexivity.
  - destruct (2 <=? custom_count (stored_presets (store s))) eqn:Hfull; [exact Hs|].
    destruct (Settings.name_taken _ _ _); [exact Hs|].
    apply Nat.leb_gt in Hfull.
    cbn [snd Settings.store_presets stored_presets].
    match goal with
    | |- JsMap.count created (JsMap.set ?k ?p ?m) <= 2 =>
        pose proof (count_set_le created k p m) as Hset;
        assert (Hw : JsMap.weight created p <= 1)
          by (unfold JsMap.weight; destruct (created p); lia)
    end.
    pose proof (created_le_custom (stored_presets (store s))). lia.
Qed.

Create HintDb limit.
#[local] Hint Resolve bounded_init bounded_migrate bounded_resolve bounded_select
  bounded_create bounded_usage bounded_delete bounded_settings : limit.

Lemma step_bounded (s s' : State) : step s s' -> bounded s -> bounded s'.
Proof. intros Hstep Hb. destruct Hstep; auto with limit. Qed.

Lemma reachable_bounded (s : State) : reachable s -> bounded s.
Proof.
  induction 1 as [st Hst | s s' _ IH Hstep].
  - split; cbn [fresh presets store]; [|rewrite Hst]; rewrite count_nil; lia.
  - exact (step_bounded s s' Hstep IH).
Qed.

(** One more operation at the end of a run: [by_step c] leaves the run
    before the operation of constructor [c]. *)
Ltac by_step c := eapply reach_step; [|apply c].

Lemma two_created_reachable : reachable two_created.
Proof.
  unfold two_created, first_run.
  by_step step_create. by_step step_create. by_step step_init.
  apply reach_fresh. reflexivity.
Qed.

(** With non-empty arguments, creation is refused for the limit exactly
    when two or more non-system presets are present. *)
Lemma create_limit (now : N) (name_ prompt_ : string) (s : State) :
  name_ <> "" -> prompt_ <> "" ->
  (fst (createCustomPreset now name_ prompt_ s) = Thrown limit_error
   <-> 2 <= custom_count (presets s)).
Proof.
  intros Hn Hp. unfold createCustomPreset.
  apply StringFacts.truthy_true in Hn. apply StringFacts.truthy_true in Hp.
  rewrite Hn, Hp. cbn [negb orb].
  destruct (2 <=? custom_count (presets s)) eqn:Hfull.
  - apply Nat.leb_le in Hfull. split; [intros _; exact Hfull|reflexivity].
  - apply Nat.leb_gt in Hfull. cbn [fst]. split; [discriminate|lia].
Qed.

End LimitFacts.

(** C3.  The limit is not kept.  Initialization over a store that holds
    the three legacy prompts migrates all three without consulting the
    limit: the manager reaches a state with three non-system presets, in
    memory and in the store, in which both creation paths refuse a further
    preset for the limit.  And the settings page, asked to save an edit of
    the id [constructor] while two custom presets are stored, takes the
    inherited member for the preset and writes a third entry that is no
    system preset. *)
Theorem limit_fails_after_migration :
  let s := Presets.init 0 (Presets.fresh Notions.upgraded_store) in
  let form editing :=
    {| Settings.nameField := "Third"; Settings.promptField := "C: {transcript}";
       Settings.enabledToggle := true; Settings.currentEditingPreset := editing;
       Settings.clock := "2025-01-02T00:00:00.000Z"; Settings.stamp := 3;
       Settings.suffix := "k3j9x0a1b" |} in
  (Notions.reachable s
   /\ Presets.custom_count (Presets.presets s) = 3
   /\ Presets.custom_count (Presets.stored_presets (Presets.store s)) = 3
   /\ fst (Presets.createCustomPreset 1 "Third" "C: {transcript}" s)
      = Presets.Thrown Presets.limit_error
   /\ fst (Settings.savePresetChanges (form None) (Presets.store s))
      = Settings.Alerted
          "Maximum of 2 custom presets allowed. Delete an existing custom preset first.")
  /\ (Notions.reachable Notions.two_created
      /\ Presets.custom_count
           (Presets.stored_presets (Presets.store Notions.two_created)) = 2
      /\ fst (Settings.savePresetChanges (form (Some "constructor"))
                (Presets.store Notions.two_created))
         = Settings.Strayed "constructor" "Third" "C: {transcript}" true).
Proof.
  cbv zeta. split; [split; [|split; [|split; [|split]]]|split; [|split]].
  - LimitFacts.by_step Notions.step_init. apply Notions.reach_fresh. reflexivity.
  - vm_compute. reflexivity.
  - vm_compute. reflexivity.
  - vm_compute. reflexivity.
  - vm_compute. reflexivity.
  - exact LimitFacts.two_created_reachable.
  - vm_compute. reflexivity.
  - vm_compute. reflexivity.
Qed.

(* ================================================================== *)
(** * The settings page does compare names *)
(* ================================================================== *)

Module SettingsFacts.
Import JsString Presets Settings.

(** The sibling creation path: a new preset whose trimmed name equals an
    existing name up to case is refused and the store is untouched. *)
Lemma save_refuses_taken_name :
  forall (f : Form) (st : Store),
    currentEditingPreset f = None ->
    name_taken (trim (nameField f)) None (stored_presets st) = true ->
    exists message, savePresetChanges f st = (Alerted message, st).
Proof.
  intros f st Hnew Htaken. unfold savePresetChanges.
  destruct (negb (truthy (trim (nameField f)))); [eexists; reflexivity|].
  destruct (negb (truthy (trim (promptField f)))); [eexists; reflexivity|].
  destruct (2000 <? String.length (trim (promptField f))); [eexists; reflexivity|].
  rewrite Hnew.
  destruct (2 <=? custom_count (stored_presets st)); [eexists; reflexivity|].
  rewrite Htaken. eexists; reflexivity.
Qed.

Example save_refuses_Email_next_to_email :
  let mine := {| id := "custom-1"; name := "email"; prompt := "{transcript}";
                 isDefault := None; isSystem := false; enabled := true;
                 createdAt := IsoDate "2025-01-01T00:00:00.000Z";
                 lastUsed := None; usageCount := 0 |} in
  let st := {| stored_presets := [("custom-1", mine)]; stored_selection := None;
               legacy := no_legacy |} in
  let f := {| nameField := "Email"; promptField := "Polish: {transcript}";
              enabledToggle := true; currentEditingPreset := None;
              clock := "2025-01-02T00:00:00.000Z"; stamp := 2; suffix := "k3j9x0a1b" |} in
  savePresetChanges f st
  = (Alerted "A preset with this name already exists. Please choose a different name.", st).
Proof. vm_compute. reflexivity. Qed.

End SettingsFacts.

(* ================================================================== *)
(** * Properties of the template engine *)
(* ================================================================== *)

Module TemplateFacts.
Import JsString Template.

(** Whenever the check finds a missing variable, nothing is substituted:
    the result is empty and the missing names are reported. *)
Lemma render_reports_missing :
  forall (template : string) (vars : variables),
    template <> "" ->
    findMissingVariables (extractTemplateVariables template) vars <> [] ->
    render template vars
    = {| success := false; result := "";
         missingVars := findMissingVariables (extractTemplateVariables template) vars;
         error := Some ("Missing required variables: "
                        ++ join ", " (findMissingVariables
                                        (extractTemplateVariables template) vars)) |}.
Proof.
  intros template vars Ht Hm. unfold render.
  destruct template as [|c t]; [contradiction|].
  cbn [truthy negb].
  destruct (findMissingVariables (extractTemplateVariables (String c t)) vars)
    as [|x xs]; [contradiction|reflexivity].
Qed.

(** A variable bound to [null], to [undefined] or to the empty string, or
    bound to nothing and not inherited, is missing. *)
Lemma missing_cases (varName : string) (vars : variables) :
  is_missing (lookup varName vars) = true <->
  (JsMap.get varName vars = Some Undefined
   \/ JsMap.get varName vars = Some Null
   \/ JsMap.get varName vars = Some (Str "")
   \/ (JsMap.get varName vars = None
       /\ existsb (String.eqb varName) object_prototype_names = false)).
Proof.
  unfold lookup. destruct (JsMap.get varName vars) as [[| |s]|].
  - cbn. intuition congruence.
  - cbn. intuition congruence.
  - destruct s; cbn; intuition congruence.
  - destruct (existsb _ _); cbn; intuition congruence.
Qed.

Example render_missing_a :
  success (render "{a}" []) = false /\ missingVars (render "{a}" []) = ["a"]
  /\ result (render "{a}" []) = "".
Proof. vm_compute. repeat split. Qed.

Example render_null_undefined_empty :
  missingVars (render "{a}{b}{c}{d}"
                 [("a", Null); ("b", Undefined); ("c", Str ""); ("d", Str "x")])
  = ["a"; "b"; "c"].
Proof. vm_compute. reflexivity. Qed.

Example render_round_trip :
  result (render "{a} and {b}" [("a", Str "x"); ("b", Str "y")]) = "x and y".
Proof. vm_compute. reflexivity. Qed.

End TemplateFacts.

(** C5 on a name inherited from [Object.prototype]: the placeholder
    [toString] occurs in the template and is absent from the mapping, yet
    [providedVars['toString']] is the inherited method, so the variable is
    not reported and rendering succeeds with the placeholder left in. *)
Theorem render_misses_inherited_name :
  let bound := [("transcript", Template.Str "hi");
                ("raw_transcript", Template.Str "hi")] in
  Template.extractTemplateVariables "Summary: {toString}" = ["toString"]
  /\ JsMap.get "toString" (@nil (string * Template.value)) = None
  /\ Template.render "Summary: {toString}" []
     = {| Template.success := true; Template.result := "Summary: {toString}";
          Template.missingVars := []; Template.error := None |}
  /\ JsMap.get "toString" bound = None
  /\ Template.render "Summary: {toString}" bound
     = {| Template.success := true; Template.result := "Summary: {toString}";
          Template.missingVars := []; Template.error := None |}.
Proof. vm_compute. repeat split. Qed.

(* ================================================================== *)
(** * Properties of the paragraph formatter *)
(* ================================================================== *)

(** C7 on a text of two sentences: the pieces of the split include the
    delimiters, so the text counts four pieces, enters the paragraph loop,
    and the transition word opens a second paragraph. *)
Theorem format_breaks_two_sentences :
  List.filter Format.nonblank
    (Regex.split Format.re_delimiters "I like it. However it rains.")
  = ["I like it"; "."; " However it rains"; "."]
  /\ Format.formatTextIntoParagraphs "I like it. However it rains."
     = "I like it." ++ JsString.nl ++ JsString.nl ++ "However it rains.".
Proof. vm_compute. split; reflexivity. Qed.

(* ================================================================== *)
(** * Properties of the enhancement service *)
(* ================================================================== *)

Module EnhanceFacts.
Import JsString Presets Enhance Notions.

(** A transcript of at most 4000 units is returned unchanged by every
    failure. *)
Lemma fallback_keeps_short_transcript :
  forall (env : Env) (raw : string) (pid : option string) (svc : Service),
    String.length raw <= 4000 ->
    success (fst (enhanceTranscript env raw pid svc)) = false ->
    result (fst (enhanceTranscript env raw pid svc)) = raw.
Proof.
  intros env raw pid svc Hlen. apply Nat.ltb_ge in Hlen.
  unfold enhanceTranscript.
  set (limit := 4000) in *. clearbody limit.
  destruct (isProcessing svc); [reflexivity|].
  destruct (match pid with
            | Some i => if truthy i
                        then (JsMap.get i (presets (presetManager svc)), presetManager svc)
                        else getSelectedPreset (now env) (presetManager svc)
            | None => getSelectedPreset (now env) (presetManager svc)
            end) as [[p|] m]; [|reflexivity].
  destruct (negb (truthy raw) || (String.length (trim raw) =? 0)); [reflexivity|].
  rewrite Hlen.
  destruct (negb (truthy (apiKey env))); [reflexivity|].
  destruct (negb (Template.success _)); [reflexivity|].
  destruct (callOpenAI _ _ _); [discriminate|reflexivity].
Qed.

(** Every failure yields [success = false] and carries either the
    transcript or, past 4000 units, its truncation. *)
Lemma fallback_text :
  forall (env : Env) (raw : string) (pid : option string) (svc : Service),
    success (fst (enhanceTranscript env raw pid svc)) = false ->
    result (fst (enhanceTranscript env raw pid svc)) = raw
    \/ (4000 < String.length raw
        /\ result (fst (enhanceTranscript env raw pid svc)) = take 4000 raw ++ "...").
Proof.
  intros env raw pid svc. unfold enhanceTranscript.
  set (limit := 4000). clearbody limit.
  destruct (isProcessing svc); [left; reflexivity|].
  destruct (match pid with
            | Some i => if truthy i
                        then (JsMap.get i (presets (presetManager svc)), presetManager svc)
                        else getSelectedPreset (now env) (presetManager svc)
            | None => getSelectedPreset (now env) (presetManager svc)
            end) as [[p|] m]; [|left; reflexivity].
  destruct (negb (truthy raw) || (String.length (trim raw) =? 0)); [left; reflexivity|].
  destruct (limit <? String.length raw) eqn:Hlong;
    [apply Nat.ltb_lt in Hlong|];
    (destruct (negb (truthy (apiKey env))); [auto|]);
    (destruct (negb (Template.success _)); [auto|]);
    (destruct (callOpenAI _ _ _); [discriminate|auto]).
Qed.

Example no_key_short :
  fst (enhanceTranscript no_key "hello there" None with_email_selected)
  = createFallbackResult "hello there" "no API key".
Proof. vm_compute. reflexivity. Qed.

End EnhanceFacts.

(** C1 on a transcript of 4001 units: the parameter is overwritten by its
    truncation before the credential check, so the fallback for a missing
    credential carries the first 4000 units and an ellipsis, not the original
    text; and so does the fallback for an error of the LLM collaborator. *)
Theorem fallback_returns_truncated_text :
  let raw := Notions.replicate 4001 "a" in
  let r := fst (Enhance.enhanceTranscript Notions.no_key raw None
                  Notions.with_email_selected) in
  let r' := fst (Enhance.enhanceTranscript Notions.rate_limited raw None
                   Notions.with_email_selected) in
  (Enhance.success r = false
   /\ Enhance.fallbackReason r = Some "no API key"
   /\ Enhance.result r = Notions.replicate 4000 "a" ++ "..."
   /\ String.length (Enhance.result r) = 4003
   /\ Enhance.result r <> raw)
  /\ (Enhance.success r' = false
      /\ Enhance.fallbackReason r' = Some "Rate limit exceeded"
      /\ Enhance.result r' = Notions.replicate 4000 "a" ++ "..."
      /\ Enhance.result r' <> raw).
Proof.
  vm_compute. repeat split; discriminate.
Qed.

(* ================================================================== *)
(** * Further properties of the word count and of the cleanup *)
(* ================================================================== *)

Module WordFacts.
Import JsChar JsString Format Notions StringFacts MetricsFacts.

Lemma tokens_app_space (inside : bool) (a b : string) :
  tokens inside (a ++ " " ++ b) = tokens inside a + tokens false b.
Proof.
  revert inside. induction a as [|c a IH]; intro inside.
  - reflexivity.
  - cbn [append tokens]. destruct (is_space c).
    + apply IH.
    + rewrite IH. lia.
Qed.

(** The final check of the cleanup returns the input when the phases
    leave nothing. *)
Lemma clean_nonblank :
  forall text : string,
    (text <> "" -> Cleanup.cleanTranscription text <> "")
    /\ (JsString.trim text <> "" -> JsString.trim (Cleanup.cleanTranscription text) <> "").
Proof.
  intro text. unfold Cleanup.cleanTranscription.
  set (c := Cleanup.ensure_ending (Cleanup.phases (Cleanup.truncate text))).
  clearbody c.
  destruct text as [|a t].
  - split; intro H; exfalso; apply H; reflexivity.
  - change (negb (JsString.truthy (String a t))) with false. cbv iota.
    destruct (negb (JsString.truthy c)) eqn:Hc.
    + change (true || _) with true. cbv iota. split; [discriminate|auto].
    + change (false || ?x) with x.
      destruct (String.eqb (JsString.trim c) "") eqn:He.
      * split; [discriminate|auto].
      * split.
        -- intros _ ->. discriminate Hc.
        -- intros _ E. rewrite E in He. discriminate He.
Qed.

End WordFacts.

(** X1.  [countWords] counts the white-space-separated tokens of the text:
    its maximal runs of units that are not white space.  Leading, trailing
    and repeated white space does not count, and a blank text has no
    word. *)
Theorem count_words_counts_tokens :
  forall text : string, Format.countWords text = Notions.token_count text.
Proof. exact MetricsFacts.countWords_tokens. Qed.

(** X2.  The word count is additive: two texts joined by a space have as
    many words as the two texts together. *)
Theorem count_words_of_joined_texts :
  forall a b : string,
    Format.countWords (a ++ " " ++ b) = Format.countWords a + Format.countWords b.
Proof.
  intros a b. rewrite !MetricsFacts.countWords_tokens. unfold Notions.token_count.
  apply WordFacts.tokens_app_space.
Qed.

(** X3.  [cleanTranscription] never blanks a text: a text with a unit that
    is not white space is cleaned to a text with such a unit, and a
    non-empty text is never cleaned to the empty one. *)
Theorem clean_keeps_text_nonblank :
  forall text : string,
    (text <> "" -> Cleanup.cleanTranscription text <> "")
    /\ (JsString.trim text <> "" -> JsString.trim (Cleanup.cleanTranscription text) <> "").
Proof. exact WordFacts.clean_nonblank. Qed.

Lemma clean_keeps_text_nonblank_witness :
  Cleanup.cleanTranscription "um" <> ""
  /\ JsString.trim (Cleanup.cleanTranscription "so, um, it works") <> "".
Proof.
  split.
  - apply (clean_keeps_text_nonblank "um"). discriminate.
  - apply (clean_keeps_text_nonblank "so, um, it works"). vm_compute. discriminate.
Defined.
(* ================================================================== *)
(** * Further properties of the enhancement service *)
(* ================================================================== *)

Module ServiceFacts.
Import JsString Presets Enhance StringFacts.

Lemma trim_idempotent (s : string) : trim (trim s) = trim s.
Proof.
  unfold trim at 1. destruct (trim_tight s) as [Hs He]. rewrite Hs. exact He.
Qed.

(** What [callOpenAI] returns is the trimmed first choice of an answer
    with a success status, and it is not empty. *)
Lemma call_returned (reply : string -> string -> fetched) (prompt_ key text : string) :
  callOpenAI reply prompt_ key = Returned text ->
  exists status content rest,
    reply prompt_ key = Responded status (Choices (content :: rest))
    /\ ok status = true /\ text = trim content /\ text <> "".
Proof.
  unfold callOpenAI.
  destruct (reply prompt_ key) as [|message|status [message|[|content rest]]];
    try discriminate.
  - destruct (negb (ok status)); discriminate.
  - destruct (negb (ok status)); [|discriminate].
    repeat (match goal with |- context [if ?b then _ else _] => destruct b end;
            try discriminate).
  - destruct (ok status) eqn:Hok; cbn [negb].
    + destruct (truthy (trim content)) eqn:Ht; cbn [negb]; [|discriminate].
      intro H. injection H as <-. exists status, content, rest.
      split; [reflexivity|]. split; [exact Hok|]. split; [reflexivity|].
      apply truthy_true. exact Ht.
    + repeat (match goal with |- context [if ?b then _ else _] => destruct b end;
              try discriminate).
Qed.

Lemma result_shapes :
  forall (env : Enhance.Env) (raw : string) (pid : option string)
         (svc : Enhance.Service),
    let r := fst (Enhance.enhanceTranscript env raw pid svc) in
    if Enhance.success r
    then Enhance.isOriginal r = false
         /\ Enhance.fallbackReason r = None
         /\ Enhance.result r <> ""
         /\ JsString.trim (Enhance.result r) = Enhance.result r
         /\ Enhance.charCount r = String.length (Enhance.result r)
         /\ Enhance.preset r <> None /\ Enhance.presetId r <> None
         /\ exists prompt_ status content rest,
              Enhance.reply env prompt_ (Enhance.apiKey env)
              = Enhance.Responded status (Enhance.Choices (content :: rest))
              /\ Enhance.ok status = true
              /\ Enhance.result r = JsString.trim content
    else Enhance.isOriginal r = true
         /\ Enhance.fallbackReason r <> None
         /\ Enhance.originalText r = Some (Enhance.result r)
         /\ Enhance.charCount r = String.length (Enhance.result r)
         /\ Enhance.preset r = None /\ Enhance.presetId r = None.
Proof.
  intros env raw pid svc. unfold Enhance.enhanceTranscript.
  set (limit := 4000). clearbody limit.
  assert (Hfail : forall text reason,
             let r := Enhance.createFallbackResult text reason in
             Enhance.isOriginal r = true
             /\ Enhance.fallbackReason r <> None
             /\ Enhance.originalText r = Some (Enhance.result r)
             /\ Enhance.charCount r = String.length (Enhance.result r)
             /\ Enhance.preset r = None /\ Enhance.presetId r = None).
  { intros text reason. cbn. repeat split. discriminate. }
  destruct (Enhance.isProcessing svc); [apply Hfail|].
  destruct (match pid with
            | Some i => if JsString.truthy i then _ else _
            | None => _
            end) as [[p|] m]; [|apply Hfail].
  destruct (negb (JsString.truthy raw) || _); [apply Hfail|].
  destruct (negb (JsString.truthy (Enhance.apiKey env))); [apply Hfail|].
  destruct (negb (Template.success _)); [apply Hfail|].
  destruct (Enhance.callOpenAI _ _ _) as [text|message] eqn:Hcall; [|apply Hfail].
  apply call_returned in Hcall.
  destruct Hcall as (status & content & rest & Hreply & Hok & Htext & Hne).
  cbn [fst Enhance.success Enhance.isOriginal Enhance.fallbackReason Enhance.result
       Enhance.charCount Enhance.preset Enhance.presetId].
  repeat split; try discriminate; try assumption.
  - rewrite Htext. apply trim_idempotent.
  - eauto 10.
Qed.

Lemma busy_fails (env : Env) (raw : string) (pid : option string) (svc : Service) :
  isProcessing svc = true ->
  success (fst (enhanceTranscript env raw pid svc)) = false.
Proof. intro H. unfold enhanceTranscript. rewrite H. reflexivity. Qed.

End ServiceFacts.

(** X4.  The busy flag of the enhancement service: a call on an idle
    service leaves the service idle on every path (the [finally] clause),
    and a call on a busy service returns the fallback [already processing]
    without touching the service. *)
Theorem enhance_releases_busy_flag :
  forall (env : Enhance.Env) (raw : string) (pid : option string)
         (svc : Enhance.Service),
    (Enhance.isProcessing svc = false ->
     Enhance.isProcessing (snd (Enhance.enhanceTranscript env raw pid svc)) = false)
    /\ (Enhance.isProcessing svc = true ->
        Enhance.enhanceTranscript env raw pid svc
        = (Enhance.createFallbackResult raw "already processing", svc)).
Proof.
  intros env raw pid svc. unfold Enhance.enhanceTranscript.
  set (limit := 4000). clearbody limit.
  destruct (Enhance.isProcessing svc); split; intro H; try discriminate H;
    [reflexivity|].
  destruct (match pid with
            | Some i => if JsString.truthy i then _ else _
            | None => _
            end) as [[p|] m]; [|reflexivity].
  destruct (negb (JsString.truthy raw) || _); [reflexivity|].
  destruct (negb (JsString.truthy (Enhance.apiKey env))); [reflexivity|].
  destruct (negb (Template.success _)); [reflexivity|].
  destruct (Enhance.callOpenAI _ _ _); reflexivity.
Qed.

Lemma enhance_releases_busy_flag_witness :
  Enhance.isProcessing
    (snd (Enhance.enhanceTranscript Notions.rate_limited "hello there" None
            Notions.with_email_selected)) = false.
Proof.
  apply (enhance_releases_busy_flag Notions.rate_limited "hello there" None
           Notions.with_email_selected).
  reflexivity.
Defined.

(** X5.  The two shapes of an enhancement result.  A failure is marked as
    the original text, names its reason, and its result, original text and
    character count agree; a success carries a non-empty text without
    white space at either end, which is the trimmed first choice of an
    answer with a success status, and names the preset used. *)
Theorem enhance_result_shapes :
  forall (env : Enhance.Env) (raw : string) (pid : option string)
         (svc : Enhance.Service),
    let r := fst (Enhance.enhanceTranscript env raw pid svc) in
    if Enhance.success r
    then Enhance.isOriginal r = false
         /\ Enhance.fallbackReason r = None
         /\ Enhance.result r <> ""
         /\ JsString.trim (Enhance.result r) = Enhance.result r
         /\ Enhance.charCount r = String.length (Enhance.result r)
         /\ Enhance.preset r <> None /\ Enhance.presetId r <> None
         /\ exists prompt_ status content rest,
              Enhance.reply env prompt_ (Enhance.apiKey env)
              = Enhance.Responded status (Enhance.Choices (content :: rest))
              /\ Enhance.ok status = true
              /\ Enhance.result r = JsString.trim content
    else Enhance.isOriginal r = true
         /\ Enhance.fallbackReason r <> None
         /\ Enhance.originalText r = Some (Enhance.result r)
         /\ Enhance.charCount r = String.length (Enhance.result r)
         /\ Enhance.preset r = None /\ Enhance.presetId r = None.
Proof. exact ServiceFacts.result_shapes. Qed.

(** X6.  [callOpenAI] returns a text only for an answer with a status
    between 200 and 299 whose first choice is not blank; the text is that
    choice, trimmed, and is not empty.  In every other case the call
    throws. *)
Theorem call_returns_usable_text_only :
  forall (reply : string -> string -> Enhance.fetched) (prompt_ key text : string),
    Enhance.callOpenAI reply prompt_ key = Presets.Returned text ->
    exists status content rest,
      reply prompt_ key = Enhance.Responded status (Enhance.Choices (content :: rest))
      /\ Enhance.ok status = true /\ text = JsString.trim content /\ text <> "".
Proof. exact ServiceFacts.call_returned. Qed.

Lemma call_returns_usable_text_only_witness :
  exists status content rest,
    Enhance.Responded 200 (Enhance.Choices ["  Dear all, hello.  "; "other"])
    = Enhance.Responded status (Enhance.Choices (content :: rest))
    /\ Enhance.ok status = true
    /\ "Dear all, hello." = JsString.trim content /\ "Dear all, hello." <> "".
Proof.
  apply (call_returns_usable_text_only
           (fun _ _ => Enhance.Responded 200
                         (Enhance.Choices ["  Dear all, hello.  "; "other"]))
           "prompt" "sk-test" "Dear all, hello.").
  reflexivity.
Defined.
(* ================================================================== *)
(** * Further properties of the template engine *)
(* ================================================================== *)

Module PlaceholderFacts.
Import JsChar JsString Regex Template TemplateSyntax.

Lemma dedupe_NoDup (xs : list string) : NoDup (dedupe xs).
Proof.
  induction xs as [|x xs IH]; cbn [dedupe]; constructor.
  - intro Hin. apply List.filter_In in Hin. destruct Hin as [_ Hx].
    rewrite String.eqb_refl in Hx. discriminate Hx.
  - apply List.NoDup_filter. exact IH.
Qed.

Lemma dedupe_In (x : string) (xs : list string) : In x (dedupe xs) -> In x xs.
Proof.
  induction xs as [|y xs IH]; cbn [dedupe]; [auto|].
  intros [->|Hin]; [left; reflexivity|].
  apply List.filter_In in Hin. right. apply IH. apply Hin.
Qed.

Lemma one_of_single (a c : ascii) :
  one_of (String a EmptyString) c = true -> c = a.
Proof.
  cbn [one_of]. rewrite Bool.orb_false_r. intro H.
  apply Ascii.eqb_eq in H. symmetry. exact H.
Qed.

Lemma startsWith_app (x rest : string) : startsWith (x ++ rest) x = true.
Proof.
  induction x as [|c x IH]; [destruct rest; reflexivity|].
  cbn [append startsWith]. rewrite Ascii.eqb_refl. exact IH.
Qed.

Lemma includes_unfold (s needle : string) :
  includes s needle
  = startsWith s needle
    || match s with
       | EmptyString => false
       | String _ s' => includes s' needle
       end.
Proof. destruct s; reflexivity. Qed.

Lemma includes_app (pre x rest : string) : includes (pre ++ x ++ rest) x = true.
Proof.
  induction pre as [|c pre IH].
  - cbn [append]. rewrite includes_unfold, startsWith_app. reflexivity.
  - cbn [append includes]. rewrite IH. apply Bool.orb_true_r.
Qed.

(** ** The iterations of a class *)

(** A greedy star over a class hands to its continuation a suffix of the
    subject, with the captures it received. *)
Lemma star_class_sound (p : ascii -> bool) (k : cont) (fuel : nat) :
  forall prev s caps res,
    star_loop (rmatch (Char p)) true k fuel prev s caps = Some res ->
    exists pre s' prev', s = pre ++ s' /\ k prev' s' caps = Some res.
Proof.
  set (body := rmatch (Char p)).
  assert (Hbody : forall prev s caps k',
             body prev s caps k'
             = match s with
               | String c s' => if p c then k' (Some c) s' caps else None
               | EmptyString => None
               end) by (intros prev s caps k'; destruct s; reflexivity).
  clearbody body.
  induction fuel as [|fuel IH]; intros prev s caps res H.
  - exists EmptyString, s, prev. split; [reflexivity|exact H].
  - cbn [star_loop] in H. rewrite Hbody in H.
    destruct s as [|c s'].
    + exists EmptyString, EmptyString, prev. split; [reflexivity|exact H].
    + destruct (p c).
      * destruct (String.length s' <? String.length (String c s')).
        -- destruct (star_loop body true k fuel (Some c) s' caps)
             as [res'|] eqn:E.
           ++ injection H as <-. apply IH in E.
              destruct E as (pre & s'' & prev' & -> & Hk).
              exists (String c pre), s'', prev'. split; [reflexivity|exact Hk].
           ++ exists EmptyString, (String c s'), prev. split; [reflexivity|exact H].
        -- exists EmptyString, (String c s'), prev. split; [reflexivity|exact H].
      * exists EmptyString, (String c s'), prev. split; [reflexivity|exact H].
Qed.

Lemma length_app (a b : string) :
  String.length (a ++ b) = String.length a + String.length b.
Proof. induction a as [|c a IH]; cbn; [reflexivity|rewrite IH; reflexivity]. Qed.

Lemma take_app (a b : string) : take (String.length a) (a ++ b) = a.
Proof. induction a as [|c a IH]; cbn; [destruct b; reflexivity|rewrite IH; reflexivity]. Qed.

(** A match of the placeholder pattern: an opening brace, a non-empty
    name, a closing brace; the name is the first capture. *)
Lemma match_placeholder (prev : option ascii) (s : string) (n : nat) (caps : captures) :
  match_at variablePattern prev s = Some (n, caps) ->
  exists v rest,
    s = "{" ++ v ++ "}" ++ rest /\ v <> "" /\ cap_get 1 caps = Some v.
Proof.
  unfold match_at, variablePattern, seqs, plus, cls, ncls.
  cbn [rmatch].
  destruct s as [|c s1]; [discriminate|].
  destruct (one_of "{" c) eqn:Hc; [|discriminate].
  apply one_of_single in Hc. subst c.
  destruct s1 as [|d s2]; [discriminate|].
  destruct (none_of "}" d); [|discriminate].
  destruct (star_loop _ _ _ _ _ _ _) as [[s3 caps3]|] eqn:E; [|discriminate].
  intro H. injection H as <- <-.
  apply star_class_sound in E. destruct E as (pre & s' & prev' & Hs2 & Hk).
  destruct s' as [|e s4]; [discriminate Hk|].
  destruct (one_of "}" e) eqn:He; [|discriminate Hk].
  apply one_of_single in He. subst e.
  unfold accept, cap_set in Hk. injection Hk as <- <-.
  exists (String d pre), s4. subst s2.
  split; [reflexivity|]. split; [discriminate|].
  cbn [cap_get Nat.eqb].
  replace (String.length (pre ++ String "}" s4) - String.length s4)
    with (String.length (String d pre)).
  - change (String d (pre ++ String "}" s4)) with (String d pre ++ String "}" s4).
    rewrite take_app. reflexivity.
  - cbn [String.length]. rewrite length_app. cbn [String.length]. lia.
Qed.

(** Every match a scan visits was found at a suffix of the subject. *)
Lemma exec_go_In (r : regex) (m : string) (caps : captures) :
  forall s skip prev,
    In (m, caps) (exec_go r skip prev s) ->
    exists pre s' prev' n, s = pre ++ s' /\ match_at r prev' s' = Some (n, caps).
Proof.
  induction s as [|c s IH]; intros skip prev Hin.
  - destruct skip; [|contradiction].
    cbn [exec_go] in Hin.
    destruct (match_at r prev EmptyString) as [[n caps']|] eqn:E; [|contradiction].
    destruct Hin as [Heq|[]]. injection Heq as _ <-.
    exists EmptyString, EmptyString, prev, n. split; [reflexivity|exact E].
  - destruct skip as [|skip].
    + cbn [exec_go] in Hin.
      destruct (match_at r prev (String c s)) as [[n caps']|] eqn:E.
      * destruct Hin as [Heq|Hin].
        -- injection Heq as _ <-.
           exists EmptyString, (String c s), prev, n. split; [reflexivity|exact E].
        -- apply IH in Hin. destruct Hin as (pre & s' & prev' & n' & -> & Hm).
           exists (String c pre), s', prev', n'. split; [reflexivity|exact Hm].
      * apply IH in Hin. destruct Hin as (pre & s' & prev' & n' & -> & Hm).
        exists (String c pre), s', prev', n'. split; [reflexivity|exact Hm].
    + cbn [exec_go] in Hin.
      apply IH in Hin. destruct Hin as (pre & s' & prev' & n' & -> & Hm).
      exists (String c pre), s', prev', n'. split; [reflexivity|exact Hm].
Qed.

(** ** Subjects in which a pattern cannot start *)

(** No unit of [s] satisfies [q]. *)
Lemma replace_go_none (r : regex) (rep : replacer) (q : ascii -> bool) :
  (forall prev, match_at r prev EmptyString = None) ->
  (forall prev c s, q c = false -> match_at r prev (String c s) = None) ->
  forall s prev before,
    (forall c, one_of s c = true -> q c = false) ->
    replace_go r rep 0 prev before s = s.
Proof.
  intros Hnil Hcons. induction s as [|c s IH]; intros prev before Hq.
  - cbn [replace_go]. rewrite Hnil. reflexivity.
  - cbn [replace_go]. rewrite Hcons.
    + rewrite IH; [reflexivity|].
      intros c' Hc'. apply Hq. cbn [one_of]. rewrite Hc'. apply Bool.orb_true_r.
    + apply Hq. cbn [one_of]. rewrite Ascii.eqb_refl. reflexivity.
Qed.

Lemma exec_go_none (r : regex) (q : ascii -> bool) :
  (forall prev, match_at r prev EmptyString = None) ->
  (forall prev c s, q c = false -> match_at r prev (String c s) = None) ->
  forall s prev,
    (forall c, one_of s c = true -> q c = false) ->
    exec_go r 0 prev s = [].
Proof.
  intros Hnil Hcons. induction s as [|c s IH]; intros prev Hq.
  - cbn [exec_go]. rewrite Hnil. reflexivity.
  - cbn [exec_go]. rewrite Hcons.
    + apply IH. intros c' Hc'. apply Hq. cbn [one_of]. rewrite Hc'.
      apply Bool.orb_true_r.
    + apply Hq. cbn [one_of]. rewrite Ascii.eqb_refl. reflexivity.
Qed.

Lemma brace_free_units (s : string) :
  one_of s "{" = false -> forall c, one_of s c = true -> Ascii.eqb "{" c = false.
Proof.
  intros Hs c Hc. destruct (Ascii.eqb "{" c) eqn:E; [|reflexivity].
  apply Ascii.eqb_eq in E. subst c. rewrite Hs in Hc. discriminate Hc.
Qed.

Lemma placeholder_needs_open :
  (forall prev, match_at variablePattern prev EmptyString = None)
  /\ (forall prev c s, Ascii.eqb "{" c = false ->
                       match_at variablePattern prev (String c s) = None).
Proof.
  split; [reflexivity|].
  intros prev c s Hc. unfold match_at, variablePattern, seqs, cls.
  cbn [rmatch one_of]. rewrite Hc. reflexivity.
Qed.

Lemma literal_needs_open (key : string) :
  (forall prev, match_at (lit false ("{" ++ key ++ "}")) prev EmptyString = None)
  /\ (forall prev c s, Ascii.eqb "{" c = false ->
                       match_at (lit false ("{" ++ key ++ "}")) prev (String c s) = None).
Proof.
  cbn [append lit]. destruct (key ++ "}") as [|k rest] eqn:E.
  - destruct key; discriminate E.
  - split; [reflexivity|].
    intros prev c s Hc. unfold match_at. cbn [rmatch].
    rewrite Hc. reflexivity.
Qed.

Lemma class_matches (a : ascii) (prev : option ascii) (s : string) :
  match_at (cls (String a EmptyString)) prev s
  = match s with
    | String c _ => if Ascii.eqb a c then Some (1, []) else None
    | EmptyString => None
    end.
Proof.
  unfold match_at, cls. cbn [rmatch one_of]. destruct s as [|c s]; [reflexivity|].
  rewrite Bool.orb_false_r. destruct (Ascii.eqb a c); [|reflexivity].
  unfold accept. cbn [String.length]. f_equal. f_equal. lia.
Qed.

End PlaceholderFacts.
Module RenderFacts.
Import JsChar JsString Regex Template TemplateSyntax PlaceholderFacts.

Lemma append_assoc (a b c : string) : (a ++ b) ++ c = a ++ b ++ c.
Proof. induction a as [|x a IH]; cbn [append]; [reflexivity|rewrite IH; reflexivity]. Qed.

Lemma extracted_occurs (template v : string) :
  In v (extractTemplateVariables template) ->
  v <> "" /\ includes template ("{" ++ v ++ "}") = true.
Proof.
  unfold extractTemplateVariables, exec_all. intro Hin.
  apply dedupe_In in Hin. apply List.in_map_iff in Hin.
  destruct Hin as [[m caps] [Hv Hin]]. cbn [snd] in Hv.
  apply exec_go_In in Hin. destruct Hin as (pre & s' & prev' & n & -> & Hm).
  apply match_placeholder in Hm. destruct Hm as (w & rest & -> & Hw & Hcap).
  rewrite Hcap in Hv. subst w. split; [exact Hw|].
  assert (E : "{" ++ v ++ "}" ++ rest = ("{" ++ v ++ "}") ++ rest).
  { cbn [append]. f_equal. symmetry. apply append_assoc. }
  rewrite E. apply includes_app.
Qed.

Lemma missing_sound (template : string) (vars : variables) (v : string) :
  In v (missingVars (render template vars)) ->
  In v (extractTemplateVariables template) /\ is_missing (lookup v vars) = true.
Proof.
  unfold render. destruct (negb (truthy template)); [intros []|].
  destruct (0 <? List.length _) eqn:E; [|intros []].
  cbn [missingVars]. unfold findMissingVariables. intro Hin.
  apply List.filter_In in Hin. exact Hin.
Qed.

Lemma missing_NoDup (template : string) (vars : variables) :
  NoDup (missingVars (render template vars)).
Proof.
  unfold render. destruct (negb (truthy template)); [constructor|].
  destruct (0 <? List.length _); [|constructor].
  cbn [missingVars]. unfold findMissingVariables, extractTemplateVariables.
  apply List.NoDup_filter. apply dedupe_NoDup.
Qed.

Lemma fold_substitute_free (template : string) (vars : variables) :
  one_of template "{" = false ->
  List.fold_left substitute vars template = template.
Proof.
  intro Hfree. induction vars as [|[key v] vars IH]; [reflexivity|].
  cbn [List.fold_left]. unfold substitute at 2. cbn [fst snd].
  unfold replace, replace_with.
  destruct (literal_needs_open key) as [Hnil Hcons].
  rewrite (replace_go_none _ _ (Ascii.eqb "{") Hnil Hcons).
  - exact IH.
  - apply brace_free_units. exact Hfree.
Qed.

Lemma count_class (a : ascii) (s : string) :
  forall prev,
    List.length (exec_go (cls (String a EmptyString)) 0 prev s)
    = List.length (List.filter (Ascii.eqb a) (list_ascii_of_string s)).
Proof.
  induction s as [|c s IH]; intro prev.
  - cbn [exec_go]. rewrite class_matches. reflexivity.
  - cbn [exec_go]. rewrite class_matches.
    cbn [list_ascii_of_string List.filter].
    destruct (Ascii.eqb a c).
    + cbn [Nat.pred List.length]. rewrite IH. reflexivity.
    + apply IH.
Qed.

End RenderFacts.

(** ** The scan over a template *)

Module ScanFacts.
Import JsChar JsString Regex Template TemplateSyntax PlaceholderFacts RenderFacts.

(** A greedy star over a class, followed by something that cannot start
    where the class goes on and does not look behind: the star takes the
    whole run. *)
Lemma star_class_then (p : ascii -> bool)
      (body : option ascii -> string -> captures -> cont -> Regex.result) (k : cont) :
  (forall prev s caps k',
      body prev s caps k'
      = match s with
        | String c s' => if p c then k' (Some c) s' caps else None
        | EmptyString => None
        end) ->
  (forall prev prev' s caps, k prev s caps = k prev' s caps) ->
  (forall prev c s caps, p c = true -> k prev (String c s) caps = None) ->
  forall (fuel : nat) (prev : option ascii) (s : string) (caps : captures),
    String.length s < fuel ->
    star_loop body true k fuel prev s caps = k None (drop_while p s) caps.
Proof.
  intros Hbody Hprev Hstop.
  induction fuel as [|fuel IH]; intros prev s caps Hlen; [lia|].
  cbn [star_loop]. rewrite Hbody.
  destruct s as [|c s']; [apply Hprev|].
  cbn [drop_while]. destruct (p c) eqn:Hc; [|apply Hprev].
  assert (Hlt : (String.length s' <? String.length (String c s')) = true)
    by (apply Nat.ltb_lt; cbn [String.length]; lia).
  rewrite Hlt. rewrite IH by (cbn [String.length] in Hlen; lia).
  destruct (k None (drop_while p s') caps) as [res|] eqn:E; [reflexivity|].
  apply Hstop. exact Hc.
Qed.

(** The placeholder pattern at a position: a brace, the run of units up
    to the next closing brace, which must not be empty, and that brace. *)
Lemma match_variable (prev : option ascii) (s : string) :
  match_at variablePattern prev s
  = match s with
    | String c (String d s2) =>
        if one_of "{" c && none_of "}" d
        then match drop_while (none_of "}") s2 with
             | String e s4 =>
                 if one_of "}" e
                 then Some (String.length s - String.length s4,
                            [(1, take (String.length (String d s2)
                                       - String.length (String e s4))
                                      (String d s2))])
                 else None
             | EmptyString => None
             end
        else None
    | _ => None
    end.
Proof.
  unfold match_at, variablePattern, seqs, plus, cls, ncls.
  destruct s as [|c [|d s2]]; cbn [rmatch].
  - reflexivity.
  - destruct (one_of "{" c); reflexivity.
  - destruct (one_of "{" c); cbn [andb]; [|reflexivity].
    destruct (none_of "}" d); [|reflexivity].
    rewrite (star_class_then (none_of "}") (rmatch (Char (none_of "}")))).
    + destruct (drop_while (none_of "}") s2) as [|e s4]; [reflexivity|].
      destruct (one_of "}" e); reflexivity.
    + intros ? [|? ?] ? ?; reflexivity.
    + intros ? ? [|? ?] ?; reflexivity.
    + intros prev0 c0 s0 caps0 Hc0. unfold none_of in Hc0.
      apply Bool.negb_true_iff in Hc0. rewrite Hc0. reflexivity.
    + lia.
Qed.

Lemma match_variable_prev (prev prev' : option ascii) (s : string) :
  match_at variablePattern prev s = match_at variablePattern prev' s.
Proof. rewrite !match_variable. reflexivity. Qed.

Lemma exec_prev (s : string) :
  forall skip prev prev',
    exec_go variablePattern skip prev s = exec_go variablePattern skip prev' s.
Proof.
  induction s as [|c s IH]; intros skip prev prev'.
  - destruct skip; [|reflexivity]. cbn [exec_go].
    rewrite (match_variable_prev prev prev'). reflexivity.
  - destruct skip as [|skip]; cbn [exec_go]; [|reflexivity].
    rewrite (match_variable_prev prev prev'). reflexivity.
Qed.

Lemma exec_skip (r : regex) (a rest : string) :
  forall prev,
    exists prev',
      exec_go r (String.length a) prev (a ++ rest) = exec_go r 0 prev' rest.
Proof.
  induction a as [|c a IH]; intro prev.
  - exists prev. reflexivity.
  - cbn [String.length append exec_go]. apply IH.
Qed.

Lemma exec_plain (text rest : string) :
  one_of text "{" = false ->
  forall prev,
    exec_go variablePattern 0 prev (text ++ rest)
    = exec_go variablePattern 0 None rest.
Proof.
  intro Hfree. induction text as [|c text IH]; intro prev.
  - apply exec_prev.
  - cbn [one_of] in Hfree. apply Bool.orb_false_iff in Hfree.
    destruct Hfree as [Hc Ht].
    cbn [append exec_go].
    rewrite (proj2 placeholder_needs_open) by exact Hc.
    apply IH. exact Ht.
Qed.

Lemma drop_name (name_ rest : string) :
  one_of name_ "}" = false ->
  drop_while (none_of "}") (name_ ++ String "}" rest) = String "}" rest.
Proof.
  intro H. induction name_ as [|c n IH]; [reflexivity|].
  cbn [one_of] in H. apply Bool.orb_false_iff in H. destruct H as [Hc Hn].
  cbn [append drop_while]. unfold none_of at 1. cbn [one_of].
  rewrite Bool.orb_false_r, Ascii.eqb_sym, Hc. cbn [negb]. apply IH. exact Hn.
Qed.

Lemma match_hole (name_ rest : string) (prev : option ascii) :
  name_ <> "" -> one_of name_ "}" = false ->
  match_at variablePattern prev ("{" ++ name_ ++ "}" ++ rest)
  = Some (S (String.length (name_ ++ "}")), [(1, name_)]).
Proof.
  intros Hne Hfree. rewrite match_variable.
  destruct name_ as [|d n]; [contradiction|].
  cbn [one_of] in Hfree. apply Bool.orb_false_iff in Hfree.
  destruct Hfree as [Hd Hn].
  change ("{" ++ String d n ++ "}" ++ rest)
    with (String "{" (String d (n ++ String "}" rest))).
  cbv beta iota. 
  replace (one_of "{" "{"%char) with true by reflexivity.
  unfold none_of at 1. cbn [one_of]. rewrite Bool.orb_false_r, Ascii.eqb_sym, Hd.
  cbn [negb andb]. rewrite drop_name by exact Hn.
  cbn [one_of]. rewrite Ascii.eqb_refl. cbn [orb].
  f_equal. f_equal.
  - cbn [String.length append]. rewrite !length_app. cbn [String.length]. lia.
  - f_equal. f_equal.
    replace (String.length (String d (n ++ String "}" rest))
             - String.length (String "}" rest))
      with (String.length (String d n)).
    + change (String d (n ++ String "}" rest)) with (String d n ++ String "}" rest).
      apply take_app.
    + cbn [String.length]. rewrite length_app. cbn [String.length]. lia.
Qed.

Lemma exec_hole (name_ rest : string) (prev : option ascii) :
  name_ <> "" -> one_of name_ "}" = false ->
  exists text,
    exec_go variablePattern 0 prev ("{" ++ name_ ++ "}" ++ rest)
    = (text, [(1, name_)]) :: exec_go variablePattern 0 None rest.
Proof.
  intros Hne Hfree.
  change ("{" ++ name_ ++ "}" ++ rest) with (String "{" (name_ ++ "}" ++ rest)).
  cbn [exec_go].
  change (String "{" (name_ ++ "}" ++ rest)) with ("{" ++ name_ ++ "}" ++ rest).
  rewrite (match_hole name_ rest prev Hne Hfree). cbn [Nat.pred].
  eexists. f_equal.
  assert (E : name_ ++ "}" ++ rest = (name_ ++ "}") ++ rest)
    by (symmetry; apply append_assoc).
  rewrite E.
  destruct (exec_skip variablePattern (name_ ++ "}") rest (Some "{"%char))
    as [prev' Hs].
  rewrite Hs. apply exec_prev.
Qed.

Lemma exec_pieces (ps : list piece) :
  well_written ps ->
  forall prev,
    List.map (fun m => match cap_get 1 (snd m) with
                       | Some v => v
                       | None => EmptyString
                       end)
             (exec_go variablePattern 0 prev (assemble ps))
    = holes ps.
Proof.
  induction ps as [|p ps IH]; intros Hw prev.
  - reflexivity.
  - assert (Hps : well_written ps) by (intros q Hq; apply Hw; right; exact Hq).
    pose proof (Hw p (or_introl eq_refl)) as Hp.
    destruct p as [text|name_]; cbn [assemble piece_text holes].
    + rewrite exec_plain by exact Hp. apply IH. exact Hps.
    + destruct Hp as [Hne Hfree].
      assert (E : ("{" ++ name_ ++ "}") ++ assemble ps
                  = "{" ++ name_ ++ "}" ++ assemble ps).
      { cbn [append]. f_equal. apply append_assoc. }
      rewrite E.
      destruct (exec_hole name_ (assemble ps) prev Hne Hfree) as [text Hx].
      rewrite Hx. cbn [List.map snd cap_get Nat.eqb]. f_equal.
      apply IH. exact Hps.
Qed.

Lemma extracted_pieces (ps : list piece) :
  well_written ps ->
  extractTemplateVariables (assemble ps) = dedupe (holes ps).
Proof.
  intro Hw. unfold extractTemplateVariables, exec_all.
  rewrite exec_pieces by exact Hw. reflexivity.
Qed.

End ScanFacts.

(** X7.  The variables extracted from a template are listed once each;
    each is a non-empty name that occurs between braces in the template;
    and when the template is written as plain text free of opening braces
    and placeholders with non-empty names free of closing braces, the list
    holds exactly the names of the placeholders, in the order of their first
    occurrences. *)
Theorem extracted_variables_are_placeholders :
  forall template : string,
    NoDup (Template.extractTemplateVariables template)
    /\ (forall v : string,
           In v (Template.extractTemplateVariables template) ->
           v <> "" /\ JsString.includes template ("{" ++ v ++ "}") = true)
    /\ (forall ps : list TemplateSyntax.piece,
           TemplateSyntax.well_written ps ->
           TemplateSyntax.assemble ps = template ->
           Template.extractTemplateVariables template
           = JsString.dedupe (TemplateSyntax.holes ps)).
Proof.
  intro template. split; [|split].
  - apply PlaceholderFacts.dedupe_NoDup.
  - intro v. apply RenderFacts.extracted_occurs.
  - intros ps Hw <-. apply ScanFacts.extracted_pieces. exact Hw.
Qed.

Lemma extracted_variables_are_placeholders_witness :
  ("transcript" <> ""
   /\ JsString.includes Presets.email_prompt ("{" ++ "transcript" ++ "}") = true)
  /\ Template.extractTemplateVariables "Dear {name}, {body} - yours, {name}}"
     = JsString.dedupe ["name"; "body"; "name"].
Proof.
  split.
  - apply (extracted_variables_are_placeholders Presets.email_prompt).
    vm_compute. left. reflexivity.
  - apply (proj2 (proj2 (extracted_variables_are_placeholders
                           "Dear {name}, {body} - yours, {name}}"))
             [TemplateSyntax.Plain "Dear "; TemplateSyntax.Hole "name";
              TemplateSyntax.Plain ", "; TemplateSyntax.Hole "body";
              TemplateSyntax.Plain " - yours, "; TemplateSyntax.Hole "name";
              TemplateSyntax.Plain "}"]).
    + intros p Hp. cbn [In] in Hp.
      repeat (destruct Hp as [<-|Hp];
              [first [reflexivity | split; [discriminate|reflexivity]]|]).
      destruct Hp.
    + reflexivity.
Defined.

(** X8.  The report of [render]: the missing names are listed once each,
    and each of them occurs as a placeholder of the template and is bound
    to nothing usable ([undefined], [null], the empty string, or no
    binding and no inherited member). *)
Theorem render_report_is_sound :
  forall (template : string) (vars : Template.variables),
    NoDup (Template.missingVars (Template.render template vars))
    /\ forall v : string,
         In v (Template.missingVars (Template.render template vars)) ->
         JsString.includes template ("{" ++ v ++ "}") = true
         /\ Template.is_missing (Template.lookup v vars) = true.
Proof.
  intros template vars. split.
  - apply RenderFacts.missing_NoDup.
  - intros v Hin. apply RenderFacts.missing_sound in Hin. destruct Hin as [He Hm].
    split; [|exact Hm]. apply RenderFacts.extracted_occurs. exact He.
Qed.

Lemma render_report_is_sound_witness :
  JsString.includes "{a} and {b} and {a}" ("{" ++ "a" ++ "}") = true
  /\ Template.is_missing (Template.lookup "a" [("b", Template.Str "y")]) = true.
Proof.
  apply (render_report_is_sound "{a} and {b} and {a}" [("b", Template.Str "y")]).
  vm_compute. left. reflexivity.
Defined.

(** X9.  A template without an opening brace has no placeholder: it is
    accepted by [validateTemplate] when it has no closing brace either, and
    [render] returns it unchanged, whatever the variables. *)
Theorem render_without_placeholders :
  forall (template : string) (vars : Template.variables),
    template <> "" ->
    JsChar.one_of template "{" = false ->
    Template.render template vars
    = {| Template.success := true; Template.result := template;
         Template.missingVars := []; Template.error := None |}
    /\ (JsChar.one_of template "}" = false ->
        TemplateSyntax.validateTemplate template = TemplateSyntax.Valid).
Proof.
  intros template vars Hne Hfree.
  assert (Hex : Regex.exec_all Template.variablePattern template = []).
  { destruct PlaceholderFacts.placeholder_needs_open as [Hnil Hcons].
    apply (PlaceholderFacts.exec_go_none _ (Ascii.eqb "{") Hnil Hcons).
    apply PlaceholderFacts.brace_free_units. exact Hfree. }
  split.
  - unfold Template.render.
    apply StringFacts.truthy_true in Hne. rewrite Hne. cbn [negb].
    unfold Template.extractTemplateVariables. rewrite Hex.
    cbn [List.map JsString.dedupe Template.findMissingVariables List.filter
         List.length Nat.ltb Nat.leb].
    rewrite RenderFacts.fold_substitute_free by exact Hfree. reflexivity.
  - intro Hclose. unfold TemplateSyntax.validateTemplate.
    apply StringFacts.truthy_true in Hne. rewrite Hne. cbn [negb].
    unfold Regex.match_all, Regex.exec_all. rewrite !List.length_map.
    unfold TemplateSyntax.re_open, TemplateSyntax.re_close.
    rewrite !RenderFacts.count_class.
    assert (Hnone : forall a s, JsChar.one_of s a = false ->
                                List.filter (Ascii.eqb a) (list_ascii_of_string s) = []).
    { intros a s. induction s as [|c s IH]; [reflexivity|].
      cbn [JsChar.one_of list_ascii_of_string List.filter].
      intro H. apply Bool.orb_false_iff in H. destruct H as [H1 H2].
      rewrite Ascii.eqb_sym, H1. apply IH. exact H2. }
    rewrite (Hnone "{"%char template Hfree), (Hnone "}"%char template Hclose).
    cbn [List.length Nat.eqb negb].
    destruct (JsString.includes template "{}") eqn:Hinc; [|reflexivity].
    exfalso. clear - Hfree Hinc.
    induction template as [|c t IH]; [discriminate Hinc|].
    cbn [JsChar.one_of] in Hfree. apply Bool.orb_false_iff in Hfree.
    destruct Hfree as [Hc Ht].
    cbn [JsString.includes JsString.startsWith] in Hinc.
    rewrite Ascii.eqb_sym, Hc in Hinc. cbn [andb orb] in Hinc.
    apply IH; assumption.
Qed.

Lemma render_without_placeholders_witness :
  Template.render "Rewrite politely." [("transcript", Template.Str "hi")]
  = {| Template.success := true; Template.result := "Rewrite politely.";
       Template.missingVars := []; Template.error := None |}
  /\ (JsChar.one_of "Rewrite politely." "}" = false ->
      TemplateSyntax.validateTemplate "Rewrite politely." = TemplateSyntax.Valid).
Proof.
  apply (render_without_placeholders "Rewrite politely."
           [("transcript", Template.Str "hi")]).
  - discriminate.
  - reflexivity.
Defined.
(* ================================================================== *)
(** * The shape of the preset collection is kept *)
(* ================================================================== *)

Module ShapeFacts.
Import JsString Presets Shape LimitFacts.

Section Maps.
Context {V : Type}.

Lemma get_In (k : string) (v : V) (m : JsMap.t V) :
  JsMap.get k m = Some v -> In (k, v) m.
Proof.
  induction m as [|[k' v'] m IH]; [discriminate|].
  cbn [JsMap.get]. destruct (String.eqb k' k) eqn:E.
  - intro H. injection H as <-. apply String.eqb_eq in E. subst k'. left. reflexivity.
  - intro H. right. apply IH. exact H.
Qed.

Lemma get_none_keys (k : string) (m : JsMap.t V) :
  JsMap.get k m = None <-> ~ In k (List.map fst m).
Proof.
  induction m as [|[k' v'] m IH]; cbn [JsMap.get List.map fst In].
  - split; [intros _ []|reflexivity].
  - destruct (String.eqb k' k) eqn:E.
    + apply String.eqb_eq in E. split; [discriminate|]. intro H. exfalso. apply H.
      left. exact E.
    + apply String.eqb_neq in E. rewrite IH. tauto.
Qed.

Lemma In_get (k : string) (v : V) (m : JsMap.t V) :
  distinct m -> In (k, v) m -> JsMap.get k m = Some v.
Proof.
  unfold distinct. induction m as [|[k' v'] m IH]; [intros _ []|].
  cbn [List.map fst]. intros Hd [Heq|Hin].
  - injection Heq as -> ->. cbn [JsMap.get]. rewrite String.eqb_refl. reflexivity.
  - inversion Hd as [|? ? Hnot Hd']; subst. cbn [JsMap.get].
    destruct (String.eqb k' k) eqn:E.
    + apply String.eqb_eq in E. subst k'. exfalso. apply Hnot.
      apply (List.in_map fst) in Hin. exact Hin.
    + apply IH; assumption.
Qed.

Lemma set_In (k k' : string) (v v' : V) (m : JsMap.t V) :
  In (k', v') (JsMap.set k v m) -> (k' = k /\ v' = v) \/ In (k', v') m.
Proof.
  induction m as [|[k0 v0] m IH]; cbn [JsMap.set].
  - intros [H|[]]. injection H as <- <-. left. split; reflexivity.
  - destruct (String.eqb k0 k).
    + intros [H|H].
      * injection H as <- <-. left. split; reflexivity.
      * right. right. exact H.
    + intros [H|H].
      * right. left. exact H.
      * apply IH in H. destruct H as [H|H]; [left; exact H|right; right; exact H].
Qed.

Lemma delete_In (k : string) (x : string * V) (m : JsMap.t V) :
  In x (JsMap.delete k m) -> In x m.
Proof.
  induction m as [|[k0 v0] m IH]; cbn [JsMap.delete]; [auto|].
  destruct (String.eqb k0 k).
  - intro H. right. exact H.
  - intros [H|H]; [left; exact H|right; apply IH; exact H].
Qed.

Lemma keys_set (k : string) (v : V) (m : JsMap.t V) :
  List.map fst (JsMap.set k v m)
  = match JsMap.get k m with
    | Some _ => List.map fst m
    | None => (List.map fst m ++ [k])%list
    end.
Proof.
  induction m as [|[k0 v0] m IH]; [reflexivity|].
  cbn [JsMap.set JsMap.get]. destruct (String.eqb k0 k) eqn:E.
  - apply String.eqb_eq in E. subst k0. reflexivity.
  - cbn [List.map fst]. rewrite IH. destruct (JsMap.get k m); reflexivity.
Qed.

Lemma distinct_set (k : string) (v : V) (m : JsMap.t V) :
  distinct m -> distinct (JsMap.set k v m).
Proof.
  unfold distinct. intro Hd. rewrite keys_set.
  destruct (JsMap.get k m) eqn:E; [exact Hd|].
  apply get_none_keys in E.
  apply List.NoDup_rev in Hd. rewrite <- (List.rev_involutive (_ ++ _)).
  apply List.NoDup_rev. rewrite List.rev_app_distr. cbn [List.rev List.app].
  constructor; [|exact Hd]. rewrite <- List.in_rev. exact E.
Qed.

Lemma distinct_delete (k : string) (m : JsMap.t V) :
  distinct m -> distinct (JsMap.delete k m).
Proof.
  unfold distinct. induction m as [|[k0 v0] m IH]; [auto|].
  cbn [JsMap.delete List.map fst]. intro Hd.
  inversion Hd as [|? ? Hnot Hd']; subst.
  destruct (String.eqb k0 k); [exact Hd'|].
  cbn [List.map fst]. constructor; [|apply IH; exact Hd'].
  intro Hin. apply Hnot. apply List.in_map_iff in Hin.
  destruct Hin as [x [Hx Hin]]. apply delete_In in Hin.
  rewrite <- Hx. apply List.in_map. exact Hin.
Qed.

Lemma get_delete_other (k k0 : string) (m : JsMap.t V) :
  k0 <> k -> JsMap.get k0 (JsMap.delete k m) = JsMap.get k0 m.
Proof.
  intro Hne. induction m as [|[k' v'] m IH]; [reflexivity|].
  cbn [JsMap.delete JsMap.get]. destruct (String.eqb k' k) eqn:E.
  - apply String.eqb_eq in E. subst k'.
    destruct (String.eqb k k0) eqn:E0; [|reflexivity].
    apply String.eqb_eq in E0. congruence.
  - cbn [JsMap.get]. rewrite IH. reflexivity.
Qed.

Lemma get_delete_same (k : string) (m : JsMap.t V) :
  distinct m -> JsMap.get k (JsMap.delete k m) = None.
Proof.
  unfold distinct. induction m as [|[k' v'] m IH]; [reflexivity|].
  cbn [JsMap.delete List.map fst]. intro Hd.
  inversion Hd as [|? ? Hnot Hd']; subst.
  destruct (String.eqb k' k) eqn:E.
  - apply String.eqb_eq in E. subst k'. apply get_none_keys. exact Hnot.
  - cbn [JsMap.get]. rewrite E. apply IH. exact Hd'.
Qed.

(** Writing the entries of a map one by one into an object extends the
    object by them, when no key comes twice. *)
Lemma fold_entries (l acc : JsMap.t V) :
  distinct (acc ++ l)%list ->
  List.fold_left (fun obj kv => JsMap.set (fst kv) (snd kv) obj) l acc
  = (acc ++ l)%list.
Proof.
  revert acc. induction l as [|[k v] l IH]; intros acc Hd.
  - rewrite List.app_nil_r. reflexivity.
  - cbn [List.fold_left fst snd].
    assert (Hset : JsMap.set k v acc = (acc ++ [(k, v)])%list).
    { assert (Hk : ~ In k (List.map fst acc)).
      { unfold distinct in Hd. rewrite List.map_app in Hd.
        cbn [List.map fst] in Hd. apply List.NoDup_remove_2 in Hd.
        intro Hin. apply Hd. apply List.in_or_app. left. exact Hin. }
      clear - Hk. induction acc as [|[k0 v0] acc IHa]; [reflexivity|].
      cbn [JsMap.set]. cbn [List.map fst In] in Hk.
      destruct (String.eqb k0 k) eqn:E.
      - apply String.eqb_eq in E. tauto.
      - cbn [List.app]. rewrite IHa; tauto. }
    rewrite Hset, IH.
    + rewrite <- List.app_assoc. reflexivity.
    + rewrite <- List.app_assoc. exact Hd.
Qed.

Lemma distinct_fold_entries (l acc : JsMap.t V) :
  distinct acc ->
  distinct (List.fold_left (fun obj kv => JsMap.set (fst kv) (snd kv) obj) l acc).
Proof.
  revert acc. induction l as [|[k v] l IH]; intros acc Hd; [exact Hd|].
  cbn [List.fold_left]. apply IH. apply distinct_set. exact Hd.
Qed.

Lemma distinct_fold_values (key : V -> string) (vs : list V) (acc : JsMap.t V) :
  distinct acc ->
  distinct (List.fold_left (fun m v => JsMap.set (key v) v m) vs acc).
Proof.
  revert acc. induction vs as [|v vs IH]; intros acc Hd; [exact Hd|].
  cbn [List.fold_left]. apply IH. apply distinct_set. exact Hd.
Qed.

End Maps.

(** ** Proper collections *)

Lemma proper_nil : proper [].
Proof. intros k p []. Qed.

Lemma proper_set (k : string) (p : Preset) (m : JsMap.t Preset) :
  proper m -> id p = k -> (In k system_ids -> isSystem p = true) ->
  proper (JsMap.set k p m).
Proof.
  intros Hm Hid Hsys k' p' Hin. apply set_In in Hin.
  destruct Hin as [[-> ->]|Hin]; [split; assumption|apply Hm; exact Hin].
Qed.

Lemma proper_delete (k : string) (m : JsMap.t Preset) :
  proper m -> proper (JsMap.delete k m).
Proof. intros Hm k' p' Hin. apply Hm. apply delete_In in Hin. exact Hin. Qed.

Lemma proper_fold_entries (l acc : JsMap.t Preset) :
  proper acc -> proper l ->
  proper (List.fold_left (fun obj kv => JsMap.set (fst kv) (snd kv) obj) l acc).
Proof.
  revert acc. induction l as [|[k p] l IH]; intros acc Ha Hl; [exact Ha|].
  cbn [List.fold_left fst snd]. apply IH.
  - destruct (Hl k p (or_introl eq_refl)) as [Hid Hsys].
    apply proper_set; assumption.
  - intros k' p' Hin. apply Hl. right. exact Hin.
Qed.

Lemma proper_fold_values (vs : list Preset) (acc : JsMap.t Preset) :
  proper acc ->
  (forall p, In p vs -> In (id p) system_ids -> isSystem p = true) ->
  proper (List.fold_left (fun m p => JsMap.set (id p) p m) vs acc).
Proof.
  revert acc. induction vs as [|p vs IH]; intros acc Ha Hvs; [exact Ha|].
  cbn [List.fold_left]. apply IH.
  - apply proper_set; [exact Ha|reflexivity|]. apply Hvs. left. reflexivity.
  - intros q Hq. apply Hvs. right. exact Hq.
Qed.

Lemma proper_values (m : JsMap.t Preset) :
  proper m ->
  forall p, In p (JsMap.values m) -> In (id p) system_ids -> isSystem p = true.
Proof.
  intros Hm p Hin Hsys. unfold JsMap.values in Hin. apply List.in_map_iff in Hin.
  destruct Hin as [[k q] [Hq Hin]]. cbn [snd] in Hq. subst q.
  destruct (Hm k p Hin) as [Hid Hk]. apply Hk. rewrite <- Hid. exact Hsys.
Qed.

(** ** Complete collections *)

Lemma complete_set (k : string) (p : Preset) (m : JsMap.t Preset) :
  complete m -> (In k system_ids -> isSystem p = true) ->
  complete (JsMap.set k p m).
Proof.
  intros Hm Hsys d Hd. destruct (String.eqb k d) eqn:E.
  - apply String.eqb_eq in E. subst d. exists p. split.
    + apply get_set_same.
    + apply Hsys. exact Hd.
  - apply String.eqb_neq in E. rewrite get_set_other by (intro; apply E; congruence).
    apply Hm. exact Hd.
Qed.

Lemma not_system_id (k : string) :
  existsb (String.eqb k) system_ids = false -> ~ In k system_ids.
Proof.
  intros H Hin. assert (E : existsb (String.eqb k) system_ids = true).
  { apply List.existsb_exists. exists k. split; [exact Hin|apply String.eqb_refl]. }
  rewrite H in E. discriminate E.
Qed.

Lemma custom_not_system (rest : string) : ~ In ("custom-" ++ rest) system_ids.
Proof.
  cbn [append system_ids In]. intros [H|[H|[H|[]]]]; discriminate H.
Qed.

End ShapeFacts.
Module SoundFacts.
Import JsString Presets Shape LimitFacts ShapeFacts.

Lemma wf_nil : well_formed [].
Proof. split; [constructor|apply proper_nil]. Qed.

Lemma wf_set (k : string) (p : Preset) (m : JsMap.t Preset) :
  well_formed m -> id p = k -> (In k system_ids -> isSystem p = true) ->
  well_formed (JsMap.set k p m).
Proof.
  intros [Hd Hp] Hid Hsys. split; [apply distinct_set; exact Hd|].
  apply proper_set; assumption.
Qed.

Lemma wf_delete (k : string) (m : JsMap.t Preset) :
  well_formed m -> well_formed (JsMap.delete k m).
Proof.
  intros [Hd Hp]. split; [apply distinct_delete; exact Hd|apply proper_delete; exact Hp].
Qed.

(** What [savePresets] writes is the collection itself. *)
Lemma saved_presets (s : State) :
  distinct (presets s) ->
  stored_presets (store (savePresets s)) = presets s.
Proof.
  intro Hd. cbn [savePresets with_store store stored_presets].
  rewrite fold_entries; [reflexivity|exact Hd].
Qed.

Lemma sound_save (s : State) :
  well_formed (presets s) ->
  (initialized s = true -> complete (presets s)) ->
  sound (savePresets s).
Proof.
  intros Hwf Hc. split; [exact Hwf|]. split; [|exact Hc].
  rewrite saved_presets by apply Hwf. exact Hwf.
Qed.

Lemma sound_with_presets (m : JsMap.t Preset) (s : State) :
  sound s -> well_formed m -> (initialized s = true -> complete m) ->
  sound (with_presets m s).
Proof. intros (_ & Hs & _) Hm Hc. split; [exact Hm|]. split; [exact Hs|exact Hc]. Qed.

Lemma sound_with_store (st : Store) (s : State) :
  sound s -> well_formed (stored_presets st) -> sound (with_store st s).
Proof. intros (Hm & _ & Hc) Hs. split; [exact Hm|]. split; [exact Hs|exact Hc]. Qed.

Lemma wf_loaded (m : JsMap.t Preset) :
  well_formed m ->
  well_formed (List.fold_left (fun acc p => JsMap.set (id p) p acc) (JsMap.values m) []).
Proof.
  intros [Hd Hp]. split.
  - apply distinct_fold_values. constructor.
  - apply proper_fold_values; [apply proper_nil|]. apply proper_values. exact Hp.
Qed.

(** The fold of [ensureDefaultPresets]. *)
Lemma defaults_fold (defaults : list Preset) :
  (forall p, In p defaults -> isSystem p = true) ->
  forall acc : JsMap.t Preset * bool,
    well_formed (fst acc) ->
    let m := fst (List.fold_left
                    (fun '(m, needsSave) preset =>
                       if negb (JsMap.has (id preset) m)
                       then (JsMap.set (id preset) preset m, true)
                       else (m, needsSave)) defaults acc) in
    well_formed m
    /\ (forall k p, JsMap.get k (fst acc) = Some p -> JsMap.get k m = Some p)
    /\ (forall p, In p defaults -> JsMap.has (id p) m = true).
Proof.
  induction defaults as [|d ds IH]; intros Hsys [m b] Hwf.
  - cbn [List.fold_left fst]. split; [exact Hwf|]. split; [auto|intros p []].
  - cbn [List.fold_left]. cbn [fst] in Hwf.
    assert (Hds : forall p, In p ds -> isSystem p = true)
      by (intros p Hp; apply Hsys; right; exact Hp).
    destruct (JsMap.has (id d) m) eqn:Hhas; cbn [negb].
    + destruct (IH Hds (m, b) Hwf) as (H1 & H2 & H3).
      split; [exact H1|]. split; [exact H2|].
      intros p [<-|Hp]; [|apply H3; exact Hp].
      unfold JsMap.has in *. destruct (JsMap.get (id d) m) as [q|] eqn:E;
        [|discriminate Hhas].
      cbn [fst] in H2. rewrite (H2 _ _ E). reflexivity.
    + assert (Hwf' : well_formed (JsMap.set (id d) d m)).
      { apply wf_set; [exact Hwf|reflexivity|].
        intros _. apply Hsys. left. reflexivity. }
      destruct (IH Hds (JsMap.set (id d) d m, true) Hwf') as (H1 & H2 & H3).
      split; [exact H1|]. cbn [fst] in *. split.
      * intros k p Hk. apply H2. rewrite get_set_other; [exact Hk|].
        intro E. subst k. unfold JsMap.has in Hhas. rewrite Hk in Hhas.
        discriminate Hhas.
      * intros p [<-|Hp]; [|apply H3; exact Hp].
        unfold JsMap.has at 1.
        rewrite (H2 _ _ (get_set_same (id d) d m)). reflexivity.
Qed.

Lemma has_complete (now : N) (m : JsMap.t Preset) :
  proper m ->
  (forall p, In p (getDefaultPresetsDefinition now) -> JsMap.has (id p) m = true) ->
  complete m.
Proof.
  intros Hp Hhas k Hk.
  assert (Hk' : JsMap.has k m = true).
  { destruct Hk as [<-|[<-|[<-|[]]]].
    - apply (Hhas (system_preset "default-email" "Email" email_prompt now)).
      left. reflexivity.
    - apply (Hhas (system_preset "default-professional" "Professional"
                                 professional_prompt now)).
      right. left. reflexivity.
    - apply (Hhas (system_preset "default-basic" "Basic" basic_prompt now)).
      right. right. left. reflexivity. }
  unfold JsMap.has in Hk'. destruct (JsMap.get k m) as [p|] eqn:E; [|discriminate Hk'].
  exists p. split; [reflexivity|]. apply get_In in E. apply (Hp k p E). exact Hk.
Qed.

Lemma shape_defaults (now : N) (s : State) :
  well_formed (presets s) -> well_formed (stored_presets (store s)) ->
  well_formed (presets (ensureDefaultPresets now s))
  /\ well_formed (stored_presets (store (ensureDefaultPresets now s)))
  /\ complete (presets (ensureDefaultPresets now s))
  /\ (forall k p, JsMap.get k (presets s) = Some p ->
                  JsMap.get k (presets (ensureDefaultPresets now s)) = Some p).
Proof.
  intros Hm Hs. unfold ensureDefaultPresets.
  assert (Hsys : forall p, In p (getDefaultPresetsDefinition now) -> isSystem p = true)
    by (intros p [<-|[<-|[<-|[]]]]; reflexivity).
  pose proof (defaults_fold (getDefaultPresetsDefinition now) Hsys (presets s, false) Hm)
    as Hfold.
  cbv zeta in Hfold.
  destruct (List.fold_left _ (getDefaultPresetsDefinition now) (presets s, false))
    as [m needsSave].
  cbn [fst] in Hfold. destruct Hfold as (Hwf & Hkeep & Hhas).
  assert (Hcomplete : complete m) by (apply (has_complete now); [apply Hwf|exact Hhas]).
  destruct needsSave.
  - split; [exact Hwf|]. split; [|split; [exact Hcomplete|exact Hkeep]].
    rewrite saved_presets by apply Hwf. exact Hwf.
  - split; [exact Hwf|]. split; [exact Hs|]. split; [exact Hcomplete|exact Hkeep].
Qed.

Lemma migrate_one_shape (i n : string) (custom : option string)
      (flag : option bool) (now : N) (acc : JsMap.t Preset * nat) :
  existsb (String.eqb i) system_ids = false ->
  well_formed (fst acc) ->
  well_formed (fst (migrate_one i n custom flag now acc))
  /\ (complete (fst acc) -> complete (fst (migrate_one i n custom flag now acc))).
Proof.
  intros Hi Hwf. unfold migrate_one.
  destruct custom as [p|]; [|split; [exact Hwf|auto]].
  destruct (truthy p); [|split; [exact Hwf|auto]]. cbn [fst].
  apply not_system_id in Hi. split.
  - apply wf_set; [exact Hwf|reflexivity|]. intro H. contradiction.
  - intro Hc. apply complete_set; [exact Hc|]. intro H. contradiction.
Qed.

Lemma shape_migrate (now : N) (s : State) :
  well_formed (presets s) -> well_formed (stored_presets (store s)) ->
  well_formed (presets (migrateFromUrlSystem now s))
  /\ well_formed (stored_presets (store (migrateFromUrlSystem now s)))
  /\ (complete (presets s) -> complete (presets (migrateFromUrlSystem now s))).
Proof.
  intros Hm Hst. unfold migrateFromUrlSystem.
  set (a1 := migrate_one "migrated-twitter-x" _ _ _ now (presets s, 0)).
  set (a2 := migrate_one "migrated-linkedin" _ _ _ now a1).
  set (a3 := migrate_one "migrated-gmail" _ _ _ now a2).
  destruct (migrate_one_shape "migrated-twitter-x" "Twitter/X (Migrated)"
              (twitterCustomPrompt (legacy (store s)))
              (twitterPresetEnabled (legacy (store s))) now (presets s, 0)
              eq_refl Hm) as [W1 C1].
  fold a1 in W1, C1.
  destruct (migrate_one_shape "migrated-linkedin" "LinkedIn (Migrated)"
              (linkedinCustomPrompt (legacy (store s)))
              (linkedinPresetEnabled (legacy (store s))) now a1 eq_refl W1)
    as [W2 C2].
  fold a2 in W2, C2.
  destruct (migrate_one_shape "migrated-gmail" "Gmail (Migrated)"
              (gmailCustomPrompt (legacy (store s)))
              (gmailPresetEnabled (legacy (store s))) now a2 eq_refl W2)
    as [W3 C3].
  fold a3 in W3, C3. cbn [fst] in C1.
  assert (C : complete (presets s) -> complete (fst a3)) by auto.
  destruct (0 <? snd a3).
  - split; [exact W3|]. split; [|exact C].
    cbn [with_store store stored_presets].
    rewrite (saved_presets (with_presets (fst a3) s)) by apply W3. exact W3.
  - split; [exact W3|]. split; [exact Hst|exact C].
Qed.

Lemma sound_migrate (now : N) (s : State) :
  sound s -> sound (migrateFromUrlSystem now s).
Proof.
  intros (Hm & Hs & Hc). destruct (shape_migrate now s Hm Hs) as (M & S & C).
  split; [exact M|]. split; [exact S|].
  intro Hi. apply C. apply Hc.
  revert Hi. unfold migrateFromUrlSystem.
  destruct (0 <? _); intro Hi; exact Hi.
Qed.

Lemma sound_init (now : N) (s : State) : sound s -> sound (init now s).
Proof.
  intros (_ & Hs & _). unfold init.
  assert (L : well_formed (presets (loadPresets s))) by (apply wf_loaded; exact Hs).
  destruct (shape_defaults now (loadPresets s) L Hs) as (D1 & D2 & D3 & _).
  destruct (shape_migrate now _ D1 D2) as (M1 & M2 & M3).
  split; [exact M1|]. split; [exact M2|]. intros _. apply M3. exact D3.
Qed.

Lemma sound_resolve (now : N) (s : State) :
  sound s -> sound (snd (getSelectedPreset now s)).
Proof.
  intro Hs. unfold getSelectedPreset.
  assert (H : sound (if negb (initialized s) then init now s else s))
    by (destruct (negb (initialized s)); [apply sound_init|]; exact Hs).
  destruct (selectedPresetId _) as [sel|]; [|exact H].
  destruct (negb (truthy sel)); [exact H|].
  destruct (JsMap.get sel _) as [p|]; [|exact H].
  destruct (negb (enabled p)); exact H.
Qed.

Lemma sound_select (i : option string) (s : State) :
  sound s -> sound (snd (selectPreset i s)).
Proof.
  intro Hs. unfold selectPreset. destruct (truthy_id i && _); exact Hs.
Qed.

Lemma sound_create (now : N) (name_ prompt_ : string) (s : State) :
  sound s -> sound (snd (createCustomPreset now name_ prompt_ s)).
Proof.
  intros Hs. pose proof Hs as (Hm & Hst & Hc). unfold createCustomPreset.
  destruct (negb (truthy name_) || negb (truthy prompt_)); [exact Hs|].
  destruct (2 <=? custom_count (presets s)); [exact Hs|].
  cbn [snd id]. apply sound_save.
  - cbn [with_presets presets]. apply wf_set; [exact Hm|reflexivity|].
    intro H. exfalso. exact (custom_not_system _ H).
  - cbn [with_presets presets initialized]. intro Hi.
    apply complete_set; [apply Hc; exact Hi|].
    intro H. exfalso. exact (custom_not_system _ H).
Qed.

Lemma sound_usage (now : N) (i : string) (s : State) :
  sound s -> sound (updateUsageStats now i s).
Proof.
  intros Hs. pose proof Hs as (Hm & Hst & Hc). unfold updateUsageStats.
  destruct (JsMap.get i (presets s)) as [p|] eqn:E; [|exact Hs].
  apply get_In in E. destruct (proj2 Hm i p E) as [Hid Hsys].
  apply sound_save.
  - cbn [with_presets presets]. apply wf_set; [exact Hm|exact Hid|exact Hsys].
  - cbn [with_presets presets initialized]. intro Hi.
    apply complete_set; [apply Hc; exact Hi|exact Hsys].
Qed.

Lemma complete_delete (i : string) (p : Preset) (m : JsMap.t Preset) :
  complete m -> JsMap.get i m = Some p -> isSystem p = false ->
  complete (JsMap.delete i m).
Proof.
  intros Hc Hget Hp k Hk. destruct (Hc k Hk) as (q & Hq & Hsys).
  exists q. split; [|exact Hsys]. rewrite get_delete_other; [exact Hq|].
  intro E. subst k. rewrite Hget in Hq. injection Hq as <-.
  rewrite Hp in Hsys. discriminate Hsys.
Qed.

Lemma sound_delete (i : string) (s : State) :
  sound s -> sound (snd (deletePreset i s)).
Proof.
  intros Hs. pose proof Hs as (Hm & Hst & Hc). unfold deletePreset.
  destruct (JsMap.get i (presets s)) as [p|] eqn:E; [|exact Hs].
  destruct (isSystem p) eqn:Hp; [exact Hs|].
  cbn [snd]. apply sound_save.
  - cbn [with_presets presets selectedPresetId].
    destruct (selectedPresetId s) as [sel|]; [destruct (String.eqb sel i)|];
      cbn [save_selection with_selection with_store presets];
      apply wf_delete; exact Hm.
  - cbn [with_presets presets selectedPresetId].
    destruct (selectedPresetId s) as [sel|]; [destruct (String.eqb sel i)|];
      cbn [save_selection with_selection with_store presets initialized];
      intro Hi; apply (complete_delete i p); auto.
Qed.

Lemma sound_settings (f : Settings.Form) (s : State) :
  sound s -> sound (with_store (snd (Settings.savePresetChanges f (store s))) s).
Proof.
  intros Hs. pose proof Hs as (Hm & Hst & Hc).
  apply sound_with_store; [exact Hs|].
  unfold Settings.savePresetChanges.
  destruct (negb (truthy (trim (Settings.nameField f)))); [exact Hst|].
  destruct (negb (truthy (trim (Settings.promptField f)))); [exact Hst|].
  destruct (2000 <? _); [exact Hst|].
  destruct (Settings.currentEditingPreset f) as [editing|].
  - destruct (JsMap.get editing (stored_presets (store s))) as [p|] eqn:E;
      [|unknown_id Hst].
    apply get_In in E. destruct (proj2 Hst editing p E) as [Hid Hsys].
    destruct (isSystem p) eqn:Hp.
    + cbn [snd Settings.store_presets stored_presets].
      apply wf_set; [exact Hst|exact Hid|reflexivity].
    + destruct (negb (String.eqb _ _) && _); [exact Hst|].
      cbn [snd Settings.store_presets stored_presets].
      apply wf_set; [exact Hst|exact Hid|]. cbn [isSystem]. exact Hsys.
  - destruct (2 <=? custom_count _); [exact Hst|].
    destruct (Settings.name_taken _ _ _); [exact Hst|].
    cbn [snd Settings.store_presets stored_presets].
    apply wf_set; [exact Hst|reflexivity|].
    intro H. exfalso. exact (custom_not_system _ H).
Qed.

Lemma sound_toggle (i : string) (s : State) :
  sound s -> sound (with_store (SettingsActions.togglePresetEnabled i (store s)) s).
Proof.
  intros Hs. pose proof Hs as (Hm & Hst & Hc).
  apply sound_with_store; [exact Hs|].
  unfold SettingsActions.togglePresetEnabled.
  destruct (JsMap.get i (stored_presets (store s))) as [p|] eqn:E; [|exact Hst].
  apply get_In in E. destruct (proj2 Hst i p E) as [Hid Hsys].
  cbn [Settings.store_presets stored_presets].
  apply wf_set; [exact Hst|exact Hid|exact Hsys].
Qed.

Lemma sound_remove (c : bool) (i : string) (s : State) :
  sound s -> sound (with_store (snd (SettingsActions.deletePreset c i (store s))) s).
Proof.
  intros Hs. pose proof Hs as (Hm & Hst & Hc).
  apply sound_with_store; [exact Hs|].
  unfold SettingsActions.deletePreset.
  assert (Hgo : well_formed
                  (stored_presets
                     (snd (if negb c then (SettingsActions.Declined, store s)
                           else
                             (SettingsActions.Removed,
                              match stored_selection
                                      (Settings.store_presets
                                         (JsMap.delete i (stored_presets (store s)))
                                         (store s)) with
                              | Some sel =>
                                  if String.eqb sel i
                                  then {| stored_presets :=
                                            stored_presets
                                              (Settings.store_presets
                                                 (JsMap.delete i (stored_presets (store s)))
                                                 (store s));
                                          stored_selection := None;
                                          legacy :=
                                            legacy
                                              (Settings.store_presets
                                                 (JsMap.delete i (stored_presets (store s)))
                                                 (store s)) |}
                                  else Settings.store_presets
                                         (JsMap.delete i (stored_presets (store s)))
                                         (store s)
                              | None => Settings.store_presets
                                          (JsMap.delete i (stored_presets (store s)))
                                          (store s)
                              end))))).
  { destruct (negb c); [exact Hst|]. cbn [snd Settings.store_presets stored_selection].
    destruct (stored_selection (store s)) as [sel|]; [destruct (String.eqb sel i)|];
      cbn [stored_presets]; apply wf_delete; exact Hst. }
  destruct (JsMap.get i (stored_presets (store s))) as [p|].
  - destruct (isSystem p); [exact Hst|exact Hgo].
  - destruct (Settings.inherited i); [exact Hgo|exact Hst].
Qed.

Lemma sound_load_data (c1 c2 c3 : string) (s : State) :
  sound s -> sound (with_store (SettingsActions.loadPresetData c1 c2 c3 (store s)) s).
Proof.
  intros Hs. pose proof Hs as (Hm & Hst & Hc).
  apply sound_with_store; [exact Hs|].
  unfold SettingsActions.loadPresetData.
  destruct (JsMap.size _ =? 0); [|exact Hst].
  cbn [SettingsActions.createDefaultPresets Settings.store_presets stored_presets].
  split.
  - unfold distinct. cbn [List.map fst].
    repeat constructor; cbn [In]; intuition discriminate.
  - intros k p [H|[H|[H|[]]]]; injection H as <- <-; split; reflexivity.
Qed.

Lemma step_sound (s s' : State) : step s s' -> sound s -> sound s'.
Proof.
  intros Hstep Hs. destruct Hstep as [s s' Hm|i s|c i s|c1 c2 c3 s].
  - destruct Hm.
    + apply sound_init; exact Hs.
    + apply sound_migrate; exact Hs.
    + apply sound_resolve; exact Hs.
    + apply sound_select; exact Hs.
    + apply sound_create; exact Hs.
    + apply sound_usage; exact Hs.
    + apply sound_delete; exact Hs.
    + apply sound_settings; exact Hs.
  - apply sound_toggle; exact Hs.
  - apply sound_remove; exact Hs.
  - apply sound_load_data; exact Hs.
Qed.

Lemma reachable_sound (s : State) : reachable s -> sound s.
Proof.
  induction 1 as [st Hst|s s' _ IH Hstep].
  - split; [apply wf_nil|]. split.
    + cbn [fresh store]. rewrite Hst. apply wf_nil.
    + cbn [fresh initialized]. discriminate.
  - eapply step_sound; eassumption.
Qed.

End SoundFacts.
Module CollectionFacts.
Import JsString Presets Shape LimitFacts ShapeFacts SoundFacts.



Lemma first_run_reachable : reachable Notions.first_run.
Proof.
  eapply reach_step.
  - apply (reach_fresh empty_store). reflexivity.
  - apply step_manager. apply Notions.step_init.
Qed.

Lemma set_same (k : string) (p : Preset) (m : JsMap.t Preset) :
  JsMap.get k m = Some p -> JsMap.set k p m = m.
Proof.
  induction m as [|[k0 p0] m IH]; [discriminate|].
  cbn [JsMap.get JsMap.set]. destruct (String.eqb k0 k) eqn:E.
  - intro H. injection H as <-. apply String.eqb_eq in E. subst k0. reflexivity.
  - intro H. rewrite IH by exact H. reflexivity.
Qed.

Lemma set_set (k : string) (p q : Preset) (m : JsMap.t Preset) :
  JsMap.set k q (JsMap.set k p m) = JsMap.set k q m.
Proof.
  induction m as [|[k0 p0] m IH].
  - cbn [JsMap.set]. rewrite String.eqb_refl. reflexivity.
  - cbn [JsMap.set]. destruct (String.eqb k0 k) eqn:E.
    + cbn [JsMap.set]. rewrite String.eqb_refl. reflexivity.
    + cbn [JsMap.set]. rewrite E, IH. reflexivity.
Qed.

Lemma count_delete_found (P : Preset -> bool) (k : string) (p : Preset)
      (m : JsMap.t Preset) :
  JsMap.get k m = Some p ->
  JsMap.count P (JsMap.delete k m) + JsMap.weight P p = JsMap.count P m.
Proof.
  induction m as [|[k0 p0] m IH]; [discriminate|].
  cbn [JsMap.get JsMap.delete]. destruct (String.eqb k0 k).
  - intro H. injection H as <-. rewrite count_cons. lia.
  - intro H. rewrite !count_cons, <- (IH H). lia.
Qed.

End CollectionFacts.

(** X10.  In every state the manager and the settings page can reach, the
    preset collection is well formed, in memory and in the store: no id
    occurs twice, every preset is stored under its own id, and the ids of
    the three system presets hold system presets.  (A save that writes an
    entry which is no preset is no step: see [Notions.step].) *)
Theorem collection_stays_well_formed :
  forall s : Presets.State,
    Shape.reachable s ->
    Shape.well_formed (Presets.presets s)
    /\ Shape.well_formed (Presets.stored_presets (Presets.store s)).
Proof.
  intros s Hr. destruct (SoundFacts.reachable_sound s Hr) as (Hm & Hs & _).
  split; assumption.
Qed.

Lemma collection_stays_well_formed_witness :
  Shape.well_formed (Presets.presets Notions.first_run)
  /\ Shape.well_formed (Presets.stored_presets (Presets.store Notions.first_run)).
Proof.
  apply (collection_stays_well_formed Notions.first_run).
  apply CollectionFacts.first_run_reachable.
Defined.

(** X11.  The system presets cannot be lost: once the manager is
    initialized, in every reachable state each of the three system ids holds
    a preset, and that preset is a system preset carrying this id. *)
Theorem system_presets_persist :
  forall s : Presets.State,
    Shape.reachable s ->
    Presets.initialized s = true ->
    forall k : string,
      In k Shape.system_ids ->
      exists p : Presets.Preset,
        JsMap.get k (Presets.presets s) = Some p
        /\ Presets.isSystem p = true /\ Presets.id p = k.
Proof.
  intros s Hr Hi k Hk.
  destruct (SoundFacts.reachable_sound s Hr) as (Hm & _ & Hc).
  destruct (Hc Hi k Hk) as (p & Hget & Hsys).
  exists p. split; [exact Hget|]. split; [exact Hsys|].
  apply ShapeFacts.get_In in Hget. apply (proj2 Hm k p Hget).
Qed.

Lemma system_presets_persist_witness :
  exists p : Presets.Preset,
    JsMap.get "default-basic" (Presets.presets Notions.two_created) = Some p
    /\ Presets.isSystem p = true /\ Presets.id p = "default-basic".
Proof.
  apply (system_presets_persist Notions.two_created).
  - eapply Shape.reach_step;
      [eapply Shape.reach_step; [apply CollectionFacts.first_run_reachable|]|];
      apply Shape.step_manager; apply Notions.step_create.
  - reflexivity.
  - right. right. left. reflexivity.
Defined.


(** X13.  A successful deletion by the manager removes exactly the preset
    asked for: its id is free afterwards, every other id holds what it held,
    one non-system preset fewer is counted, a selection of the deleted
    preset is cleared (in memory and in the store) while any other selection
    stays, and the store holds the collection as it now is. *)
Theorem delete_removes_exactly_one :
  forall (i : string) (s s' : Presets.State),
    Shape.distinct (Presets.presets s) ->
    Presets.deletePreset i s = (Presets.Returned true, s') ->
    JsMap.get i (Presets.presets s') = None
    /\ (forall k, k <> i ->
                  JsMap.get k (Presets.presets s') = JsMap.get k (Presets.presets s))
    /\ Presets.custom_count (Presets.presets s') + 1
       = Presets.custom_count (Presets.presets s)
    /\ Presets.selectedPresetId s'
       = (match Presets.selectedPresetId s with
          | Some sel => if String.eqb sel i then None
                        else Presets.selectedPresetId s
          | None => None
          end)
    /\ (Presets.selectedPresetId s = Some i ->
        Presets.stored_selection (Presets.store s') = None)
    /\ Presets.stored_presets (Presets.store s') = Presets.presets s'.
Proof.
  intros i s s' Hd. unfold Presets.deletePreset.
  destruct (JsMap.get i (Presets.presets s)) as [p|] eqn:Hget; [|discriminate].
  destruct (Presets.isSystem p) eqn:Hsys; [discriminate|].
  intro H. injection H as <-.
  assert (Hd' : Shape.distinct (JsMap.delete i (Presets.presets s)))
    by (apply ShapeFacts.distinct_delete; exact Hd).
  assert (Hcount : Presets.custom_count (JsMap.delete i (Presets.presets s)) + 1
                   = Presets.custom_count (Presets.presets s)).
  { pose proof (CollectionFacts.count_delete_found Presets.non_system i p
                  (Presets.presets s) Hget) as Hc.
    unfold JsMap.weight, Presets.non_system at 2 in Hc. rewrite Hsys in Hc.
    exact Hc. }
  cbn [Presets.with_presets Presets.selectedPresetId].
  destruct (Presets.selectedPresetId s) as [sel|] eqn:Hsel.
  - destruct (String.eqb sel i) eqn:E.
    + rewrite SoundFacts.saved_presets by exact Hd'.
      cbn [Presets.savePresets Presets.save_selection Presets.with_selection
           Presets.with_store Presets.presets Presets.selectedPresetId
           Presets.store Presets.stored_selection].
      repeat split; try assumption; try reflexivity.
      * apply ShapeFacts.get_delete_same. exact Hd.
      * intros k Hk. apply ShapeFacts.get_delete_other. exact Hk.
    + rewrite SoundFacts.saved_presets by exact Hd'.
      cbn [Presets.savePresets Presets.with_store Presets.presets
           Presets.selectedPresetId Presets.store Presets.stored_selection].
      repeat split; try assumption; try reflexivity.
      * apply ShapeFacts.get_delete_same. exact Hd.
      * intros k Hk. apply ShapeFacts.get_delete_other. exact Hk.
      * intro H. injection H as ->. rewrite String.eqb_refl in E. discriminate E.
  - rewrite SoundFacts.saved_presets by exact Hd'.
    cbn [Presets.savePresets Presets.with_store Presets.presets
         Presets.selectedPresetId Presets.store Presets.stored_selection].
    repeat split; try assumption; try reflexivity; try discriminate.
    + apply ShapeFacts.get_delete_same. exact Hd.
    + intros k Hk. apply ShapeFacts.get_delete_other. exact Hk.
Qed.

Lemma delete_removes_exactly_one_witness :
  let s := Notions.two_created in
  let s' := snd (Presets.deletePreset "custom-1" s) in
  JsMap.get "custom-1" (Presets.presets s') = None
  /\ (forall k, k <> "custom-1" ->
                JsMap.get k (Presets.presets s') = JsMap.get k (Presets.presets s))
  /\ Presets.custom_count (Presets.presets s') + 1
     = Presets.custom_count (Presets.presets s)
  /\ Presets.selectedPresetId s'
     = (match Presets.selectedPresetId s with
        | Some sel => if String.eqb sel "custom-1" then None
                      else Presets.selectedPresetId s
        | None => None
        end)
  /\ (Presets.selectedPresetId s = Some "custom-1" ->
      Presets.stored_selection (Presets.store s') = None)
  /\ Presets.stored_presets (Presets.store s') = Presets.presets s'.
Proof.
  apply (delete_removes_exactly_one "custom-1" Notions.two_created).
  - unfold Shape.distinct. vm_compute.
    repeat constructor; cbn [In]; intuition discriminate.
  - vm_compute. reflexivity.
Defined.
Module WriterFacts.
Import JsString Presets Shape LimitFacts ShapeFacts SoundFacts CollectionFacts.

(** ** The other writers keep the limit *)

Lemma bounded_toggle (i : string) (s : State) :
  Notions.bounded s ->
  Notions.bounded (with_store (SettingsActions.togglePresetEnabled i (store s)) s).
Proof.
  intros [Hm Hs]. split; [exact Hm|]. cbn [store with_store].
  unfold SettingsActions.togglePresetEnabled.
  destruct (JsMap.get i (stored_presets (store s))) as [p|] eqn:E; [|exact Hs].
  cbn [Settings.store_presets stored_presets].
  rewrite (count_set_same Notions.created i _ p); [exact Hs|exact E|reflexivity].
Qed.

Lemma removed_presets (c : bool) (i : string) (st : Store) :
  stored_presets (snd (SettingsActions.deletePreset c i st)) = stored_presets st
  \/ stored_presets (snd (SettingsActions.deletePreset c i st))
     = JsMap.delete i (stored_presets st).
Proof.
  unfold SettingsActions.deletePreset.
  destruct (JsMap.get i (stored_presets st)) as [p|];
    [destruct (isSystem p)|destruct (Settings.inherited i)];
    try (left; reflexivity);
    (destruct (negb c); [left; reflexivity|]);
    cbn [snd Settings.store_presets stored_selection];
    (destruct (stored_selection st) as [sel|];
     [destruct (String.eqb sel i)|]); right; reflexivity.
Qed.

Lemma bounded_remove (c : bool) (i : string) (s : State) :
  Notions.bounded s ->
  Notions.bounded
    (with_store (snd (SettingsActions.deletePreset c i (store s))) s).
Proof.
  intros [Hm Hs]. split; [exact Hm|]. cbn [store with_store].
  pose proof (count_delete_le Notions.created i (stored_presets (store s))) as Hd.
  destruct (removed_presets c i (store s)) as [E|E]; rewrite E; lia.
Qed.

Lemma bounded_load_data (c1 c2 c3 : string) (s : State) :
  Notions.bounded s ->
  Notions.bounded
    (with_store (SettingsActions.loadPresetData c1 c2 c3 (store s)) s).
Proof.
  intros [Hm Hs]. split; [exact Hm|]. cbn [store with_store].
  unfold SettingsActions.loadPresetData.
  destruct (JsMap.size _ =? 0); [|exact Hs].
  cbn [SettingsActions.createDefaultPresets Settings.store_presets stored_presets].
  unfold JsMap.count, JsMap.values. cbn. lia.
Qed.

Lemma reachable_bounded_all (s : State) : reachable s -> Notions.bounded s.
Proof.
  induction 1 as [st Hst|s s' _ IH Hstep].
  - apply LimitFacts.reachable_bounded. apply Notions.reach_fresh. exact Hst.
  - destruct Hstep as [s s' Hm|i s|c i s|c1 c2 c3 s].
    + exact (step_bounded s s' Hm IH).
    + apply bounded_toggle; exact IH.
    + apply bounded_remove; exact IH.
    + apply bounded_load_data; exact IH.
Qed.

(** ** Names under [savePresetChanges] *)

Lemma replace_keeps_NoDup {A : Type} (f : string * Preset -> A)
      (k : string) (v : Preset) (m : JsMap.t Preset) :
  NoDup (List.map f m) -> distinct m ->
  (forall k0 p0, In (k0, p0) m -> k0 <> k -> f (k0, p0) <> f (k, v)) ->
  NoDup (List.map f (JsMap.set k v m)).
Proof.
  unfold distinct. induction m as [|[k0 p0] m IH]; intros Hn Hd Hf.
  - cbn. constructor; [intros []|constructor].
  - cbn [JsMap.set]. cbn [List.map fst] in Hn, Hd.
    inversion Hn as [|? ? Hn1 Hn2]; subst. inversion Hd as [|? ? Hd1 Hd2]; subst.
    destruct (String.eqb k0 k) eqn:E.
    + apply String.eqb_eq in E. subst k0. cbn [List.map]. constructor; [|exact Hn2].
      intro Hin. apply List.in_map_iff in Hin. destruct Hin as [[k1 p1] [Hx Hin]].
      refine (Hf k1 p1 (or_intror Hin) _ Hx).
      intro E. subst k1. apply Hd1. apply (List.in_map fst) in Hin. exact Hin.
    + apply String.eqb_neq in E. cbn [List.map]. constructor.
      * intro Hin. apply List.in_map_iff in Hin. destruct Hin as [[k1 p1] [Hx Hin]].
        apply set_In in Hin. destruct Hin as [[-> ->]|Hin].
        -- exact (Hf k0 p0 (or_introl eq_refl) E (eq_sym Hx)).
        -- apply Hn1. rewrite <- Hx. apply List.in_map. exact Hin.
      * apply IH; [exact Hn2|exact Hd2|].
        intros k1 p1 Hin. apply Hf. right. exact Hin.
Qed.

Lemma others_differ {A : Type} (f : string * Preset -> A)
      (k : string) (p : Preset) (m : JsMap.t Preset) :
  NoDup (List.map f m) -> In (k, p) m ->
  forall k0 p0, In (k0, p0) m -> k0 <> k -> f (k0, p0) <> f (k, p).
Proof.
  induction m as [|x m IH]; intros Hn Hin k0 p0 Hin0 Hne; [destruct Hin|].
  cbn [List.map] in Hn. inversion Hn as [|? ? Hn1 Hn2]; subst.
  destruct Hin as [->|Hin]; destruct Hin0 as [Hx|Hin0].
  - injection Hx as -> ->. congruence.
  - intro E. apply Hn1. rewrite <- E. apply List.in_map. exact Hin0.
  - subst x. intro E. apply Hn1. rewrite E. apply List.in_map. exact Hin.
  - apply IH; assumption.
Qed.

Lemma not_taken (presetName : string) (skip : option string) (m : JsMap.t Preset) :
  Settings.name_taken presetName skip m = false ->
  forall k p, In (k, p) m ->
              match skip with Some self => id p <> self | None => True end ->
              toLowerCase (name p) <> toLowerCase presetName.
Proof.
  unfold Settings.name_taken. intros H k p Hin Hskip E.
  assert (Hex : existsb
                  (fun q =>
                     match skip with
                     | Some self => negb (String.eqb (id q) self)
                     | None => true
                     end && String.eqb (toLowerCase (name q)) (toLowerCase presetName))
                  (JsMap.values m) = true).
  { apply List.existsb_exists. exists p. split.
    - unfold JsMap.values. apply (List.in_map snd) in Hin. exact Hin.
    - rewrite E, String.eqb_refl, Bool.andb_true_r.
      destruct skip as [self|]; [|reflexivity].
      apply Bool.negb_true_iff. apply String.eqb_neq. exact Hskip. }
  rewrite H in Hex. discriminate Hex.
Qed.

Lemma names_kept (f : Settings.Form) (st : Store) :
  well_formed (stored_presets st) -> names_unique (stored_presets st) ->
  names_unique (stored_presets (snd (Settings.savePresetChanges f st))).
Proof.
  intros [Hd Hp] Hn. unfold Settings.savePresetChanges.
  destruct (negb (truthy (trim (Settings.nameField f)))); [exact Hn|].
  destruct (negb (truthy (trim (Settings.promptField f)))); [exact Hn|].
  destruct (2000 <? _); [exact Hn|].
  destruct (Settings.currentEditingPreset f) as [editing|].
  - destruct (JsMap.get editing (stored_presets st)) as [p|] eqn:E;
      [|unknown_id Hn].
    apply get_In in E.
    pose proof (others_differ (fun kv => toLowerCase (name (snd kv)))
                  editing p _ Hn E) as Hothers.
    destruct (isSystem p).
    + cbn [snd Settings.store_presets stored_presets].
      apply replace_keeps_NoDup; [exact Hn|exact Hd|exact Hothers].
    + destruct (String.eqb (trim (Settings.nameField f)) (name p)) eqn:Hsame;
        cbn [negb andb].
      * apply String.eqb_eq in Hsame.
        cbn [snd Settings.store_presets stored_presets].
        apply replace_keeps_NoDup; [exact Hn|exact Hd|].
        cbn [snd name]. rewrite Hsame. exact Hothers.
      * destruct (Settings.name_taken _ _ _) eqn:Ht; [exact Hn|].
        cbn [snd Settings.store_presets stored_presets].
        apply replace_keeps_NoDup; [exact Hn|exact Hd|].
        intros k0 p0 Hin Hne. cbn [snd name].
        apply (not_taken _ _ _ Ht k0 p0 Hin). cbn.
        rewrite (proj1 (Hp k0 p0 Hin)). exact Hne.
  - destruct (2 <=? custom_count _); [exact Hn|].
    destruct (Settings.name_taken _ _ _) eqn:Ht; [exact Hn|].
    cbn [snd Settings.store_presets stored_presets].
    apply replace_keeps_NoDup; [exact Hn|exact Hd|].
    intros k0 p0 Hin _. cbn [snd name].
    apply (not_taken _ _ _ Ht k0 p0 Hin). exact I.
Qed.

(** A save that does not stray succeeds with presets written, or alerts
    and leaves the store. *)
Lemma saved_or_alerted (f : Settings.Form) (st : Store) :
  Settings.strays f st = false ->
  fst (Settings.savePresetChanges f st) = Settings.Saved
  \/ exists message, Settings.savePresetChanges f st = (Settings.Alerted message, st).
Proof.
  unfold Settings.strays, Settings.savePresetChanges.
  destruct (negb (truthy _)); [intros _; right; eexists; reflexivity|].
  destruct (negb (truthy _)); [intros _; right; eexists; reflexivity|].
  destruct (2000 <? _); [intros _; right; eexists; reflexivity|].
  destruct (Settings.currentEditingPreset f) as [editing|].
  - destruct (JsMap.get editing (stored_presets st)) as [p|].
    + destruct (isSystem p); [intros _; left; reflexivity|].
      destruct (negb _ && _);
        [intros _; right; eexists; reflexivity|intros _; left; reflexivity].
    + destruct (negb (Settings.inherited editing));
        [intros _; right; eexists; reflexivity|].
      destruct (negb _ && _); [intros _; right; eexists; reflexivity|].
      destruct (String.eqb editing "__proto__");
        [intros _; left; reflexivity|discriminate].
  - destruct (2 <=? custom_count _); [intros _; right; eexists; reflexivity|].
    destruct (Settings.name_taken _ _ _);
      [intros _; right; eexists; reflexivity|intros _; left; reflexivity].
Qed.

(** ** What a call of the service works with *)

Lemma resolve_found (now : N) (s m : State) (p : Preset) :
  getSelectedPreset now s = (Some p, m) ->
  m = snd (getSelectedPreset now s)
  /\ enabled p = true
  /\ exists sel, selectedPresetId m = Some sel /\ JsMap.get sel (presets m) = Some p.
Proof.
  intro H. split; [rewrite H; reflexivity|]. revert H. unfold getSelectedPreset.
  set (s0 := if negb (initialized s) then init now s else s).
  destruct (selectedPresetId s0) as [sel|] eqn:Hsel; [|discriminate].
  destruct (negb (truthy sel)); [discriminate|].
  destruct (JsMap.get sel (presets s0)) as [q|] eqn:E; [|discriminate].
  destruct (enabled q) eqn:He; cbn [negb]; [|discriminate].
  intro H. injection H as <- <-. split; [exact He|].
  exists sel. split; assumption.
Qed.

Lemma usage_recorded (now : N) (p : Preset) (m : State) :
  well_formed (presets m) ->
  JsMap.get (id p) (presets m) = Some p ->
  JsMap.get (id p) (presets (updateUsageStats now (id p) m)) = Some (used now p)
  /\ JsMap.get (id p) (stored_presets (store (updateUsageStats now (id p) m)))
     = Some (used now p).
Proof.
  intros [Hd Hp] Hget. unfold updateUsageStats. rewrite Hget.
  rewrite saved_presets.
  - cbn [savePresets with_store with_presets presets].
    split; apply get_set_same.
  - cbn [with_presets presets]. apply distinct_set. exact Hd.
Qed.

(** ** Running an operation twice *)

Lemma state_eta (s : State) : with_presets (presets s) s = s.
Proof. destruct s; reflexivity. Qed.

Lemma migrate_no_legacy (now : N) (s : State) :
  legacy (store s) = no_legacy -> migrateFromUrlSystem now s = s.
Proof.
  intro H. unfold migrateFromUrlSystem. rewrite H.
  cbn [no_legacy twitterCustomPrompt linkedinCustomPrompt gmailCustomPrompt
       twitterPresetEnabled linkedinPresetEnabled gmailPresetEnabled migrate_one
       snd fst Nat.ltb Nat.leb].
  apply state_eta.
Qed.

(** Whether a migration does something depends on the legacy keys alone:
    either it removes them, or it leaves the state as it is. *)
Lemma migrate_cases (s : State) :
  (forall now, legacy (store (migrateFromUrlSystem now s)) = no_legacy)
  \/ (forall now, migrateFromUrlSystem now s = s).
Proof.
  unfold migrateFromUrlSystem, migrate_one.
  destruct (twitterCustomPrompt (legacy (store s))) as [p1|];
    [destruct (truthy p1)|];
    (destruct (linkedinCustomPrompt (legacy (store s))) as [p2|];
     [destruct (truthy p2)|]);
    (destruct (gmailCustomPrompt (legacy (store s))) as [p3|];
     [destruct (truthy p3)|]);
    cbn [snd fst Nat.ltb Nat.leb];
    first [left; intro; reflexivity | right; intro; apply state_eta].
Qed.

Lemma migrate_idempotent (now now' : N) (s : State) :
  migrateFromUrlSystem now' (migrateFromUrlSystem now s) = migrateFromUrlSystem now s.
Proof.
  destruct (migrate_cases s) as [H|H].
  - apply migrate_no_legacy. apply H.
  - rewrite (H now). apply H.
Qed.

End WriterFacts.
Module AgainFacts.
Import JsString Presets Shape LimitFacts ShapeFacts SoundFacts CollectionFacts WriterFacts.

Lemma defaults_noop (now : N) (s : State) :
  (forall k, In k system_ids -> JsMap.has k (presets s) = true) ->
  ensureDefaultPresets now s = s.
Proof.
  intro H. unfold ensureDefaultPresets.
  assert (E : forall i n p, id (system_preset i n p now) = i) by reflexivity.
  cbn [getDefaultPresetsDefinition List.fold_left]. rewrite ?E.
  rewrite (H "default-email") by (left; reflexivity). cbn [negb]. rewrite ?E.
  rewrite (H "default-professional") by (right; left; reflexivity).
  cbn [negb]. rewrite ?E.
  rewrite (H "default-basic") by (right; right; left; reflexivity). cbn [negb].
  apply state_eta.
Qed.

Lemma defaults_presets (now : N) (s : State) :
  well_formed (presets s) ->
  well_formed (presets (ensureDefaultPresets now s))
  /\ (forall k p, JsMap.get k (presets s) = Some p ->
                  JsMap.get k (presets (ensureDefaultPresets now s)) = Some p)
  /\ (forall k, In k system_ids ->
                JsMap.has k (presets (ensureDefaultPresets now s)) = true).
Proof.
  intros Hm. unfold ensureDefaultPresets.
  assert (Hsys : forall p, In p (getDefaultPresetsDefinition now) -> isSystem p = true)
    by (intros p [<-|[<-|[<-|[]]]]; reflexivity).
  pose proof (defaults_fold (getDefaultPresetsDefinition now) Hsys (presets s, false) Hm)
    as Hfold.
  cbv zeta in Hfold.
  destruct (List.fold_left _ (getDefaultPresetsDefinition now) (presets s, false))
    as [m needsSave].
  cbn [fst] in Hfold. destruct Hfold as (Hwf & Hkeep & Hhas).
  assert (Hall : forall k, In k system_ids -> JsMap.has k m = true).
  { intros k [<-|[<-|[<-|[]]]].
    - apply (Hhas (system_preset "default-email" "Email" email_prompt now)).
      left. reflexivity.
    - apply (Hhas (system_preset "default-professional" "Professional"
                                 professional_prompt now)).
      right. left. reflexivity.
    - apply (Hhas (system_preset "default-basic" "Basic" basic_prompt now)).
      right. right. left. reflexivity. }
  destruct needsSave; cbn [savePresets with_store with_presets presets];
    (split; [exact Hwf|]; split; [exact Hkeep|exact Hall]).
Qed.

Lemma with_enabled_twice (p : Preset) :
  SettingsActions.with_enabled (negb (negb (enabled p)))
    (SettingsActions.with_enabled (negb (enabled p)) p) = p.
Proof. destruct p. cbn. rewrite Bool.negb_involutive. reflexivity. Qed.

End AgainFacts.

(** X14.  Neither deletion removes a system preset: whatever id is asked
    for, a system preset that was in the collection before
    [PresetManager.deletePreset], or in the store before the deletion of the
    settings page, is there afterwards, unchanged. *)
Theorem deletions_spare_system_presets :
  forall (k : string) (p : Presets.Preset),
    Presets.isSystem p = true ->
    (forall (i : string) (s : Presets.State),
        JsMap.get k (Presets.presets s) = Some p ->
        JsMap.get k (Presets.presets (snd (Presets.deletePreset i s))) = Some p)
    /\ (forall (confirmDelete : bool) (i : string) (st : Presets.Store),
           JsMap.get k (Presets.stored_presets st) = Some p ->
           JsMap.get k (Presets.stored_presets
                          (snd (SettingsActions.deletePreset confirmDelete i st)))
           = Some p).
Proof.
  intros k p Hsys.
  assert (Hdel : forall i m q,
             JsMap.get k m = Some p -> JsMap.get i m = Some q ->
             Presets.isSystem q = false -> JsMap.get k (JsMap.delete i m) = Some p).
  { intros i m q Hk Hi Hq. rewrite ShapeFacts.get_delete_other; [exact Hk|].
    intro E. subst k. rewrite Hk in Hi. injection Hi as <-.
    rewrite Hsys in Hq. discriminate Hq. }
  split.
  - intros i s Hk. unfold Presets.deletePreset.
    destruct (JsMap.get i (Presets.presets s)) as [q|] eqn:Hi; [|exact Hk].
    destruct (Presets.isSystem q) eqn:Hq; [exact Hk|].
    cbn [snd Presets.with_presets Presets.selectedPresetId].
    destruct (Presets.selectedPresetId s) as [sel|];
      [destruct (String.eqb sel i)|];
      cbn [Presets.savePresets Presets.save_selection Presets.with_selection
           Presets.with_store Presets.presets];
      apply (Hdel i _ q); assumption.
  - intros c i st Hk.
    destruct (WriterFacts.removed_presets c i st) as [E|E]; rewrite E; [exact Hk|].
    destruct (JsMap.get i (Presets.stored_presets st)) as [q|] eqn:Hi.
    + destruct (Presets.isSystem q) eqn:Hq.
      * (* the deletion was refused: nothing was removed *)
        revert E. unfold SettingsActions.deletePreset. rewrite Hi, Hq.
        cbn [snd]. intro E. rewrite <- E. exact Hk.
      * apply (Hdel i _ q); assumption.
    + rewrite ShapeFacts.get_delete_other; [exact Hk|].
      intro E'. subst k. rewrite Hk in Hi. discriminate Hi.
Qed.

Lemma deletions_spare_system_presets_witness :
  (forall (i : string) (s : Presets.State),
      JsMap.get "default-email" (Presets.presets s)
      = Some (Presets.system_preset "default-email" "Email" Presets.email_prompt 0) ->
      JsMap.get "default-email" (Presets.presets (snd (Presets.deletePreset i s)))
      = Some (Presets.system_preset "default-email" "Email" Presets.email_prompt 0))
  /\ (forall (confirmDelete : bool) (i : string) (st : Presets.Store),
         JsMap.get "default-email" (Presets.stored_presets st)
         = Some (Presets.system_preset "default-email" "Email" Presets.email_prompt 0) ->
         JsMap.get "default-email"
           (Presets.stored_presets
              (snd (SettingsActions.deletePreset confirmDelete i st)))
         = Some (Presets.system_preset "default-email" "Email" Presets.email_prompt 0)).
Proof.
  apply (deletions_spare_system_presets "default-email"
           (Presets.system_preset "default-email" "Email" Presets.email_prompt 0)).
  reflexivity.
Defined.

(** X15.  [togglePresetEnabled] on the settings page: for an id that
    holds no preset the store stays as it is; for an id that holds one, the
    enabled flag of that preset is inverted and nothing else changes: the
    other fields of the preset, the other presets, the order of the keys,
    the selection and the legacy keys are as before.  Toggling twice
    restores the store. *)
Theorem toggle_twice_restores_store :
  forall (i : string) (st : Presets.Store),
    let st' := SettingsActions.togglePresetEnabled i st in
    SettingsActions.togglePresetEnabled i st' = st
    /\ Presets.stored_selection st' = Presets.stored_selection st
    /\ Presets.legacy st' = Presets.legacy st
    /\ List.map fst (Presets.stored_presets st')
       = List.map fst (Presets.stored_presets st)
    /\ (forall k, k <> i ->
                  JsMap.get k (Presets.stored_presets st')
                  = JsMap.get k (Presets.stored_presets st))
    /\ match JsMap.get i (Presets.stored_presets st) with
       | None => st' = st
       | Some p =>
           exists p',
             JsMap.get i (Presets.stored_presets st') = Some p'
             /\ Presets.enabled p' = negb (Presets.enabled p)
             /\ Presets.id p' = Presets.id p
             /\ Presets.name p' = Presets.name p
             /\ Presets.prompt p' = Presets.prompt p
             /\ Presets.isDefault p' = Presets.isDefault p
             /\ Presets.isSystem p' = Presets.isSystem p
             /\ Presets.createdAt p' = Presets.createdAt p
             /\ Presets.lastUsed p' = Presets.lastUsed p
             /\ Presets.usageCount p' = Presets.usageCount p
       end.
Proof.
  intros i st st'. subst st'. split.
  - unfold SettingsActions.togglePresetEnabled at 2.
    destruct (JsMap.get i (Presets.stored_presets st)) as [p|] eqn:E.
    + unfold SettingsActions.togglePresetEnabled.
      cbn [Settings.store_presets Presets.stored_presets Presets.stored_selection
           Presets.legacy].
      rewrite LimitFacts.get_set_same.
      change (Presets.enabled (SettingsActions.with_enabled (negb (Presets.enabled p)) p))
        with (negb (Presets.enabled p)).
      rewrite CollectionFacts.set_set, AgainFacts.with_enabled_twice.
      rewrite CollectionFacts.set_same by exact E.
      destruct st; reflexivity.
    + unfold SettingsActions.togglePresetEnabled. rewrite E. reflexivity.
  - unfold SettingsActions.togglePresetEnabled.
    destruct (JsMap.get i (Presets.stored_presets st)) as [p|] eqn:E.
    + cbn [Settings.store_presets Presets.stored_presets Presets.stored_selection
           Presets.legacy].
      split; [reflexivity|]. split; [reflexivity|].
      split; [rewrite ShapeFacts.keys_set, E; reflexivity|].
      split; [intros k Hk; apply LimitFacts.get_set_other; congruence|].
      eexists. split; [apply LimitFacts.get_set_same|].
      cbn. repeat split.
    + repeat split.
Qed.

(** X16.  The limit on created presets holds under every writer of the
    store: with the toggles, deletions and default creation of the settings
    page added to the operations of the manager, every reachable state holds
    at most two non-system presets besides the migrated ones, in memory and
    in the store.  (A save that writes an entry which is no preset is no
    step: see [Notions.step].) *)
Theorem limit_holds_under_all_writers :
  forall s : Presets.State,
    Shape.reachable s ->
    JsMap.count Notions.created (Presets.presets s) <= 2
    /\ JsMap.count Notions.created (Presets.stored_presets (Presets.store s)) <= 2.
Proof. exact WriterFacts.reachable_bounded_all. Qed.

Lemma limit_holds_under_all_writers_witness :
  JsMap.count Notions.created (Presets.presets Notions.first_run) <= 2
  /\ JsMap.count Notions.created
       (Presets.stored_presets (Presets.store Notions.first_run)) <= 2.
Proof.
  apply (limit_holds_under_all_writers Notions.first_run).
  apply CollectionFacts.first_run_reachable.
Defined.

(** X17.  The settings page never introduces a duplicate name: if no two
    stored presets have the same name up to case, this is so again after
    [savePresetChanges], whether it created a preset, edited one or refused
    the form, as long as the save writes presets only (the edited id is a
    key of the stored object, or no name of an inherited member). *)
Theorem settings_keeps_names_unique :
  forall (f : Settings.Form) (st : Presets.Store),
    Shape.well_formed (Presets.stored_presets st) ->
    Shape.names_unique (Presets.stored_presets st) ->
    Settings.strays f st = false ->
    Shape.names_unique
      (Presets.stored_presets (snd (Settings.savePresetChanges f st)))
    /\ (fst (Settings.savePresetChanges f st) = Settings.Saved
        \/ exists message,
             Settings.savePresetChanges f st = (Settings.Alerted message, st)).
Proof.
  intros f st Hwf Hn Hstray. split; [apply WriterFacts.names_kept; assumption|].
  apply WriterFacts.saved_or_alerted. exact Hstray.
Qed.

Lemma settings_keeps_names_unique_witness :
  let f := {| Settings.nameField := "Notes";
              Settings.promptField := "Make notes: {transcript}";
              Settings.enabledToggle := true;
              Settings.currentEditingPreset := None;
              Settings.clock := "2025-01-02T00:00:00.000Z";
              Settings.stamp := 2; Settings.suffix := "k3j9x0a1b" |} in
  let st := Presets.store Notions.first_run in
  Shape.names_unique
    (Presets.stored_presets (snd (Settings.savePresetChanges f st)))
  /\ (fst (Settings.savePresetChanges f st) = Settings.Saved
      \/ exists message,
           Settings.savePresetChanges f st = (Settings.Alerted message, st)).
Proof.
  cbv zeta. apply settings_keeps_names_unique.
  - apply SoundFacts.reachable_sound. apply CollectionFacts.first_run_reachable.
  - unfold Shape.names_unique. vm_compute.
    repeat constructor; cbn [In]; intuition discriminate.
  - vm_compute. reflexivity.
Defined.
(** X18.  Editing a system preset on the settings page changes its
    prompt and its enabled flag only: whatever the name field holds, the
    preset keeps its name, id, system flag and usage data, and every other
    preset is left as it is. *)
Theorem settings_edit_keeps_system_identity :
  forall (f : Settings.Form) (st st' : Presets.Store) (editing : string)
         (p : Presets.Preset),
    Settings.currentEditingPreset f = Some editing ->
    JsMap.get editing (Presets.stored_presets st) = Some p ->
    Presets.isSystem p = true ->
    Settings.savePresetChanges f st = (Settings.Saved, st') ->
    JsMap.get editing (Presets.stored_presets st')
    = Some {| Presets.id := Presets.id p; Presets.name := Presets.name p;
              Presets.prompt := JsString.trim (Settings.promptField f);
              Presets.isDefault := Presets.isDefault p;
              Presets.isSystem := true;
              Presets.enabled := Settings.enabledToggle f;
              Presets.createdAt := Presets.createdAt p;
              Presets.lastUsed := Presets.lastUsed p;
              Presets.usageCount := Presets.usageCount p |}
    /\ (forall k, k <> editing ->
                  JsMap.get k (Presets.stored_presets st')
                  = JsMap.get k (Presets.stored_presets st))
    /\ Presets.stored_selection st' = Presets.stored_selection st.
Proof.
  intros f st st' editing p Hedit Hget Hsys. unfold Settings.savePresetChanges.
  destruct (negb (JsString.truthy (JsString.trim (Settings.nameField f))));
    [discriminate|].
  destruct (negb (JsString.truthy (JsString.trim (Settings.promptField f))));
    [discriminate|].
  destruct (2000 <? _); [discriminate|].
  rewrite Hedit, Hget, Hsys. intro H. injection H as <-.
  cbn [Settings.store_presets Presets.stored_presets Presets.stored_selection].
  split; [apply LimitFacts.get_set_same|]. split; [|reflexivity].
  intros k Hk. apply LimitFacts.get_set_other. congruence.
Qed.

Lemma settings_edit_keeps_system_identity_witness :
  let f := {| Settings.nameField := "Mail";
              Settings.promptField := "  Write a mail: {transcript} ";
              Settings.enabledToggle := false;
              Settings.currentEditingPreset := Some "default-email";
              Settings.clock := "2025-01-02T00:00:00.000Z";
              Settings.stamp := 2; Settings.suffix := "k3j9x0a1b" |} in
  let st := Presets.store Notions.first_run in
  let st' := snd (Settings.savePresetChanges f st) in
  let p := Presets.system_preset "default-email" "Email" Presets.email_prompt 0 in
  JsMap.get "default-email" (Presets.stored_presets st')
  = Some {| Presets.id := Presets.id p; Presets.name := Presets.name p;
            Presets.prompt := JsString.trim (Settings.promptField f);
            Presets.isDefault := Presets.isDefault p;
            Presets.isSystem := true;
            Presets.enabled := Settings.enabledToggle f;
            Presets.createdAt := Presets.createdAt p;
            Presets.lastUsed := Presets.lastUsed p;
            Presets.usageCount := Presets.usageCount p |}
  /\ (forall k, k <> "default-email" ->
                JsMap.get k (Presets.stored_presets st')
                = JsMap.get k (Presets.stored_presets st))
  /\ Presets.stored_selection st' = Presets.stored_selection st.
Proof.
  cbv zeta.
  apply (settings_edit_keeps_system_identity
           {| Settings.nameField := "Mail";
              Settings.promptField := "  Write a mail: {transcript} ";
              Settings.enabledToggle := false;
              Settings.currentEditingPreset := Some "default-email";
              Settings.clock := "2025-01-02T00:00:00.000Z";
              Settings.stamp := 2; Settings.suffix := "k3j9x0a1b" |}
           (Presets.store Notions.first_run) _ "default-email"
           (Presets.system_preset "default-email" "Email" Presets.email_prompt 0)).
  - reflexivity.
  - vm_compute. reflexivity.
  - reflexivity.
  - vm_compute. reflexivity.
Defined.

(** X19.  A successful enhancement is counted.  Let the collection before
    be that of the manager as the call finds the preset: the manager itself
    when a preset id is given or the manager is initialized, the initialized
    manager otherwise.  The call worked with a preset [p] of that
    collection; afterwards, in memory and in the store, the id of [p] holds
    [p] with its usage count increased by one and the time of the call as
    its last use, every other id holds in memory what it held before, and
    the result names [p]. *)
Theorem enhance_success_counts_usage :
  forall (env : Enhance.Env) (raw : string) (pid : option string)
         (svc : Enhance.Service),
    Shape.sound (Enhance.presetManager svc) ->
    Enhance.success (fst (Enhance.enhanceTranscript env raw pid svc)) = true ->
    let resolved :=
      snd (Presets.getSelectedPreset (Enhance.now env) (Enhance.presetManager svc)) in
    let before :=
      match pid with
      | Some i => if JsString.truthy i then Enhance.presetManager svc else resolved
      | None => resolved
      end in
    let after :=
      Enhance.presetManager (snd (Enhance.enhanceTranscript env raw pid svc)) in
    (Presets.initialized (Enhance.presetManager svc) = true ->
     before = Enhance.presetManager svc)
    /\ exists p : Presets.Preset,
         JsMap.get (Presets.id p) (Presets.presets before) = Some p
         /\ Enhance.presetId (fst (Enhance.enhanceTranscript env raw pid svc))
            = Some (Presets.id p)
         /\ Enhance.preset (fst (Enhance.enhanceTranscript env raw pid svc))
            = Some (Presets.name p)
         /\ JsMap.get (Presets.id p) (Presets.presets after)
            = Some (Shape.used (Enhance.now env) p)
         /\ JsMap.get (Presets.id p) (Presets.stored_presets (Presets.store after))
            = Some (Shape.used (Enhance.now env) p)
         /\ (forall k, k <> Presets.id p ->
                       JsMap.get k (Presets.presets after)
                       = JsMap.get k (Presets.presets before)).
Proof.
  intros env raw pid svc Hsound Hok resolved before after.
  split.
  { intro Hi. subst before resolved.
    assert (E : snd (Presets.getSelectedPreset (Enhance.now env)
                       (Enhance.presetManager svc)) = Enhance.presetManager svc).
    { unfold Presets.getSelectedPreset. rewrite Hi. cbn [negb].
      destruct (Presets.selectedPresetId _) as [sel|]; [|reflexivity].
      destruct (negb (JsString.truthy sel)); [reflexivity|].
      destruct (JsMap.get sel _) as [q|]; [|reflexivity].
      destruct (negb (Presets.enabled q)); reflexivity. }
    destruct pid as [i|]; [destruct (JsString.truthy i)|]; first [reflexivity|exact E]. }
  revert Hok. subst after. unfold Enhance.enhanceTranscript.
  set (limit := 4000). clearbody limit.
  destruct (Enhance.isProcessing svc); [discriminate|].
  assert (Hchosen :
            forall p m,
              match pid with
              | Some i =>
                  if JsString.truthy i
                  then (JsMap.get i (Presets.presets (Enhance.presetManager svc)),
                        Enhance.presetManager svc)
                  else Presets.getSelectedPreset (Enhance.now env)
                         (Enhance.presetManager svc)
              | None => Presets.getSelectedPreset (Enhance.now env)
                          (Enhance.presetManager svc)
              end = (Some p, m) ->
              m = before
              /\ Shape.well_formed (Presets.presets m)
              /\ JsMap.get (Presets.id p) (Presets.presets m) = Some p).
  { intros p m H.
    assert (Hres : Presets.getSelectedPreset (Enhance.now env)
                     (Enhance.presetManager svc) = (Some p, m) ->
                   m = resolved
                   /\ Shape.well_formed (Presets.presets m)
                   /\ JsMap.get (Presets.id p) (Presets.presets m) = Some p).
    { intro Hr. apply WriterFacts.resolve_found in Hr.
      destruct Hr as (-> & _ & sel & _ & Hget).
      pose proof (SoundFacts.sound_resolve (Enhance.now env) _ Hsound) as (Hwf & _).
      split; [reflexivity|]. split; [exact Hwf|].
      pose proof (ShapeFacts.get_In _ _ _ Hget) as Hin.
      rewrite (proj1 (proj2 Hwf sel p Hin)). exact Hget. }
    subst before.
    destruct pid as [i|]; [|exact (Hres H)].
    destruct (JsString.truthy i); [|exact (Hres H)].
    injection H as Hget <-. destruct Hsound as (Hwf & _).
    split; [reflexivity|]. split; [exact Hwf|].
    pose proof (ShapeFacts.get_In _ _ _ Hget) as Hin.
    rewrite (proj1 (proj2 Hwf i p Hin)). exact Hget. }
  clearbody before.
  destruct (match pid with
            | Some i => if JsString.truthy i then _ else _
            | None => _
            end) as [[p|] m]; [|discriminate].
  destruct (Hchosen p m eq_refl) as (Hm & Hwf & Hget). clear Hchosen.
  destruct (negb (JsString.truthy raw) || _); [discriminate|].
  destruct (negb (JsString.truthy (Enhance.apiKey env))); [discriminate|].
  destruct (negb (Template.success _)); [discriminate|].
  destruct (Enhance.callOpenAI _ _ _); [|discriminate].
  intros _. exists p. rewrite <- Hm.
  cbn [fst snd Enhance.presetId Enhance.preset Enhance.idle Enhance.presetManager].
  split; [exact Hget|]. split; [reflexivity|]. split; [reflexivity|].
  destruct (WriterFacts.usage_recorded (Enhance.now env) p m Hwf Hget) as [U1 U2].
  split; [exact U1|]. split; [exact U2|].
  intros k Hk. unfold Presets.updateUsageStats. rewrite Hget.
  cbn [Presets.savePresets Presets.with_store Presets.with_presets Presets.presets].
  apply LimitFacts.get_set_other. congruence.
Qed.

Lemma enhance_success_counts_usage_witness :
  let call := Enhance.enhanceTranscript Scenarios.answering "hello there" None
                Notions.with_email_selected in
  let before :=
    snd (Presets.getSelectedPreset (Enhance.now Scenarios.answering)
           (Enhance.presetManager Notions.with_email_selected)) in
  let after := Enhance.presetManager (snd call) in
  (Presets.initialized (Enhance.presetManager Notions.with_email_selected) = true ->
   before = Enhance.presetManager Notions.with_email_selected)
  /\ exists p : Presets.Preset,
       JsMap.get (Presets.id p) (Presets.presets before) = Some p
       /\ Enhance.presetId (fst call) = Some (Presets.id p)
       /\ Enhance.preset (fst call) = Some (Presets.name p)
       /\ JsMap.get (Presets.id p) (Presets.presets after)
          = Some (Shape.used (Enhance.now Scenarios.answering) p)
       /\ JsMap.get (Presets.id p) (Presets.stored_presets (Presets.store after))
          = Some (Shape.used (Enhance.now Scenarios.answering) p)
       /\ (forall k, k <> Presets.id p ->
                     JsMap.get k (Presets.presets after)
                     = JsMap.get k (Presets.presets before)).
Proof.
  cbv zeta.
  apply (enhance_success_counts_usage Scenarios.answering "hello there" None
           Notions.with_email_selected).
  - apply SoundFacts.reachable_sound.
    eapply Shape.reach_step; [apply CollectionFacts.first_run_reachable|].
    apply Shape.step_manager.
    apply (Notions.step_select (Some "default-email") Notions.first_run).
  - vm_compute. reflexivity.
Defined.

(** X20.  [ensureDefaultPresets] completes the collection without
    touching what is there: every preset present before is unchanged (a
    system preset whose prompt the user edited keeps the edit), the three
    system ids are present afterwards, and a second run changes nothing. *)
Theorem defaults_complete_and_keep :
  forall (now now' : N) (s : Presets.State),
    Shape.well_formed (Presets.presets s) ->
    (forall k p, JsMap.get k (Presets.presets s) = Some p ->
                 JsMap.get k (Presets.presets (Presets.ensureDefaultPresets now s))
                 = Some p)
    /\ Shape.complete (Presets.presets (Presets.ensureDefaultPresets now s))
    /\ Presets.ensureDefaultPresets now' (Presets.ensureDefaultPresets now s)
       = Presets.ensureDefaultPresets now s.
Proof.
  intros now now' s Hwf.
  destruct (AgainFacts.defaults_presets now s Hwf) as (Hwf' & Hkeep & Hhas).
  split; [exact Hkeep|]. split.
  - intros k Hk. specialize (Hhas k Hk). unfold JsMap.has in Hhas.
    destruct (JsMap.get k _) as [p|] eqn:E; [|discriminate Hhas].
    exists p. split; [reflexivity|].
    apply ShapeFacts.get_In in E. apply (proj2 Hwf' k p E). exact Hk.
  - apply AgainFacts.defaults_noop. exact Hhas.
Qed.

Lemma defaults_complete_and_keep_witness :
  (forall k p, JsMap.get k (Presets.presets (Presets.fresh Presets.empty_store)) = Some p ->
               JsMap.get k (Presets.presets
                              (Presets.ensureDefaultPresets 1
                                 (Presets.fresh Presets.empty_store)))
               = Some p)
  /\ Shape.complete
       (Presets.presets
          (Presets.ensureDefaultPresets 1 (Presets.fresh Presets.empty_store)))
  /\ Presets.ensureDefaultPresets 2
       (Presets.ensureDefaultPresets 1 (Presets.fresh Presets.empty_store))
     = Presets.ensureDefaultPresets 1 (Presets.fresh Presets.empty_store).
Proof.
  apply (defaults_complete_and_keep 1 2 (Presets.fresh Presets.empty_store)).
  apply SoundFacts.wf_nil.
Defined.

(** X21.  Migration is idempotent: once [migrateFromUrlSystem] has run,
    running it again, at any later time, changes nothing; a migration that
    inserted a preset has removed the legacy keys. *)
Theorem migration_is_idempotent :
  forall (now now' : N) (s : Presets.State),
    Presets.migrateFromUrlSystem now' (Presets.migrateFromUrlSystem now s)
    = Presets.migrateFromUrlSystem now s
    /\ (Presets.legacy (Presets.store (Presets.migrateFromUrlSystem now s))
        = Presets.no_legacy
        \/ Presets.migrateFromUrlSystem now s = s).
Proof.
  intros now now' s. split; [apply WriterFacts.migrate_idempotent|].
  destruct (WriterFacts.migrate_cases s) as [H|H]; [left|right]; apply H.
Qed.

(* ================================================================== *)
(** * Lengths *)
(* ================================================================== *)

Module LengthFacts.
Import JsChar JsString.

Lemma length_drop_le (q : ascii -> bool) (s : string) :
  String.length (drop_while q s) <= String.length s.
Proof.
  induction s as [|c s IH]; [reflexivity|].
  cbn [drop_while]. destruct (q c); cbn [String.length]; lia.
Qed.

Lemma drop_run (q : ascii -> bool) (s : string) :
  String.length (drop_while q s) + Format.run_length q s = String.length s.
Proof.
  induction s as [|c s IH]; [reflexivity|].
  cbn [drop_while Format.run_length]. destruct (q c); cbn [String.length]; lia.
Qed.

Lemma length_trimEnd (s : string) : String.length (trimEnd s) <= String.length s.
Proof.
  induction s as [|c s IH]; [reflexivity|].
  cbn [trimEnd]. destruct (trimEnd s) as [|d r].
  - destruct (is_space c); cbn [String.length]; lia.
  - cbn [String.length] in *. lia.
Qed.

Lemma length_trim (s : string) : String.length (trim s) <= String.length s.
Proof.
  unfold trim, trimStart. pose proof (length_trimEnd (drop_while is_space s)).
  pose proof (length_drop_le is_space s). lia.
Qed.

Lemma length_append (a b : string) :
  String.length (a ++ b) = String.length a + String.length b.
Proof. induction a as [|c a IH]; cbn; [reflexivity|rewrite IH; reflexivity]. Qed.

Lemma length_take (n : nat) (s : string) : String.length (take n s) <= n.
Proof.
  revert s. induction n as [|n IH]; intros [|c s]; cbn [take String.length]; try lia.
  specialize (IH s). lia.
Qed.

Lemma length_take_le (n : nat) (s : string) :
  String.length (take n s) <= String.length s.
Proof.
  revert s. induction n as [|n IH]; intros [|c s]; cbn [take String.length]; try lia.
  specialize (IH s). lia.
Qed.

Lemma length_of_list (l : list ascii) :
  String.length (string_of_list_ascii l) = List.length l.
Proof. induction l as [|c l IH]; cbn; [reflexivity|rewrite IH; reflexivity]. Qed.

Lemma length_piece (cur : list ascii) :
  String.length (string_of_list_ascii (List.rev cur)) = List.length cur.
Proof. rewrite length_of_list. apply List.length_rev. Qed.

Lemma firstn_In {A : Type} (n : nat) (l : list A) (x : A) :
  In x (List.firstn n l) -> In x l.
Proof.
  revert l. induction n as [|n IH]; intros [|y l]; cbn [List.firstn In]; try tauto.
  intros [H|H]; [left; exact H|right; apply IH; exact H].
Qed.

End LengthFacts.

(* ================================================================== *)
(** * The history and the folders in the local store *)
(* ================================================================== *)

Module StorageFacts.
Import JsString Storage StringFacts LengthFacts.

Lemma length_truncate_stored (s : string) :
  String.length (truncate_stored s) <= MAX_TEXT_LENGTH + 15.
Proof.
  unfold truncate_stored. destruct (MAX_TEXT_LENGTH <? String.length s) eqn:E.
  - rewrite length_append. pose proof (length_take MAX_TEXT_LENGTH s).
    change (String.length "... [truncated]") with 15. lia.
  - apply Nat.ltb_ge in E. lia.
Qed.

Lemma truncate_stored_short (s : string) :
  String.length s <= MAX_TEXT_LENGTH -> truncate_stored s = s.
Proof.
  intro H. unfold truncate_stored. apply Nat.ltb_ge in H. rewrite H. reflexivity.
Qed.

Section Local.
Context {Session Analysis : Type}.
Variable uuid : nat -> string.

(** What [getHistory] completes: each item keeps everything but a missing
    id. *)
Lemma fill_ids_spec (items : list History.Transcription) :
  forall n,
    List.length (fst (fill_ids uuid n items)) = List.length items
    /\ (forall item, In item (fst (fill_ids uuid n items)) ->
                     exists old k,
                       In old items
                       /\ ((History.id old <> "" /\ item = old)
                           \/ (History.id old = ""
                               /\ item = History.with_id (uuid k) old))).
Proof.
  induction items as [|x items IH]; intro n.
  - split; [reflexivity|intros item []].
  - cbn [fill_ids]. destruct (truthy (History.id x)) eqn:Hx; cbn [negb].
    + destruct (fill_ids uuid n items) as [rest n'] eqn:E.
      specialize (IH n). rewrite E in IH. cbn [fst] in *. destruct IH as [Hl Hin].
      split; [cbn [List.length]; rewrite Hl; reflexivity|].
      apply truthy_true in Hx.
      intros item [<-|Hi].
      * exists x, 0. split; [left; reflexivity|]. left. split; [exact Hx|reflexivity].
      * destruct (Hin item Hi) as (old & k & Ho & H1).
        exists old, k. split; [right; exact Ho|exact H1].
    + destruct (fill_ids uuid (S n) items) as [rest n'] eqn:E.
      specialize (IH (S n)). rewrite E in IH. cbn [fst] in *. destruct IH as [Hl Hin].
      split; [cbn [List.length]; rewrite Hl; reflexivity|].
      apply truthy_false in Hx.
      intros item [<-|Hi].
      * exists x, n. split; [left; reflexivity|]. right. split; [exact Hx|reflexivity].
      * destruct (Hin item Hi) as (old & k & Ho & H1).
        exists old, k. split; [right; exact Ho|exact H1].
Qed.

Lemma getHistory_spec (st : @Storage.Local Session Analysis) (n : nat) :
  let '(h, st', _) := getHistory uuid st n in
  history st' = h /\ folders st' = folders st
  /\ yapprSessions st' = yapprSessions st /\ yapprAnalyses st' = yapprAnalyses st
  /\ h = fst (fill_ids uuid n (history st)).
Proof.
  unfold getHistory. destruct (fill_ids uuid n (history st)) as [items n'].
  cbn. repeat split.
Qed.

Lemma cleanup_keeps (st : @Storage.Local Session Analysis) :
  history (cleanupAnalyses (cleanupSessions st)) = history st
  /\ folders (cleanupAnalyses (cleanupSessions st)) = folders st.
Proof.
  unfold cleanupAnalyses, cleanupSessions.
  destruct (MAX_SESSIONS <? _); cbn [yapprAnalyses];
    destruct (MAX_ANALYSES <? _); cbn; split; reflexivity.
Qed.

Lemma cleanupHistory_spec (h : list History.Transcription) (st : @Storage.Local Session Analysis) :
  fst (cleanupHistory h st) = List.firstn MAX_HISTORY_ITEMS h
  /\ folders (snd (cleanupHistory h st)) = folders st.
Proof.
  unfold cleanupHistory. destruct (List.length h <=? MAX_HISTORY_ITEMS) eqn:E.
  - apply Nat.leb_le in E. cbn [fst snd]. split; [|reflexivity].
    symmetry. apply List.firstn_all2. exact E.
  - cbn [fst snd]. split; [reflexivity|]. apply (proj2 (cleanup_keeps st)).
Qed.

(** The history [addTranscription] writes. *)
Lemma added_history (t : History.Transcription) (st : @Storage.Local Session Analysis) (n : nat) :
  history (fst (addTranscription uuid t st n))
  = List.firstn MAX_HISTORY_ITEMS
      (optimizeTranscription
         (if negb (truthy (History.id t))
          then History.with_id (uuid (snd (fill_ids uuid n (history st)))) t else t)
       :: fst (fill_ids uuid n (history st)))
  /\ folders (fst (addTranscription uuid t st n)) = folders st.
Proof.
  unfold addTranscription, getHistory.
  destruct (fill_ids uuid n (history st)) as [items n'] eqn:E. cbn [fst snd].
  destruct (negb (truthy (History.id t)));
    match goal with
    | |- context [cleanupHistory ?h ?s] =>
        pose proof (cleanupHistory_spec h s) as [H1 H2];
        destruct (cleanupHistory h s) as [cleaned st']
    end; cbn [fst snd] in *; cbn [with_history history folders];
    (split; [exact H1|exact H2]).
Qed.

End Local.

End StorageFacts.
(** X22.  [addTranscription] keeps the history within its limits: after
    the call the history has at most 500 items and starts with the new
    item, whose text and raw text are cut to 5000 units plus the truncation
    mark; every item has an id (the environment never hands out an empty
    one); the texts all respect the bound if they did before; and the
    folders are untouched. *)
Theorem add_keeps_history_bounded :
  forall (Session Analysis : Type) (uuid : nat -> string)
         (t : History.Transcription) (st : @Storage.Local Session Analysis) (n : nat),
    (forall k, uuid k <> "") ->
    let st' := fst (Storage.addTranscription uuid t st n) in
    List.length (Storage.history st') <= Storage.MAX_HISTORY_ITEMS
    /\ (exists newest rest,
           Storage.history st' = newest :: rest
           /\ History.text newest = Storage.truncate_stored (History.text t)
           /\ History.rawText newest
              = option_map Storage.truncate_stored (History.rawText t)
           /\ String.length (History.text newest) <= Storage.MAX_TEXT_LENGTH + 15
           /\ History.folderId newest = History.folderId t)
    /\ (forall item, In item (Storage.history st') -> History.id item <> "")
    /\ (Storage.tidy st -> Storage.tidy st')
    /\ Storage.folders st' = Storage.folders st.
Proof.
  intros Session Analysis uuid t st n Huuid st'. subst st'.
  destruct (StorageFacts.added_history uuid t st n) as [Hh Hf].
  set (t' := if negb (JsString.truthy (History.id t))
             then History.with_id
                    (uuid (snd (Storage.fill_ids uuid n (Storage.history st)))) t
             else t) in Hh.
  assert (Ht' : History.id t' <> "" /\ History.text t' = History.text t
                /\ History.rawText t' = History.rawText t
                /\ History.folderId t' = History.folderId t).
  { subst t'. destruct (JsString.truthy (History.id t)) eqn:E; cbn [negb].
    - apply StringFacts.truthy_true in E. repeat split. exact E.
    - cbn. repeat split. apply Huuid. }
  destruct Ht' as (Hid & Htext & Hraw & Hfolder).
  destruct (StorageFacts.fill_ids_spec uuid (Storage.history st) n) as [_ Hfill].
  assert (Hids : forall item,
             In item (fst (Storage.fill_ids uuid n (Storage.history st))) ->
             History.id item <> ""
             /\ exists old, In old (Storage.history st)
                            /\ History.text item = History.text old).
  { intros item Hin. destruct (Hfill item Hin) as (old & k & Ho & [[H1 ->]|[H1 ->]]).
    - split; [exact H1|]. exists old. split; [exact Ho|reflexivity].
    - split; [apply Huuid|]. exists old. split; [exact Ho|reflexivity]. }
  rewrite Hh. split; [apply List.firstn_le_length|].
  split.
  - change Storage.MAX_HISTORY_ITEMS with (S 499). cbn [List.firstn].
    eexists. eexists. split; [reflexivity|].
    cbn [Storage.optimizeTranscription History.with_texts History.text
         History.rawText History.folderId].
    rewrite Htext, Hraw. repeat split.
    + apply StorageFacts.length_truncate_stored.
    + exact Hfolder.
  - split; [|split; [|exact Hf]].
    + intros item Hin. apply LengthFacts.firstn_In in Hin. destruct Hin as [<-|Hin].
      * exact Hid.
      * apply (Hids item Hin).
    + intros Htidy item Hin. rewrite Hh in Hin.
      apply LengthFacts.firstn_In in Hin. destruct Hin as [<-|Hin].
      * split; [exact Hid|]. cbn [Storage.optimizeTranscription History.with_texts
                                  History.text].
        apply StorageFacts.length_truncate_stored.
      * destruct (Hids item Hin) as [H1 (old & Ho & Ht)].
        split; [exact H1|]. rewrite Ht. apply (Htidy old Ho).
Qed.

Lemma add_keeps_history_bounded_witness :
  let st' := fst (Storage.addTranscription Scenarios.uuids Scenarios.note
                    Scenarios.one_note 0) in
  List.length (Storage.history st') <= Storage.MAX_HISTORY_ITEMS
  /\ (exists newest rest,
         Storage.history st' = newest :: rest
         /\ History.text newest = Storage.truncate_stored (History.text Scenarios.note)
         /\ History.rawText newest
            = option_map Storage.truncate_stored (History.rawText Scenarios.note)
         /\ String.length (History.text newest) <= Storage.MAX_TEXT_LENGTH + 15
         /\ History.folderId newest = History.folderId Scenarios.note)
  /\ (forall item, In item (Storage.history st') -> History.id item <> "")
  /\ (Storage.tidy Scenarios.one_note -> Storage.tidy st')
  /\ Storage.folders st' = Storage.folders Scenarios.one_note.
Proof.
  apply (add_keeps_history_bounded unit unit Scenarios.uuids Scenarios.note
           Scenarios.one_note 0).
  intro k. unfold Scenarios.uuids. cbn [append]. discriminate.
Defined.

(** X23.  [deleteFolder] leaves no trace of the folder: afterwards no
    folder has the id, the other folders are all there, no item of the
    history names the folder, no item is lost, and if every item named an
    existing folder before, every item does so afterwards. *)
Theorem delete_folder_unlinks_history :
  forall (Session Analysis : Type) (uuid : nat -> string) (folderId : string)
         (st : @Storage.Local Session Analysis) (n : nat),
    let st' := fst (Storage.deleteFolder uuid folderId st n) in
    (forall f, In f (Storage.folders st') <->
               In f (Storage.folders st) /\ Folders.id f <> folderId)
    /\ (forall item, In item (Storage.history st') ->
                     History.folderId item <> Some folderId)
    /\ List.length (Storage.history st') = List.length (Storage.history st)
    /\ (Storage.linked st -> Storage.linked st').
Proof.
  intros Session Analysis uuid folderId st n st'. subst st'.
  unfold Storage.deleteFolder, Storage.getHistory.
  cbn [Storage.with_folders Storage.history].
  destruct (StorageFacts.fill_ids_spec uuid (Storage.history st) n) as [Hlen Hfill].
  destruct (Storage.fill_ids uuid n (Storage.history st)) as [items n'].
  cbn [fst Storage.with_history Storage.history Storage.folders] in *.
  assert (Hfolders : forall f,
             In f (List.filter
                     (fun f => negb (String.eqb (Folders.id f) folderId))
                     (Storage.folders st))
             <-> In f (Storage.folders st) /\ Folders.id f <> folderId).
  { intro f. rewrite List.filter_In, Bool.negb_true_iff, String.eqb_neq. tauto. }
  assert (Hitem : forall item,
             In item
                (List.map
                   (fun item =>
                      History.with_folder
                        (if Storage.refers_to folderId item then None
                         else History.folderId item)
                        (if Storage.refers_to folderId item then None
                         else History.folderName item) item) items) ->
             History.folderId item <> Some folderId
             /\ (forall f, History.folderId item = Some f ->
                           exists old, In old (Storage.history st)
                                       /\ History.folderId old = Some f)).
  { intros item Hin. apply List.in_map_iff in Hin. destruct Hin as [x [<- Hx]].
    cbn [History.with_folder History.folderId].
    destruct (Hfill x Hx) as (old & k & Ho & Hold).
    assert (Hf : History.folderId x = History.folderId old)
      by (destruct Hold as [[_ ->]|[_ ->]]; reflexivity).
    unfold Storage.refers_to.
    destruct (History.folderId x) as [f|] eqn:E; [|split; [discriminate|discriminate]].
    destruct (String.eqb f folderId) eqn:Ef; [split; discriminate|].
    apply String.eqb_neq in Ef. split; [congruence|].
    intros f' H. injection H as <-. exists old. split; [exact Ho|]. symmetry. exact Hf. }
  split; [exact Hfolders|]. split; [intros item Hin; apply (Hitem item Hin)|].
  split; [rewrite List.length_map; exact Hlen|].
  intros Hlinked item f Hin Hf.
  destruct (Hitem item Hin) as [Hne Hold].
  destruct (Hold f Hf) as (old & Ho & Hof).
  destruct (Hlinked old f Ho Hof) as (folder & Hfo & Hid).
  exists folder. split; [|exact Hid].
  apply Hfolders. split; [exact Hfo|]. rewrite Hid. congruence.
Qed.
(* ================================================================== *)
(** * What reaches the page *)
(* ================================================================== *)

Module BlankFacts.
Import JsChar JsString Regex Notions StringFacts MetricsFacts.













End BlankFacts.

Module DeliveryFacts.
Import JsChar JsString Presets StringFacts BlankFacts.





End DeliveryFacts.



(* ================================================================== *)
(** * The head of a formatted text *)
(* ================================================================== *)

Module HeadFacts.
Import JsChar JsString Regex Shape Format StringFacts MetricsFacts PlaceholderFacts.

Lemma solid_cons (c : ascii) (s : string) :
  solid_head (String c s) = true <-> is_space c = false.
Proof. cbn [solid_head]. apply Bool.negb_true_iff. Qed.

Lemma solid_nonempty (s : string) : solid_head s = true -> s <> "".
Proof. destruct s; [discriminate|discriminate]. Qed.

Lemma solid_trimStart (s : string) : solid_head s = true -> trimStart s = s.
Proof.
  destruct s as [|c s]; [discriminate|]. intro H. apply solid_cons in H.
  unfold trimStart. cbn [drop_while]. rewrite H. reflexivity.
Qed.

Lemma solid_append (a b : string) :
  solid_head a = true -> solid_head (a ++ b) = true.
Proof. destruct a; [discriminate|]. intro H. exact H. Qed.

Lemma solid_trimEnd (s : string) :
  solid_head s = true -> solid_head (trimEnd s) = true.
Proof.
  destruct s as [|c s]; [discriminate|]. intro H. pose proof H as H'.
  apply solid_cons in H'. rewrite trimEnd_cons_nonspace by exact H'. exact H.
Qed.

Lemma solid_trim (s : string) : trim s <> "" -> solid_head (trim s) = true.
Proof.
  unfold trim, trimStart. intro H.
  assert (Hd : solid_head (drop_while is_space s) = true).
  { induction s as [|c s IH]; [exfalso; apply H; reflexivity|].
    cbn [drop_while] in *. destruct (is_space c) eqn:Hc; [apply IH; exact H|].
    apply solid_cons. exact Hc. }
  apply solid_trimEnd. exact Hd.
Qed.

Lemma solid_trim_solid (s : string) :
  solid_head s = true -> solid_head (trim s) = true.
Proof.
  intro H. unfold trim. rewrite solid_trimStart by exact H.
  apply solid_trimEnd. exact H.
Qed.

Lemma solid_join (sep : string) (parts : list string) :
  parts <> [] -> Forall (fun p => solid_head p = true) parts ->
  solid_head (join sep parts) = true.
Proof.
  destruct parts as [|p rest]; [contradiction|]. intros _ H.
  inversion H as [|? ? Hp _]; subst. cbn [join].
  destruct rest; [exact Hp|apply solid_append; exact Hp].
Qed.

(** ** A replacement that cannot start at the head *)

Lemma replace_go_head (r : regex) (rep : replacer) (prev : option ascii)
      (before : list ascii) (c : ascii) (s : string) :
  match_at r prev (String c s) = None ->
  exists rest, replace_go r rep 0 prev before (String c s) = String c rest.
Proof. intro H. cbn [replace_go]. rewrite H. eexists. reflexivity. Qed.

Lemma ws_needs_space (prev : option ascii) (c : ascii) (s : string) :
  is_space c = false -> match_at re_ws prev (String c s) = None.
Proof. intro H. rewrite match_ws. cbn [run_length]. rewrite H. reflexivity. Qed.

Lemma space_before_end_needs_space (prev : option ascii) (c : ascii) (s : string) :
  is_space c = false -> match_at re_space_before_end prev (String c s) = None.
Proof.
  intro H. unfold match_at, re_space_before_end, plus. unfold ws at 1.
  cbn [rmatch]. rewrite H. reflexivity.
Qed.

Lemma solid_replace (r : regex) (template : string) (s : string) :
  (forall prev c s', is_space c = false -> match_at r prev (String c s') = None) ->
  solid_head s = true -> solid_head (replace r template s) = true.
Proof.
  intros Hr Hs. destruct s as [|c s]; [discriminate|]. pose proof Hs as Hc.
  apply solid_cons in Hc. unfold replace, replace_with.
  destruct (replace_go_head r (fun mi => expand (group_count r) mi template)
              None [] c s (Hr None c s Hc)) as [rest ->].
  exact Hs.
Qed.

(** ** The sentence gap *)

Lemma expand_gap (mi : minfo) :
  expand 2 mi "$1 $2" = cap_text 1 mi ++ String " " (cap_text 2 mi ++ "").
Proof. vm_compute. reflexivity. Qed.

(** A match of the sentence gap at a mark captures the mark. *)
Lemma match_gap (prev : option ascii) (c : ascii) (s : string) (n : nat)
      (caps : captures) :
  match_at re_sentence_gap prev (String c s) = Some (n, caps) ->
  cap_get 1 caps = Some (String c EmptyString).
Proof.
  unfold match_at, re_sentence_gap, seqs, cls. cbn [rmatch].
  destruct (one_of ".!?" c); [|discriminate].
  destruct (star_loop _ _ _ _ _ _ _) as [[s3 caps3]|] eqn:E; [|discriminate].
  intro H. injection H as _ <-.
  apply star_class_sound in E. destruct E as (pre & s' & prev' & Hs & Hk).
  destruct s' as [|u s4]; [discriminate Hk|].
  destruct (is_upper_az u); [|discriminate Hk].
  unfold accept, cap_set in Hk. injection Hk as _ <-.
  cbn [cap_get Nat.eqb]. f_equal.
  match goal with
  | |- take ?n (String c s) = _ =>
      replace n with 1; [reflexivity|]
  end.
  destruct (String.length s) as [|l] eqn:El; [reflexivity|lia].
Qed.

Lemma solid_gap (s : string) :
  solid_head s = true -> solid_head (replace re_sentence_gap "$1 $2" s) = true.
Proof.
  intro Hs. destruct s as [|c s]; [discriminate|].
  unfold replace, replace_with. cbn [replace_go].
  destruct (match_at re_sentence_gap None (String c s)) as [[n caps]|] eqn:E;
    [|exact Hs].
  apply match_gap in E.
  change (group_count re_sentence_gap) with 2. rewrite expand_gap.
  unfold cap_text at 1. cbn [m_caps]. rewrite E. exact Hs.
Qed.

(** ** The paragraph loop *)

Lemma solid_step (a : acc) (raw : string) :
  Forall (fun p => solid_head p = true) (paragraphs a) ->
  Forall (fun p => solid_head p = true) (currentParagraph a) ->
  Forall (fun p => solid_head p = true) (paragraphs (step a raw))
  /\ Forall (fun p => solid_head p = true) (currentParagraph (step a raw)).
Proof.
  intros Hp Hc. unfold step.
  destruct (truthy (trim raw)) eqn:Ht; cbn [negb]; [|split; assumption].
  apply truthy_true in Ht. apply solid_trim in Ht.
  destruct (shouldBreak a (trim raw) && (0 <? List.length (currentParagraph a)))
    eqn:Hb; cbn [paragraphs currentParagraph].
  - apply Bool.andb_true_iff in Hb. destruct Hb as [_ Hlen].
    apply Nat.ltb_lt in Hlen. split.
    + apply List.Forall_app. split; [exact Hp|]. constructor; [|constructor].
      apply solid_trim_solid. apply solid_join; [|exact Hc].
      destruct (currentParagraph a); [cbn in Hlen; lia|discriminate].
    + constructor; [exact Ht|constructor].
  - split; [exact Hp|]. apply List.Forall_app. split; [exact Hc|].
    constructor; [exact Ht|constructor].
Qed.

Lemma solid_fold (sentences : list string) :
  forall a,
    Forall (fun p => solid_head p = true) (paragraphs a) ->
    Forall (fun p => solid_head p = true) (currentParagraph a) ->
    Forall (fun p => solid_head p = true)
           (paragraphs (List.fold_left step sentences a))
    /\ Forall (fun p => solid_head p = true)
              (currentParagraph (List.fold_left step sentences a)).
Proof.
  induction sentences as [|x xs IH]; intros a Hp Hc; [split; assumption|].
  cbn [List.fold_left]. destruct (solid_step a x Hp Hc) as [Hp' Hc'].
  apply IH; assumption.
Qed.

(** The formatted form of a text that is not blank starts with a unit
    that is not white space. *)
Lemma solid_format (text : string) :
  trim text <> "" -> solid_head (formatTextIntoParagraphs text) = true.
Proof.
  intro Ht. unfold formatTextIntoParagraphs.
  assert (Hne : text <> "") by (intro E; subst text; apply Ht; reflexivity).
  apply truthy_true in Hne. rewrite Hne. cbn [negb orb].
  assert (Hlen : (String.length (trim text) =? 0) = false).
  { apply Nat.eqb_neq. destruct (trim text); [contradiction|discriminate]. }
  rewrite Hlen.
  set (cleanText := replace re_sentence_gap "$1 $2" (replace re_ws " " (trim text))).
  assert (Hclean : solid_head cleanText = true).
  { apply solid_gap. apply solid_replace; [apply ws_needs_space|].
    apply solid_trim. exact Ht. }
  clearbody cleanText.
  destruct (List.length (List.filter nonblank (split re_delimiters cleanText)) <=? 2);
    [exact Hclean|].
  destruct (solid_fold (List.filter nonblank (split re_delimiters cleanText))
              (Acc [] [] 0 0) (Forall_nil _) (Forall_nil _)) as [Hp Hc].
  set (a := List.fold_left step _ _) in *. clearbody a.
  apply solid_replace; [apply space_before_end_needs_space|].
  set (ps := if 0 <? List.length (currentParagraph a)
             then (paragraphs a ++ [trim (join " " (currentParagraph a))])%list
             else paragraphs a).
  assert (Hps : Forall (fun p => solid_head p = true) ps).
  { subst ps. destruct (0 <? List.length (currentParagraph a)) eqn:E; [|exact Hp].
    apply Nat.ltb_lt in E. apply List.Forall_app. split; [exact Hp|].
    constructor; [|constructor]. apply solid_trim_solid.
    apply solid_join; [|exact Hc].
    destruct (currentParagraph a); [cbn in E; lia|discriminate]. }
  clearbody ps. destruct (1 <? List.length ps) eqn:E; [|exact Hclean].
  apply Nat.ltb_lt in E. apply solid_join; [|exact Hps].
  destruct ps; [cbn in E; lia|discriminate].
Qed.

End HeadFacts.
Module PipelineFacts.
Import JsChar JsString Shape Format StringFacts ExtractFacts HeadFacts.

(** The extractor on a transcript without leading white space and a
    tidy phrase. *)
Lemma extract_tidy (t p : string) :
  p <> "" -> trimStart t = t -> trim p = p ->
  extractCleanContent t p = Notions.extract_described t p.
Proof.
  intros Hp Ht Htp. unfold extractCleanContent, Notions.extract_described.
  destruct t as [|c t'];
    [destruct p; [contradiction|rewrite Htp; reflexivity]|].
  set (t := String c t') in *.
  apply truthy_true in Hp. rewrite Hp.
  cbn [truthy negb orb]. unfold t at 1. cbv iota.
  rewrite !trim_lower, Htp.
  destruct (startsWith (toLowerCase (trim t)) (toLowerCase p)) eqn:Hs; [|reflexivity].
  rewrite loops_drop_runs.
  apply startsWith_length in Hs. rewrite !length_lower in Hs.
  unfold trim in *. rewrite Ht in *.
  symmetry. apply remainder_trimEnd. exact Hs.
Qed.

Lemma format_blank (text : string) :
  trim text = "" -> formatTextIntoParagraphs text = text.
Proof.
  intro H. unfold formatTextIntoParagraphs. rewrite H.
  cbn [String.length Nat.eqb]. rewrite Bool.orb_true_r. reflexivity.
Qed.

Lemma startsWith_nonempty (s p : string) :
  startsWith s p = true -> p <> "" -> s <> "".
Proof. destruct p; [contradiction|]. destruct s; [discriminate|discriminate]. Qed.

(** A formatted text that matches a tidy phrase has no leading white
    space. *)
Lemma matched_is_solid (text phrase : string) :
  phrase <> "" -> trim phrase = phrase ->
  startsWith (trim (toLowerCase (formatTextIntoParagraphs text)))
             (trim (toLowerCase phrase)) = true ->
  trimStart (formatTextIntoParagraphs text) = formatTextIntoParagraphs text.
Proof.
  intros Hp Htp Hs. rewrite !trim_lower, Htp in Hs.
  apply startsWith_nonempty in Hs;
    [|intro E; apply (proj1 (lower_empty _)) in E; contradiction].
  assert (Hf : trim (formatTextIntoParagraphs text) <> "")
    by (intro E; rewrite E in Hs; apply Hs; reflexivity).
  apply solid_trimStart.
  destruct (String.eqb (trim text) "") eqn:Hb.
  - apply String.eqb_eq in Hb. rewrite (format_blank text Hb) in Hf. contradiction.
  - apply String.eqb_neq in Hb. apply solid_format. exact Hb.
Qed.

Lemma find_some {A : Type} (f : A -> bool) (l : list A) (x : A) :
  List.find f l = Some x -> In x l /\ f x = true.
Proof. apply List.find_some. Qed.

(** The record as it is prepared, before it is saved. *)
Lemma prepared :
  forall (Session Analysis : Type) (fresh now serviceId raw cleaned : string)
         (duration : JsNumber.number) (st : @Storage.Local Session Analysis),
    (forall f, In f (Storage.folders st) ->
               Folders.activationPhrase f <> ""
               /\ JsString.trim (Folders.activationPhrase f)
                  = Folders.activationPhrase f) ->
    let formatted := Format.formatTextIntoParagraphs cleaned in
    let d := Pipeline.transcriptionData fresh now serviceId raw cleaned duration st in
    match Storage.findFolderByActivationPhrase formatted st with
    | Some folder =>
        In folder (Storage.folders st)
        /\ JsString.startsWith
             (JsString.toLowerCase (JsString.trim formatted))
             (JsString.toLowerCase (Folders.activationPhrase folder)) = true
        /\ History.text d
           = JsString.trim
               (JsString.drop_while JsChar.is_space
                  (JsString.drop_while Format.is_trailing_punct
                     (JsString.slice_from
                        (String.length (Folders.activationPhrase folder))
                        (JsString.trim formatted))))
        /\ History.folderId d = Some (Folders.id folder)
        /\ History.folderName d = Some (Folders.name folder)
    | None =>
        History.text d = formatted
        /\ History.folderId d = None /\ History.folderName d = None
    end
    /\ History.wordCount d = Notions.token_count (History.text d)
    /\ History.originalText d = formatted
    /\ (History.cleanedText d = None <-> cleaned = raw).
Proof.
  intros Session Analysis fresh now serviceId raw cleaned duration st Htidy
         formatted d.
  subst d. unfold Pipeline.transcriptionData. fold formatted.
  cbn [History.text History.folderId History.folderName History.wordCount
       History.originalText History.cleanedText].
  split; [|split; [apply MetricsFacts.countWords_tokens|split; [reflexivity|]]].
  - destruct (Storage.findFolderByActivationPhrase formatted st) as [folder|] eqn:E;
      [|repeat split].
    unfold Storage.findFolderByActivationPhrase in E.
    apply find_some in E. destruct E as [Hin Hs].
    destruct (Htidy folder Hin) as [Hne Htrim].
    assert (Hsolid : JsString.trimStart formatted = formatted)
      by (apply (matched_is_solid cleaned _ Hne Htrim); exact Hs).
    split; [exact Hin|].
    rewrite !ExtractFacts.trim_lower, Htrim in Hs.
    split; [exact Hs|]. split; [|split; reflexivity].
    cbn [option_map].
    rewrite (extract_tidy formatted _ Hne Hsolid Htrim).
    unfold Notions.extract_described. rewrite Htrim, Hs. reflexivity.
  - destruct (String.eqb cleaned raw) eqn:E.
    + apply String.eqb_eq in E. split; [intros _; exact E|reflexivity].
    + apply String.eqb_neq in E. split; [discriminate|contradiction].
Qed.

End PipelineFacts.

(** X25.  Formatting keeps the head of a text: a blank text is returned
    as it is, and the formatted form of any other text is not empty and
    starts with a unit that is not white space. *)
Theorem formatted_text_has_no_leading_space :
  forall text : string,
    (JsString.trim text = "" -> Format.formatTextIntoParagraphs text = text)
    /\ (JsString.trim text <> "" ->
        Format.formatTextIntoParagraphs text <> ""
        /\ JsString.trimStart (Format.formatTextIntoParagraphs text)
           = Format.formatTextIntoParagraphs text).
Proof.
  intro text. split; [apply PipelineFacts.format_blank|].
  intro H. apply HeadFacts.solid_format in H.
  split; [apply HeadFacts.solid_nonempty|apply HeadFacts.solid_trimStart]; exact H.
Qed.

Lemma formatted_text_has_no_leading_space_witness :
  Format.formatTextIntoParagraphs "  hello.   how are you? " <> ""
  /\ JsString.trimStart (Format.formatTextIntoParagraphs "  hello.   how are you? ")
     = Format.formatTextIntoParagraphs "  hello.   how are you? ".
Proof.
  apply (formatted_text_has_no_leading_space "  hello.   how are you? ").
  vm_compute. discriminate.
Defined.

(** X26.  What [handleSuccessfulTranscription] saves, when the
    environment hands out identifiers that are not empty and the activation
    phrases of the folders are non-empty and trimmed (as the folders page
    stores them).  The history then starts with the new record, under the
    fresh identifier.  Its content is, when a folder matches the formatted
    transcription, what follows the phrase, with the punctuation and the
    white space after it removed and the rest trimmed, and the formatted
    transcription otherwise; the record names the matching folder, which is
    the first one whose phrase the transcription starts with, or none.  The
    saved text is the content, cut to 5000 units with a mark when it is
    longer; so is the saved raw text; the word count is that of the content
    before the cut; the original text is the formatted transcription, and
    the cleaned text is kept only when it differs from the raw one. *)
Theorem saved_text_follows_folder_phrase :
  forall (Session Analysis : Type) (uuid : nat -> string)
         (now serviceId raw cleaned : string) (duration : JsNumber.number)
         (st : @Storage.Local Session Analysis) (n : nat),
    (forall k, uuid k <> "") ->
    (forall f, In f (Storage.folders st) ->
               Folders.activationPhrase f <> ""
               /\ JsString.trim (Folders.activationPhrase f)
                  = Folders.activationPhrase f) ->
    let formatted := Format.formatTextIntoParagraphs cleaned in
    let matching := Storage.findFolderByActivationPhrase formatted st in
    let content :=
      match matching with
      | Some folder =>
          JsString.trim
            (JsString.drop_while JsChar.is_space
               (JsString.drop_while Format.is_trailing_punct
                  (JsString.slice_from
                     (String.length (Folders.activationPhrase folder))
                     (JsString.trim formatted))))
      | None => formatted
      end in
    let cut text :=
      if 5000 <? String.length text
      then JsString.take 5000 text ++ "... [truncated]" else text in
    let st' :=
      fst (Pipeline.saveTranscription uuid now serviceId raw cleaned duration st n) in
    exists (d : History.Transcription) (rest : list History.Transcription),
      Storage.history st' = d :: rest
      /\ History.id d = uuid n
      /\ History.text d = cut content
      /\ History.rawText d = Some (cut raw)
      /\ History.wordCount d = Notions.token_count content
      /\ History.originalText d = formatted
      /\ (History.cleanedText d = None <-> cleaned = raw)
      /\ match matching with
         | Some folder =>
             In folder (Storage.folders st)
             /\ JsString.startsWith
                  (JsString.toLowerCase (JsString.trim formatted))
                  (JsString.toLowerCase (Folders.activationPhrase folder)) = true
             /\ History.folderId d = Some (Folders.id folder)
             /\ History.folderName d = Some (Folders.name folder)
         | None => History.folderId d = None /\ History.folderName d = None
         end.
Proof.
  intros Session Analysis uuid now serviceId raw cleaned duration st n Huuid Htidy
         formatted matching content cut st'.
  pose proof (PipelineFacts.prepared Session Analysis (uuid n) now serviceId raw
                cleaned duration st Htidy) as Hd.
  cbv zeta in Hd. fold formatted in Hd. fold matching in Hd.
  set (d0 := Pipeline.transcriptionData (uuid n) now serviceId raw cleaned duration st)
    in *.
  assert (Hid0 : JsString.truthy (History.id d0) = true)
    by (apply StringFacts.truthy_true; apply Huuid).
  subst st'. unfold Pipeline.saveTranscription, Pipeline.saveTranscriptionData.
  fold d0.
  pose proof (StorageFacts.added_history uuid d0 st (S n)) as [Hh _].
  rewrite Hid0 in Hh. cbn [negb] in Hh.
  destruct (Storage.addTranscription uuid d0 st (S n)) as [st1 n1].
  cbn [fst] in Hh. unfold Storage.getHistory.
  change Storage.MAX_HISTORY_ITEMS with (S 499) in Hh. cbn [List.firstn] in Hh.
  rewrite Hh. cbn [Storage.fill_ids].
  change (History.id (Storage.optimizeTranscription d0)) with (History.id d0).
  rewrite Hid0. cbn [negb].
  destruct (Storage.fill_ids uuid n1 _) as [items n2].
  cbn [fst Storage.with_history Storage.history].
  exists (Storage.optimizeTranscription d0), items.
  split; [reflexivity|]. split; [reflexivity|].
  destruct Hd as (Hmatch & Hcount & Horig & Hclean).
  assert (Htext : History.text d0 = content).
  { subst content. destruct matching as [folder|]; [apply Hmatch|apply Hmatch]. }
  cbn [Storage.optimizeTranscription History.with_texts History.text History.rawText
       History.wordCount History.originalText History.cleanedText History.folderId
       History.folderName].
  split; [rewrite Htext; reflexivity|].
  split; [reflexivity|].
  split; [rewrite Hcount, Htext; reflexivity|].
  split; [exact Horig|]. split; [exact Hclean|].
  destruct matching as [folder|].
  - destruct Hmatch as (H1 & H2 & _ & H4 & H5). repeat split; assumption.
  - destruct Hmatch as (_ & H4 & H5). split; assumption.
Qed.

Lemma saved_text_follows_folder_phrase_witness :
  exists (d : History.Transcription) (rest : list History.Transcription),
    Storage.history
      (fst (Pipeline.saveTranscription Scenarios.uuids "2025-01-03T00:00:00.000Z"
              "elevenlabs" "work note um finish the report"
              "Work note, finish the report." (JsNumber.of_Z 3) Scenarios.one_note 9))
    = d :: rest
    /\ History.id d = "u9"
    /\ History.text d = "finish the report."
    /\ History.wordCount d = 3
    /\ History.folderId d = Some "f1".
Proof.
  destruct (saved_text_follows_folder_phrase unit unit Scenarios.uuids
              "2025-01-03T00:00:00.000Z" "elevenlabs"
              "work note um finish the report" "Work note, finish the report."
              (JsNumber.of_Z 3) Scenarios.one_note 9)
    as (d & rest & H1 & H2 & H3 & _ & H5 & _ & _ & H8).
  - intro k. unfold Scenarios.uuids. cbn [append]. discriminate.
  - intros f [<-|[]]. split; [discriminate|reflexivity].
  - exists d, rest. split; [exact H1|]. split; [exact H2|].
    split; [rewrite H3; vm_compute; reflexivity|].
    split; [rewrite H5; vm_compute; reflexivity|].
    vm_compute in H8. apply H8.
Defined.

(* ================================================================== *)
(** * The folders page keeps the folders orderly *)
(* ================================================================== *)

Module FolderFacts.
Import JsString Storage FoldersPage StringFacts.

Lemma NoDup_snoc {A : Type} (l : list A) (x : A) :
  NoDup l -> ~ In x l -> NoDup (l ++ [x]).
Proof.
  intros Hl Hx. apply List.NoDup_rev in Hl.
  rewrite <- (List.rev_involutive (l ++ [x])). apply List.NoDup_rev.
  rewrite List.rev_app_distr. cbn [List.rev List.app].
  constructor; [|exact Hl]. rewrite <- List.in_rev. exact Hx.
Qed.

(** What an update writes: the ids stay, and each folder afterwards is
    an untouched one with another id or carries the new name and phrase. *)
Lemma update_first_spec (e n p : string) (fs : list Folders.Folder) :
  NoDup (List.map Folders.id fs) ->
  forall fs',
    update_first e n p fs = Some fs' ->
    List.map Folders.id fs' = List.map Folders.id fs
    /\ forall x, In x fs' ->
                 (In x fs /\ Folders.id x <> e)
                 \/ (Folders.id x = e /\ Folders.name x = n
                     /\ Folders.activationPhrase x = p).
Proof.
  induction fs as [|f fs IH]; intros Hd fs' H; [discriminate|].
  cbn [List.map] in Hd. inversion Hd as [|? ? Hnot Hd']; subst.
  cbn [update_first] in H. destruct (String.eqb (Folders.id f) e) eqn:E.
  - injection H as <-. apply String.eqb_eq in E. split; [reflexivity|].
    intros x [<-|Hx].
    + right. cbn. repeat split. exact E.
    + left. split; [right; exact Hx|]. intro Hxe. apply Hnot.
      rewrite E, <- Hxe. apply List.in_map. exact Hx.
  - apply String.eqb_neq in E.
    destruct (update_first e n p fs) as [fs''|]; [|discriminate].
    cbn [option_map] in H. injection H as <-.
    destruct (IH Hd' fs'' eq_refl) as [Hids Hin].
    split; [cbn [List.map]; rewrite Hids; reflexivity|].
    intros x [<-|Hx].
    + left. split; [left; reflexivity|exact E].
    + destruct (Hin x Hx) as [[H1 H2]|H1]; [left; split; [right; exact H1|exact H2]|].
      right. exact H1.
Qed.

Lemma update_NoDup {A : Type} (g : Folders.Folder -> A) (a : A)
      (e n p : string) (fs : list Folders.Folder) :
  NoDup (List.map Folders.id fs) -> NoDup (List.map g fs) ->
  (forall f, In f fs -> Folders.id f <> e -> g f <> a) ->
  (forall x, Folders.id x = e -> Folders.name x = n ->
             Folders.activationPhrase x = p -> g x = a) ->
  forall fs', update_first e n p fs = Some fs' -> NoDup (List.map g fs').
Proof.
  intros Hd Hg Hother Hnew.
  induction fs as [|f fs IH]; intros fs' H; [discriminate|].
  cbn [List.map] in Hd, Hg.
  inversion Hd as [|? ? Hnot Hd']; subst. inversion Hg as [|? ? Hgnot Hg']; subst.
  pose proof (update_first_spec e n p (f :: fs) Hd fs' H) as [_ Hin].
  cbn [update_first] in H. destruct (String.eqb (Folders.id f) e) eqn:E.
  - injection H as <-. cbn [List.map]. constructor; [|exact Hg'].
    apply String.eqb_eq in E.
    match goal with
    | |- ~ In (g ?x) _ => rewrite (Hnew x E eq_refl eq_refl)
    end.
    intro Ha.
    apply List.in_map_iff in Ha. destruct Ha as [x [Hx Hxin]].
    refine (Hother x (or_intror Hxin) _ Hx).
    intro Hxe. apply Hnot. rewrite E, <- Hxe. apply List.in_map. exact Hxin.
  - apply String.eqb_neq in E.
    destruct (update_first e n p fs) as [fs''|] eqn:Hu; [|discriminate].
    cbn [option_map] in H. injection H as <-. cbn [List.map]. constructor.
    + intro Ha. apply List.in_map_iff in Ha. destruct Ha as [x [Hx Hxin]].
      destruct (Hin x (or_intror Hxin)) as [[[<-|H1] H2]|(H1 & H2 & H3)].
      * (* x is the head itself: it occurs once among the ids *)
        destruct (update_first_spec e n p fs Hd' fs'' Hu) as [Hids _].
        apply Hnot. rewrite <- Hids. apply List.in_map. exact Hxin.
      * apply Hgnot. rewrite <- Hx. apply List.in_map. exact H1.
      * apply (Hother f (or_introl eq_refl) E). rewrite <- Hx.
        apply Hnew; assumption.
    + apply IH; [exact Hd'|exact Hg'| |reflexivity].
      intros f0 Hf0. apply Hother. right. exact Hf0.
Qed.

Lemma existsb_key {A B : Type} (key : A -> B) (p q : A -> bool) :
  (forall x y, key x = key y -> p x = q y) ->
  forall l1 l2, List.map key l1 = List.map key l2 ->
                existsb p l1 = existsb q l2.
Proof.
  intros Hpq. induction l1 as [|x l1 IH]; intros [|y l2] H; try discriminate.
  - reflexivity.
  - injection H as Hxy H. cbn [existsb]. rewrite (Hpq x y Hxy), (IH l2 H).
    reflexivity.
Qed.

Lemma name_used_sync (skip : option string) (n : string)
      (fs1 fs2 : list Folders.Folder) :
  List.map Folders.key fs1 = List.map Folders.key fs2 ->
  name_used skip n fs1 = name_used skip n fs2
  /\ phrase_used skip n fs1 = phrase_used skip n fs2.
Proof.
  intro H. unfold name_used, phrase_used.
  split; apply (existsb_key Folders.key); try exact H;
    intros x y Hk; unfold Folders.key in Hk; injection Hk as H1 H2 H3;
    rewrite ?H1, ?H2, ?H3; reflexivity.
Qed.

Lemma existsb_false {A : Type} (p : A -> bool) (l : list A) :
  existsb p l = false -> forall x, In x l -> p x = false.
Proof.
  intros H x Hx. destruct (p x) eqn:E; [|reflexivity].
  assert (Ht : existsb p l = true) by (apply List.existsb_exists; eauto).
  congruence.
Qed.

Lemma name_free (skip : option string) (n : string) (fs : list Folders.Folder) :
  name_used skip n fs = false ->
  forall f, In f fs ->
            match skip with Some self => Folders.id f <> self | None => True end ->
            toLowerCase (Folders.name f) <> toLowerCase n.
Proof.
  intros H f Hf Hskip E. pose proof (existsb_false _ _ H f Hf) as Hp.
  cbn beta in Hp. rewrite E, String.eqb_refl, Bool.andb_true_r in Hp.
  destruct skip as [self|]; [|discriminate Hp].
  apply Bool.negb_false_iff, String.eqb_eq in Hp. contradiction.
Qed.

Lemma phrase_free (skip : option string) (p : string) (fs : list Folders.Folder) :
  phrase_used skip p fs = false ->
  forall f, In f fs ->
            match skip with Some self => Folders.id f <> self | None => True end ->
            toLowerCase (Folders.activationPhrase f) <> toLowerCase p.
Proof.
  intros H f Hf Hskip E. pose proof (existsb_false _ _ H f Hf) as Hp.
  cbn beta in Hp. rewrite E, String.eqb_refl, Bool.andb_true_r in Hp.
  destruct skip as [self|]; [|discriminate Hp].
  apply Bool.negb_false_iff, String.eqb_eq in Hp. contradiction.
Qed.

Section Page.
Context {Session Analysis : Type}.
Variable uuid : nat -> string.

Lemma getHistory_folders (st : @Storage.Local Session Analysis) (n : nat) :
  Storage.folders (snd (fst (getHistory uuid st n))) = Storage.folders st.
Proof.
  unfold getHistory. destruct (fill_ids uuid n (history st)) as [items n'].
  reflexivity.
Qed.

Lemma loadData_spec (editing : option string)
      (st : @Storage.Local Session Analysis) (n : nat) :
  in_sync (loadData uuid editing st n)
  /\ Storage.folders (storage (loadData uuid editing st n)) = Storage.folders st
  /\ currentEditingFolderId (loadData uuid editing st n) = editing.
Proof.
  unfold loadData, getFolderStats, in_sync.
  pose proof (getHistory_folders st n) as Hf.
  destruct (getHistory uuid st n) as [[h st'] n']. cbn [fst snd] in Hf.
  cbn [FoldersPage.folders storage currentEditingFolderId].
  split; [|split; [exact Hf|reflexivity]].
  rewrite List.map_map, Hf. apply List.map_ext. intro f. reflexivity.
Qed.

Lemma create_orderly (nameField phraseField now : string)
      (pg : @Page Session Analysis) :
  in_sync pg -> Folders.orderly (Storage.folders (storage pg)) ->
  (forall f, In f (Storage.folders (storage pg)) -> Folders.id f <> uuid (drawn pg)) ->
  in_sync (snd (handleCreateFolder uuid nameField phraseField now pg))
  /\ Folders.orderly
       (Storage.folders
          (storage (snd (handleCreateFolder uuid nameField phraseField now pg)))).
Proof.
  intros Hsync Hord Hfresh. pose proof Hord as (Hids & Hnames & Hphrases & Htidy).
  unfold handleCreateFolder.
  destruct (truthy (trim nameField)) eqn:Hn; cbn [negb orb]; [|split; assumption].
  destruct (truthy (trim phraseField)) eqn:Hp; cbn [negb]; [|split; assumption].
  destruct (name_used_sync None (trim nameField) _ _ Hsync) as [En _].
  destruct (name_used_sync None (trim phraseField) _ _ Hsync) as [_ Ep].
  rewrite En, Ep.
  destruct (name_used None (trim nameField) (Storage.folders (storage pg))) eqn:Hnu;
    [split; assumption|].
  destruct (phrase_used None (trim phraseField) (Storage.folders (storage pg)))
    eqn:Hpu; [split; assumption|].
  cbn [createFolder snd].
  match goal with
  | |- context [loadData uuid ?e ?st ?n] =>
      destruct (loadData_spec e st n) as (Hs' & Hf' & _)
  end.
  split; [exact Hs'|]. rewrite Hf'. cbn [with_folders Storage.folders].
  apply truthy_true in Hn. apply truthy_true in Hp.
  unfold Folders.orderly. rewrite !List.map_app. cbn [List.map Folders.id
    Folders.name Folders.activationPhrase].
  split; [|split; [|split]].
  - apply NoDup_snoc; [exact Hids|]. intro Hin. apply List.in_map_iff in Hin.
    destruct Hin as [f [Hf Hfin]]. exact (Hfresh f Hfin Hf).
  - apply NoDup_snoc; [exact Hnames|]. intro Hin. apply List.in_map_iff in Hin.
    destruct Hin as [f [Hf Hfin]]. exact (name_free None _ _ Hnu f Hfin I Hf).
  - apply NoDup_snoc; [exact Hphrases|]. intro Hin. apply List.in_map_iff in Hin.
    destruct Hin as [f [Hf Hfin]]. exact (phrase_free None _ _ Hpu f Hfin I Hf).
  - intros f Hin. apply List.in_app_or in Hin. destruct Hin as [Hin|[<-|[]]];
      [apply Htidy; exact Hin|].
    cbn [Folders.name Folders.activationPhrase].
    repeat split; try assumption; apply ServiceFacts.trim_idempotent.
Qed.

Lemma edit_orderly (nameField phraseField : string) (pg : @Page Session Analysis) :
  in_sync pg -> Folders.orderly (Storage.folders (storage pg)) ->
  in_sync (snd (handleEditFolder uuid nameField phraseField pg))
  /\ Folders.orderly
       (Storage.folders
          (storage (snd (handleEditFolder uuid nameField phraseField pg)))).
Proof.
  intros Hsync Hord. pose proof Hord as (Hids & Hnames & Hphrases & Htidy).
  unfold handleEditFolder.
  destruct (currentEditingFolderId pg) as [editing|]; [|split; assumption].
  destruct (negb (truthy editing)); [split; assumption|].
  destruct (truthy (trim nameField)) eqn:Hn; cbn [negb orb]; [|split; assumption].
  destruct (truthy (trim phraseField)) eqn:Hp; cbn [negb]; [|split; assumption].
  destruct (List.find _ (FoldersPage.folders pg)) as [currentFolder|];
    [|split; assumption].
  destruct (name_used_sync (Some editing) (trim nameField) _ _ Hsync) as [En _].
  destruct (name_used_sync (Some editing) (trim phraseField) _ _ Hsync) as [_ Ep].
  rewrite En, Ep.
  destruct (name_used (Some editing) (trim nameField) (Storage.folders (storage pg)))
    eqn:Hnu; [split; assumption|].
  destruct (phrase_used (Some editing) (trim phraseField)
              (Storage.folders (storage pg))) eqn:Hpu; [split; assumption|].
  apply truthy_true in Hn. apply truthy_true in Hp.
  assert (Hupdated :
            Folders.orderly
              (Storage.folders
                 (snd (updateFolder editing (trim nameField) (trim phraseField)
                         (storage pg))))).
  { unfold updateFolder.
    destruct (update_first editing (trim nameField) (trim phraseField)
                (Storage.folders (storage pg))) as [fs'|] eqn:Hu; [|exact Hord].
    cbn [snd with_folders Storage.folders].
    destruct (update_first_spec _ _ _ _ Hids fs' Hu) as [Hsame Hin].
    split; [rewrite Hsame; exact Hids|]. split; [|split].
    - apply (update_NoDup (fun f => toLowerCase (Folders.name f))
               (toLowerCase (trim nameField)) editing (trim nameField)
               (trim phraseField) _ Hids Hnames); [| |exact Hu].
      + intros f Hf Hne. exact (name_free _ _ _ Hnu f Hf Hne).
      + intros x _ Hx _. cbn beta. rewrite Hx. reflexivity.
    - apply (update_NoDup (fun f => toLowerCase (Folders.activationPhrase f))
               (toLowerCase (trim phraseField)) editing (trim nameField)
               (trim phraseField) _ Hids Hphrases); [| |exact Hu].
      + intros f Hf Hne. exact (phrase_free _ _ _ Hpu f Hf Hne).
      + intros x _ _ Hx. cbn beta. rewrite Hx. reflexivity.
    - intros x Hx. destruct (Hin x Hx) as [[H1 _]|(_ & H2 & H3)];
        [apply Htidy; exact H1|].
      rewrite H2, H3. repeat split; try assumption;
        apply ServiceFacts.trim_idempotent. }
  destruct (updateFolder editing (trim nameField) (trim phraseField) (storage pg))
    as [found st1]. cbn [snd] in Hupdated.
  pose proof (getHistory_folders st1 (drawn pg)) as Hh.
  destruct (getHistory uuid st1 (drawn pg)) as [[h st2] n2]. cbn [fst snd] in Hh.
  cbn [snd].
  match goal with
  | |- context [loadData uuid ?e ?st ?n] =>
      destruct (loadData_spec e st n) as (Hs' & Hf' & _)
  end.
  split; [exact Hs'|]. rewrite Hf'. cbn [with_history Storage.folders].
  rewrite Hh. exact Hupdated.
Qed.

End Page.

End FolderFacts.
(** X27.  The folders page keeps the folders orderly.  When the page shows
    the folders of the store and these are orderly (no id twice, no name and
    no activation phrase twice up to case, names and phrases non-empty and
    trimmed), they are so again after [handleEditFolder], and after
    [handleCreateFolder] when the identifier drawn is new; the page then
    shows the folders of the store again. *)
Theorem folders_page_keeps_folders_orderly :
  forall (Session Analysis : Type) (uuid : nat -> string)
         (nameField phraseField now : string)
         (pg : @FoldersPage.Page Session Analysis),
    FoldersPage.in_sync pg ->
    Folders.orderly (Storage.folders (FoldersPage.storage pg)) ->
    (let pg' := snd (FoldersPage.handleEditFolder uuid nameField phraseField pg) in
     FoldersPage.in_sync pg'
     /\ Folders.orderly (Storage.folders (FoldersPage.storage pg')))
    /\ ((forall f, In f (Storage.folders (FoldersPage.storage pg)) ->
                   Folders.id f <> uuid (FoldersPage.drawn pg)) ->
        let pg' :=
          snd (FoldersPage.handleCreateFolder uuid nameField phraseField now pg) in
        FoldersPage.in_sync pg'
        /\ Folders.orderly (Storage.folders (FoldersPage.storage pg'))).
Proof.
  intros Session Analysis uuid nameField phraseField now pg Hsync Hord. split.
  - apply FolderFacts.edit_orderly; assumption.
  - intro Hfresh. apply FolderFacts.create_orderly; assumption.
Qed.

Lemma folders_page_keeps_folders_orderly_witness :
  (let pg' := snd (FoldersPage.handleEditFolder Scenarios.uuids " Office " "office note"
                     Scenarios.page) in
   FoldersPage.in_sync pg'
   /\ Folders.orderly (Storage.folders (FoldersPage.storage pg')))
  /\ ((forall f, In f (Storage.folders (FoldersPage.storage Scenarios.page)) ->
                 Folders.id f <> Scenarios.uuids (FoldersPage.drawn Scenarios.page)) ->
      let pg' :=
        snd (FoldersPage.handleCreateFolder Scenarios.uuids " Office " "office note"
               "2025-01-03T00:00:00.000Z" Scenarios.page) in
      FoldersPage.in_sync pg'
      /\ Folders.orderly (Storage.folders (FoldersPage.storage pg'))).
Proof.
  apply (folders_page_keeps_folders_orderly unit unit Scenarios.uuids
           " Office " "office note" "2025-01-03T00:00:00.000Z" Scenarios.page).
  - reflexivity.
  - unfold Folders.orderly. cbn [Scenarios.page FoldersPage.storage
      Scenarios.one_note Storage.folders List.map].
    repeat split; try (repeat constructor; cbn [In]; tauto).
    + destruct H as [<-|[]]. discriminate.
    + destruct H as [<-|[]]. reflexivity.
    + destruct H as [<-|[]]. discriminate.
    + destruct H as [<-|[]]. reflexivity.
Defined.

(* ================================================================== *)
(** * The filler counts add up *)
(* ================================================================== *)

Module TallyFacts.
Import JsString Regex Metrics Tally.

Lemma total_cons (k : string) (n : nat) (b : breakdown) :
  total ((k, n) :: b) = n + total b.
Proof. reflexivity. Qed.

Lemma total_bump (key : string) (by_ : nat) (b : breakdown) :
  In key (keys b) -> total (bump key by_ b) = total b + by_.
Proof.
  induction b as [|[k n] b IH]; [intros []|].
  cbn [bump]. destruct (String.eqb k key) eqn:E.
  - intros _. rewrite !total_cons. lia.
  - unfold keys. cbn [List.map fst].
    intros [H|H]; [apply String.eqb_neq in E; contradiction|].
    rewrite !total_cons, (IH H). lia.
Qed.

Lemma keys_bump (key : string) (by_ : nat) (b : breakdown) :
  keys (bump key by_ b) = keys b.
Proof.
  unfold keys. induction b as [|[k n] b IH]; [reflexivity|].
  cbn [bump]. destruct (String.eqb k key); [reflexivity|].
  cbn [List.map fst]. rewrite IH. reflexivity.
Qed.

Lemma total_zero (l : list string) :
  total (List.map (fun filler => (filler, 0)) l) = 0.
Proof. induction l as [|x l IH]; [reflexivity|]. cbn [List.map]. rewrite total_cons. exact IH. Qed.

Lemma keys_zero (l : list string) :
  keys (List.map (fun filler => (filler, 0)) l) = l.
Proof.
  unfold keys. induction l as [|x l IH]; [reflexivity|].
  cbn [List.map fst]. rewrite IH. reflexivity.
Qed.

Lemma mem_In (x : string) (l : list string) : mem x l = true -> In x l.
Proof.
  unfold mem. intro H. apply List.existsb_exists in H.
  destruct H as [y [Hy E]]. apply String.eqb_eq in E. subst y. exact Hy.
Qed.

(** The state of the count: the total is the sum of the breakdown, whose
    keys are the fillers. *)
Lemma count_word_keeps (st : counted) (word : string) :
  keys (breakdownOf st) = (singleWordFillers ++ multiWordFillers)%list ->
  totalCount st = total (breakdownOf st) ->
  keys (breakdownOf (count_word st word))
  = (singleWordFillers ++ multiWordFillers)%list
  /\ totalCount (count_word st word) = total (breakdownOf (count_word st word)).
Proof.
  intros Hk Ht. unfold count_word.
  destruct (mem (replace re_nonword "" word) singleWordFillers) eqn:E;
    [|split; assumption].
  cbn [breakdownOf totalCount]. rewrite keys_bump. split; [exact Hk|].
  rewrite total_bump; [lia|]. rewrite Hk. apply List.in_or_app. left.
  apply mem_In. exact E.
Qed.

Lemma count_phrase_keeps (textLower : string) (st : counted) (phrase : string) :
  In phrase multiWordFillers ->
  keys (breakdownOf st) = (singleWordFillers ++ multiWordFillers)%list ->
  totalCount st = total (breakdownOf st) ->
  keys (breakdownOf (count_phrase textLower st phrase))
  = (singleWordFillers ++ multiWordFillers)%list
  /\ totalCount (count_phrase textLower st phrase)
     = total (breakdownOf (count_phrase textLower st phrase)).
Proof.
  intros Hp Hk Ht. unfold count_phrase.
  destruct (match_all (lit false phrase) textLower) as [|m ms];
    [split; assumption|].
  cbn [breakdownOf totalCount]. rewrite keys_bump. split; [exact Hk|].
  rewrite total_bump; [lia|]. rewrite Hk. apply List.in_or_app. right. exact Hp.
Qed.

Lemma tally (text : string) :
  text <> "" ->
  keys (breakdownOf (getFillerWordsBreakdown text))
  = (singleWordFillers ++ multiWordFillers)%list
  /\ totalCount (getFillerWordsBreakdown text)
     = total (breakdownOf (getFillerWordsBreakdown text)).
Proof.
  intro Hne. unfold getFillerWordsBreakdown.
  apply StringFacts.truthy_true in Hne. rewrite Hne. cbn [negb].
  set (init := Counted 0 _).
  assert (Hinit : keys (breakdownOf init)
                  = (singleWordFillers ++ multiWordFillers)%list
                  /\ totalCount init = total (breakdownOf init)).
  { subst init. cbn [breakdownOf totalCount]. split.
    - apply keys_zero.
    - symmetry. apply total_zero. }
  clearbody init.
  assert (Hwords : forall pieces st,
             keys (breakdownOf st) = (singleWordFillers ++ multiWordFillers)%list
             /\ totalCount st = total (breakdownOf st) ->
             keys (breakdownOf (List.fold_left count_word pieces st))
             = (singleWordFillers ++ multiWordFillers)%list
             /\ totalCount (List.fold_left count_word pieces st)
                = total (breakdownOf (List.fold_left count_word pieces st))).
  { induction pieces as [|w pieces IH]; intros st [Hk Ht]; [split; assumption|].
    cbn [List.fold_left]. apply IH. apply count_word_keeps; assumption. }
  specialize (Hwords (split Format.re_ws (toLowerCase text)) init Hinit).
  set (st := List.fold_left count_word _ init) in *. clearbody st.
  assert (Hphrases : forall phrases st,
             (forall p, In p phrases -> In p multiWordFillers) ->
             keys (breakdownOf st) = (singleWordFillers ++ multiWordFillers)%list
             /\ totalCount st = total (breakdownOf st) ->
             keys (breakdownOf
                     (List.fold_left (count_phrase (toLowerCase text)) phrases st))
             = (singleWordFillers ++ multiWordFillers)%list
             /\ totalCount (List.fold_left (count_phrase (toLowerCase text)) phrases st)
                = total (breakdownOf
                           (List.fold_left (count_phrase (toLowerCase text))
                                           phrases st))).
  { induction phrases as [|p ps IH]; intros st0 Hin [Hk Ht]; [split; assumption|].
    cbn [List.fold_left]. apply IH.
    - intros q Hq. apply Hin. right. exact Hq.
    - apply count_phrase_keeps; [apply Hin; left; reflexivity|exact Hk|exact Ht]. }
  apply Hphrases; [auto|exact Hwords].
Qed.

End TallyFacts.

(** X28.  The filler counts add up: for every text, the number
    [countFillerWords] reports is the sum of the counts of the breakdown,
    and the breakdown of a non-empty text lists the sixteen single-word and
    the four multi-word fillers, each once and in this order, whatever the
    text. *)
Theorem filler_count_is_sum_of_breakdown :
  forall text : string,
    Metrics.countFillerWords text
    = Tally.total (Metrics.breakdownOf (Metrics.getFillerWordsBreakdown text))
    /\ (text <> "" ->
        Tally.keys (Metrics.breakdownOf (Metrics.getFillerWordsBreakdown text))
        = (Metrics.singleWordFillers ++ Metrics.multiWordFillers)%list).
Proof.
  intro text. destruct text as [|c t].
  - split; [reflexivity|]. intro H. exfalso. apply H. reflexivity.
  - destruct (TallyFacts.tally (String c t)) as [Hk Ht]; [discriminate|].
    split; [|intros _; exact Hk].
    unfold Metrics.countFillerWords. cbn [JsString.truthy negb]. exact Ht.
Qed.

Lemma filler_count_is_sum_of_breakdown_witness :
  Tally.keys (Metrics.breakdownOf
                (Metrics.getFillerWordsBreakdown "um so you know it was like great"))
  = (Metrics.singleWordFillers ++ Metrics.multiWordFillers)%list.
Proof.
  apply (filler_count_is_sum_of_breakdown "um so you know it was like great").
  discriminate.
Defined.

(** X29.  Selecting and resolving.  On an initialized manager, a
    selection that is accepted is stored, and [getSelectedPreset] then
    returns the preset under the selected id when it is enabled and [null]
    when it is disabled, leaving the manager as it is; a selection of [null]
    resolves to [null]; and the selection of an id that holds no preset is
    refused without any change. *)
Theorem selection_resolves_to_selected_preset :
  forall (now : N) (i : string) (s : Presets.State),
    Presets.initialized s = true ->
    i <> "" ->
    (forall p, JsMap.get i (Presets.presets s) = Some p ->
               Presets.selectPreset (Some i) s
               = (true, snd (Presets.selectPreset (Some i) s))
               /\ Presets.stored_selection
                    (Presets.store (snd (Presets.selectPreset (Some i) s))) = Some i
               /\ Presets.getSelectedPreset now (snd (Presets.selectPreset (Some i) s))
                  = (if Presets.enabled p then Some p else None,
                     snd (Presets.selectPreset (Some i) s)))
    /\ (JsMap.get i (Presets.presets s) = None ->
        Presets.selectPreset (Some i) s = (false, s))
    /\ fst (Presets.getSelectedPreset now (snd (Presets.selectPreset None s))) = None.
Proof.
  intros now i s Hinit Hi. apply StringFacts.truthy_true in Hi.
  unfold Presets.selectPreset. cbn [Presets.truthy_id]. rewrite Hi.
  unfold JsMap.has. split; [|split].
  - intros p Hget. rewrite Hget. cbn [negb andb snd]. split; [reflexivity|].
    split; [reflexivity|].
    unfold Presets.getSelectedPreset.
    set (s' := Presets.save_selection (Some i) (Presets.with_selection (Some i) s)).
    change (Presets.initialized s') with (Presets.initialized s).
    rewrite Hinit. cbn [negb].
    change (Presets.selectedPresetId s') with (Some i).
    change (Presets.presets s') with (Presets.presets s).
    cbv beta iota. rewrite Hi, Hget. cbn [negb]. destruct (Presets.enabled p); reflexivity.
  - intro Hget. rewrite Hget. reflexivity.
  - cbn [andb snd]. unfold Presets.getSelectedPreset.
    set (s' := Presets.save_selection None (Presets.with_selection None s)).
    change (Presets.initialized s') with (Presets.initialized s).
    rewrite Hinit. reflexivity.
Qed.

Lemma selection_resolves_to_selected_preset_witness :
  (forall p, JsMap.get "default-basic" (Presets.presets Notions.first_run) = Some p ->
             Presets.selectPreset (Some "default-basic") Notions.first_run
             = (true, snd (Presets.selectPreset (Some "default-basic") Notions.first_run))
             /\ Presets.stored_selection
                  (Presets.store
                     (snd (Presets.selectPreset (Some "default-basic")
                             Notions.first_run)))
                = Some "default-basic"
             /\ Presets.getSelectedPreset 5
                  (snd (Presets.selectPreset (Some "default-basic") Notions.first_run))
                = (if Presets.enabled p then Some p else None,
                   snd (Presets.selectPreset (Some "default-basic") Notions.first_run)))
  /\ (JsMap.get "default-basic" (Presets.presets Notions.first_run) = None ->
      Presets.selectPreset (Some "default-basic") Notions.first_run
      = (false, Notions.first_run))
  /\ fst (Presets.getSelectedPreset 5
            (snd (Presets.selectPreset None Notions.first_run))) = None.
Proof.
  apply (selection_resolves_to_selected_preset 5 "default-basic" Notions.first_run).
  - reflexivity.
  - discriminate.
Defined.
(* ================================================================== *)
(** * Shortened texts stay within their bound *)
(* ================================================================== *)

Module TrimmingFacts.
Import JsChar JsString Regex Trimming StringFacts LengthFacts.

(** ** Joining *)

Lemma join_cons (sep p : string) (rest : list string) :
  rest <> [] -> join sep (p :: rest) = p ++ sep ++ join sep rest.
Proof. destruct rest; [contradiction|reflexivity]. Qed.

Lemma length_join_cons (sep p : string) (rest : list string) :
  String.length (join sep (p :: rest))
  <= String.length p + String.length sep + String.length (join sep rest).
Proof.
  destruct rest as [|q rest]; [cbn [join]; lia|].
  rewrite join_cons by discriminate. rewrite !length_append. lia.
Qed.

Lemma length_join_removelast (sep : string) (l : list string) :
  String.length (join sep (List.removelast l)) <= String.length (join sep l).
Proof.
  induction l as [|p l IH]; [reflexivity|].
  destruct l as [|q l]; [cbn; lia|].
  change (List.removelast (p :: q :: l)) with (p :: List.removelast (q :: l)).
  rewrite (join_cons sep p (q :: l)) by discriminate. rewrite !length_append.
  pose proof (length_join_cons sep p (List.removelast (q :: l))). lia.
Qed.

(** ** The marks *)

Lemma star_class (p : ascii -> bool)
      (body : option ascii -> string -> captures -> cont -> result) :
  (forall prev s caps k,
      body prev s caps k
      = match s with
        | String c s' => if p c then k (Some c) s' caps else None
        | EmptyString => None
        end) ->
  forall (fuel : nat) (prev : option ascii) (s : string) (caps : captures),
    String.length s < fuel ->
    star_loop body true accept fuel prev s caps = Some (drop_while p s, caps).
Proof.
  intro Hbody.
  induction fuel as [|fuel IH]; intros prev s caps Hlen; [lia|].
  cbn [star_loop]. rewrite Hbody.
  destruct s as [|c s']; [reflexivity|].
  cbn [drop_while]. destruct (p c); [|reflexivity].
  assert (Hlt : (String.length s' <? String.length (String c s')) = true)
    by (apply Nat.ltb_lt; cbn [String.length]; lia).
  rewrite Hlt.
  rewrite IH by (cbn [String.length] in Hlen; lia). reflexivity.
Qed.

Lemma match_marks (prev : option ascii) (s : string) :
  match_at re_marks prev s
  = match Format.run_length (one_of ".!?") s with
    | O => None
    | S n => Some (S n, [])
    end.
Proof.
  unfold match_at, re_marks, plus, cls.
  change (rmatch (Seq (Char (one_of ".!?")) (Star true (Char (one_of ".!?"))))
                 prev s [] accept)
    with (match s with
          | String c s' =>
              if one_of ".!?" c
              then star_loop (rmatch (Char (one_of ".!?"))) true accept
                             (S (String.length s')) (Some c) s' []
              else None
          | EmptyString => None
          end).
  destruct s as [|c s']; [reflexivity|].
  cbn [Format.run_length]. destruct (one_of ".!?" c); [|reflexivity].
  rewrite (star_class (one_of ".!?") (rmatch (Char (one_of ".!?"))))
    by (first [lia | intros ? [|? ?] ? ?; reflexivity]).
  pose proof (drop_run (one_of ".!?") s') as Hl.
  cbn [String.length]. f_equal. f_equal. lia.
Qed.

Lemma split_go_nonempty (r : regex) (s : string) :
  forall skip prev cur, split_go r skip prev cur s <> [].
Proof.
  induction s as [|c s IH]; intros skip prev cur; [discriminate|].
  cbn [split_go]. destruct skip as [|skip]; [|apply IH].
  destruct (match_at r prev (String c s)) as [[[|n] caps]|]; try apply IH.
  - destruct cur; [apply IH|discriminate].
  - discriminate.
Qed.

Lemma length_split_marks (s : string) :
  forall skip prev cur,
    String.length (join "." (split_go re_marks skip prev cur s))
    <= List.length cur + String.length s.
Proof.
  induction s as [|c s IH]; intros skip prev cur.
  - cbn [split_go join String.length]. rewrite length_piece. lia.
  - cbn [split_go]. destruct skip as [|skip].
    + rewrite match_marks. cbn [Format.run_length].
      destruct (one_of ".!?" c).
      * change (group_count re_marks) with 0. cbn [group_texts List.app].
        rewrite join_cons by apply split_go_nonempty.
        rewrite !length_append, length_piece.
        specialize (IH (Format.run_length (one_of ".!?") s) (Some c) []).
        cbn [String.length List.length] in *. lia.
      * specialize (IH 0 (Some c) (c :: cur)).
        cbn [String.length List.length] in *. lia.
    + specialize (IH skip (Some c) []). cbn [String.length List.length] in *. lia.
Qed.

Lemma length_split (s : string) :
  String.length (join "." (split re_marks s)) <= String.length s.
Proof.
  unfold split. destruct s as [|c s].
  - rewrite match_marks. reflexivity.
  - pose proof (length_split_marks (String c s) 0 None []) as H.
    cbn [List.length] in H. exact H.
Qed.

Lemma split_on_nonempty (sep : ascii) (s : string) :
  forall cur, split_on sep cur s <> [].
Proof.
  induction s as [|c s IH]; intro cur; [discriminate|].
  cbn [split_on]. destruct (Ascii.eqb c sep); [discriminate|apply IH].
Qed.

Lemma length_split_on (sep : ascii) (s : string) :
  forall cur,
    String.length (join (String sep EmptyString) (split_on sep cur s))
    = List.length cur + String.length s.
Proof.
  induction s as [|c s IH]; intro cur.
  - cbn [split_on join String.length]. rewrite length_piece. lia.
  - cbn [split_on]. destruct (Ascii.eqb c sep).
    + rewrite join_cons by apply split_on_nonempty.
      rewrite !length_append, length_piece, IH. cbn [String.length List.length]. lia.
    + rewrite IH. cbn [String.length List.length]. lia.
Qed.

Lemma trimmed_bound (text : string) (limit : nat) :
  3 <= limit -> String.length (trimToLimit text limit) <= limit.
Proof.
  intro Hl. unfold trimToLimit.
  destruct (String.length text <=? limit) eqn:E; [apply Nat.leb_le; exact E|].
  set (head := take (limit - 3) text).
  assert (Hhead : String.length head <= limit - 3) by apply length_take.
  assert (Hwords :
            String.length
              (trim (join " " (List.removelast (split_on " " [] head))) ++ "...")
            <= limit).
  { rewrite length_append.
    pose proof (length_trim (join " " (List.removelast (split_on " " [] head)))).
    pose proof (length_join_removelast " " (split_on " " [] head)).
    pose proof (length_split_on " " head []) as Hs. cbn [List.length] in Hs.
    change (String.length "...") with 3. lia. }
  destruct (1 <? List.length (split re_marks head)); [|exact Hwords].
  destruct (4 * limit <=? _); [|exact Hwords].
  rewrite length_append.
  pose proof (length_trim (join "." (List.removelast (split re_marks head)))).
  pose proof (length_join_removelast "." (split re_marks head)).
  pose proof (length_split head). change (String.length ".") with 1. lia.
Qed.

Lemma take_append (n : nat) (s rest : string) :
  n <= String.length s -> take n (take n s ++ rest) = take n s.
Proof.
  revert s. induction n as [|n IH]; intros s H.
  - destruct s; destruct rest; reflexivity.
  - destruct s as [|c s]; [cbn in H; lia|].
    cbn [take append]. rewrite IH by (cbn [String.length] in H; lia). reflexivity.
Qed.

End TrimmingFacts.

(** X30.  The shortened texts stay within their bounds.  [trimToLimit]
    returns a text that fits as it is, and otherwise, for a limit of at least
    three units, a text of at most [limit] units; [truncateText] returns a
    text of at most [maxLength] units plus the three of the ellipsis, which
    starts as the text starts. *)
Theorem shortened_texts_fit :
  forall (text : string) (limit : nat),
    (String.length text <= limit -> Trimming.trimToLimit text limit = text)
    /\ (3 <= limit -> String.length (Trimming.trimToLimit text limit) <= limit)
    /\ String.length (Trimming.truncateText text limit) <= limit + 3
    /\ JsString.take limit (Trimming.truncateText text limit) = JsString.take limit text.
Proof.
  intros text limit. split; [|split; [apply TrimmingFacts.trimmed_bound|]].
  - intro H. unfold Trimming.trimToLimit. apply Nat.leb_le in H. rewrite H.
    reflexivity.
  - unfold Trimming.truncateText.
    destruct (limit <? String.length text) eqn:E.
    + apply Nat.ltb_lt in E. split.
      * rewrite LengthFacts.length_append.
        pose proof (LengthFacts.length_take limit text).
        change (String.length "...") with 3. lia.
      * apply TrimmingFacts.take_append. lia.
    + apply Nat.ltb_ge in E. split; [lia|reflexivity].
Qed.

Lemma shortened_texts_fit_witness :
  String.length
    (Trimming.trimToLimit "One. Two is longer. Three is the longest of all." 30)
  <= 30.
Proof.
  apply (shortened_texts_fit "One. Two is longer. Three is the longest of all." 30).
  lia.
Defined.
